(** * CargoSync load & route optimisation core: shallow embedding and properties

    The development follows the TypeScript sources:
    - [server/routers/optimize.ts]    ([packItems])                      -> [Module Packing]
    - the multi-trip global optimiser ([runOptimizationV3] and friends)  -> [Module GlobalV3]
    - the single-trip global optimiser ([assignOrdersToTrucks])          -> [Module GlobalV1]

    JavaScript numbers that carry lengths, weights and volumes are modelled as
    exact rationals ([Q]), their sums and products being taken exactly; a
    decimal constant of the sources is the double it denotes, and the
    comparison of the balance check is evaluated in double precision
    ([Js.double]).  The largest dimensions of an order, which are
    [-Infinity] for an order without item lines, are numbers of [Js.Ext].
    Minute counts, which the code only ever adds up from integer constants,
    are modelled as [Z]; array lengths and indices as [nat].  A [TypeError]
    (reading a field of [undefined]) is [None] in the option monad. *)

From Stdlib Require Import QArith Qabs Qround Qminmax ZArith Lia Lqa.
From Stdlib Require Import Sorted Permutation.
From Stdlib Require OrderedTypeEx Qpower.
From stdpp Require Import base option list strings gmap.

Local Open Scope Q_scope.

(** ** JavaScript library functions used by the sources *)
Module Js.

(** [a > b] on numbers. *)
Definition gt (a b : Q) : bool := negb (Qle_bool a b).

(** [a < b] on numbers. *)
Definition lt (a b : Q) : bool := negb (Qle_bool b a).

(** [a >= b] on numbers. *)
Definition ge (a b : Q) : bool := Qle_bool b a.

(** [x || d] on a number: [0] is falsy. *)
Definition orElse (x d : Q) : Q := if Qeq_bool x 0 then d else x.

(** [Number(s) || d] for a nullable decimal column: [Number(null)] is [0]. *)
Definition numOr (x : option Q) (d : Q) : Q :=
  match x with
  | Some q => orElse q d
  | None => d
  end.

Section Sort.
Context {A : Type}.

(** [keep x y] is [cmp(x, y) <= 0] for the comparator [cmp] handed to
    [Array.prototype.sort]: [x], met before [y], stays before [y]. *)
Variable keep : A -> A -> bool.

Fixpoint insert (x : A) (l : list A) : list A :=
  match l with
  | [] => [x]
  | y :: l' => if keep x y then x :: y :: l' else y :: insert x l'
  end.

(** [Array.prototype.sort(cmp)] is stable (ES2019): for a comparator that is
    a total preorder its result is the one computed here. *)
Definition sort (l : list A) : list A := foldr insert [] l.
End Sort.

(** [Array.from(new Set(xs))]: first occurrences, in order. *)
Fixpoint dedup (xs : list string) (seen : list string) : list string :=
  match xs with
  | [] => []
  | x :: xs' =>
      if bool_decide (x ∈ seen) then dedup xs' seen
      else x :: dedup xs' (x :: seen)
  end.

(** [Math.max(...xs, 0)] on minute counts. *)
Definition maxWith0 (xs : list Z) : Z := foldr Z.max 0%Z xs.

(** [Math.round(x)]: the nearest integer, halves upwards. *)
Definition round (x : Q) : Z := Qfloor (x + (1 # 2)).

(** A number that is finite or [-Infinity]. *)
Inductive Ext := NegInf | Fin (q : Q).

(** [Math.max(...xs)]: with no argument JavaScript answers [-Infinity]. *)
Definition maxOf (xs : list Q) : Ext :=
  match xs with
  | [] => NegInf
  | x :: xs' => Fin (fold_left Qmax xs' x)
  end.

(** [a > b] for [a] finite or [-Infinity] and [b] finite. *)
Definition gtExt (a : Ext) (b : Q) : bool :=
  match a with
  | NegInf => false
  | Fin q => gt q b
  end.

(** The order of the numbers of [Ext]. *)
Definition leExt (a b : Ext) : Prop :=
  match a, b with
  | NegInf, _ => True
  | Fin x, Fin y => x <= y
  | Fin _, NegInf => False
  end.

(** *** Double precision

    The double nearest to a rational, ties to the even mantissa, with 53
    significant bits; the range of the exponent is taken unbounded (no
    overflow to [Infinity], no subnormal numbers). *)

Definition pow2 (e : Z) : Q := 2 ^ e.

(** The integer part of the binary logarithm of [q > 0]: the logarithms of
    numerator and denominator give it up to one. *)
Definition ilog2 (q : Q) : Z :=
  let k := (Z.log2 (Qnum q) - Z.log2 (Zpos (Qden q)))%Z in
  if Qle_bool (pow2 k) q then k else (k - 1)%Z.

(** The nearest integer, ties to even. *)
Definition roundHalfEven (x : Q) : Z :=
  let f := Qfloor x in
  match Qcompare (x - inject_Z f) (1 # 2) with
  | Lt => f
  | Gt => (f + 1)%Z
  | Eq => if Z.even f then f else (f + 1)%Z
  end.

(** The double nearest to [q > 0]: a mantissa of 53 bits at the exponent
    that puts [q] between [2 ^ 52] and [2 ^ 53]. *)
Definition nearest53 (q : Q) : Q :=
  let e := (ilog2 q - 52)%Z in
  inject_Z (roundHalfEven (q / pow2 e)) * pow2 e.

Definition double (q : Q) : Q :=
  match Qcompare q 0 with
  | Eq => 0
  | Gt => nearest53 q
  | Lt => - nearest53 (- q)
  end.

(** The literal [0.3]: [0x1.3333333333333p-2]. *)
Definition double_0_3 : Q := 5404319552844595 # 18014398509481984.

(** [s.padStart(6, '0')]. *)
Definition padStart6 (s : string) : string :=
  String.concat "" (replicate (6 - String.length s) "0") +:+ s.

(** [Math.ceil(n / 3)] for an array length [n]. *)
Definition ceilThird (n : nat) : nat := Nat.div (n + 2) 3.

End Js.

(** ** The multi-trip optimiser (route optimisation algorithm V3) *)
Module GlobalV3.

(** Estimated travel times from the depot to each zone, in minutes. *)
Definition ZONE_TRAVEL_TIMES : gmap string Z :=
  list_to_map
    [("West", 15); ("Central", 30); ("South", 35); ("East", 45); ("North", 40)]%Z.

(** Inter-zone travel times, in minutes. *)
Definition INTER_ZONE_TIMES : gmap string Z :=
  list_to_map
    [("Central-East", 25); ("Central-North", 20); ("Central-South", 15);
     ("Central-West", 20); ("East-North", 25); ("East-South", 30);
     ("East-West", 40); ("North-South", 35); ("North-West", 35);
     ("South-West", 25)]%Z.

(** Reload time at the depot, in minutes. *)
Definition DEPOT_RELOAD_TIME : Z := 30.

(** [table[key] || 30]. *)
Definition lookupOr30 (table : gmap string Z) (key : string) : Z :=
  match table !! key with
  | Some t => if (t =? 0)%Z then 30%Z else t
  | None => 30%Z
  end.

(** [[zone1, zone2].sort().join('-')]: the default sort compares the strings
    code unit by code unit. *)
Definition zoneKey (zone1 zone2 : string) : string :=
  if String.leb zone1 zone2 then zone1 +:+ "-" +:+ zone2
  else zone2 +:+ "-" +:+ zone1.

Definition getInterZoneTime (zone1 zone2 : string) : Z :=
  if String.eqb zone1 zone2 then 5%Z
  else lookupOr30 INTER_ZONE_TIMES (zoneKey zone1 zone2).

Inductive Helpers := none | one | two.

Record ItemData := {
  item_id : Z;
  item_orderId : Z;
  item_skuId : Z;
  item_quantity : nat;
  item_name : string;
  item_length : Q;
  item_width : Q;
  item_height : Q;
  item_weight : Q;
}.

Record OrderData := {
  order_id : Z;
  order_orderNumber : string;
  order_zipcode : string;
  order_zone : string;
  order_sector : string;
  order_latitude : option Q;
  order_longitude : option Q;
  order_helpersRequired : Helpers;
  order_totalWeight : Q;
  order_totalVolume : Q;
  order_maxLength : Js.Ext;
  order_maxWidth : Js.Ext;
  order_maxHeight : Js.Ext;
  order_needsTwoPeople : bool;
  order_items : list ItemData;
}.

Record TruckData := {
  truck_id : Z;
  truck_name : string;
  truck_width : Q;
  truck_depth : Q;
  truck_height : Q;
  truck_maxWeight : Q;
  truck_volume : Q;
}.

Record TruckTrip := {
  trip_tripId : nat;
  trip_truckId : Z;
  trip_maxVolume : Q;
  trip_maxWeight : Q;
  trip_truckDims : Q * Q * Q;
  trip_loadedOrders : list OrderData;
  trip_currentVolume : Q;
  trip_currentWeight : Q;
  trip_assignedZones : list string;
}.

Record TruckWithTrips := {
  tw_truck : TruckData;
  tw_trips : list TruckTrip;
  tw_totalOrders : nat;
  tw_totalVolumeUsed : Q;
  tw_totalWeightUsed : Q;
  tw_totalRouteTime : Z;
}.

Record RouteStop := {
  stop_orderId : Z;
  stop_sequence : nat;
}.

(** [(a, b) => b - a], as the [keep] test of [Js.sort]. *)
Definition descending (a b : Q) : bool := Qle_bool (b - a) 0.

(** The same comparator on numbers that may be [-Infinity]: [b - a] is
    [+Infinity] for [a = -Infinity] and [b] finite, [-Infinity] the other
    way round, and [NaN], which [sort] takes for 0, between two
    [-Infinity]. *)
Definition descendingExt (a b : Js.Ext) : bool :=
  match a, b with
  | Js.Fin x, Js.Fin y => descending x y
  | Js.NegInf, Js.Fin _ => false
  | Js.Fin _, Js.NegInf => true
  | Js.NegInf, Js.NegInf => true
  end.

(** *** Trip helper functions *)

Definition canFitInTrip (trip : TruckTrip) (order : OrderData) : bool :=
  if Js.gt (trip_currentVolume trip + order_totalVolume order) (trip_maxVolume trip)
  then false
  else if Js.gt (trip_currentWeight trip + order_totalWeight order) (trip_maxWeight trip)
  then false
  else
    let '(w, d, h) := trip_truckDims trip in
    let dims := Js.sort descending [w; d; h] in
    let orderDims :=
      Js.sort descendingExt
        [order_maxLength order; order_maxWidth order; order_maxHeight order] in
    forallb (fun '(od, td) => negb (Js.gtExt od td)) (zip orderDims dims).

Definition loadOrderIntoTrip (trip : TruckTrip) (order : OrderData) : TruckTrip :=
  {| trip_tripId := trip_tripId trip;
     trip_truckId := trip_truckId trip;
     trip_maxVolume := trip_maxVolume trip;
     trip_maxWeight := trip_maxWeight trip;
     trip_truckDims := trip_truckDims trip;
     trip_loadedOrders := trip_loadedOrders trip ++ [order];
     trip_currentVolume := trip_currentVolume trip + order_totalVolume order;
     trip_currentWeight := trip_currentWeight trip + order_totalWeight order;
     trip_assignedZones :=
       if bool_decide (order_zone order ∈ trip_assignedZones trip)
       then trip_assignedZones trip
       else trip_assignedZones trip ++ [order_zone order] |}.

(** [(a, b) => (ZONE_TRAVEL_TIMES[a] || 30) - (ZONE_TRAVEL_TIMES[b] || 30)]. *)
Definition nearerDepot (a b : string) : bool :=
  (lookupOr30 ZONE_TRAVEL_TIMES a - lookupOr30 ZONE_TRAVEL_TIMES b <=? 0)%Z.

Definition optimizeZoneOrder (zones : list string) : list string :=
  let uniqueZones := Js.dedup zones [] in
  if (length uniqueZones <=? 1)%nat then uniqueZones
  else Js.sort nearerDepot uniqueZones.

(** The loop [for (i = 0; i < zones.length - 1; i++)] over consecutive zones. *)
Fixpoint interZoneTotal (zones : list string) : Z :=
  match zones with
  | z1 :: ((z2 :: _) as rest) => (getInterZoneTime z1 z2 + interZoneTotal rest)%Z
  | _ => 0%Z
  end.

(** The body of [for (const order of trip.loadedOrders)]: the minutes one
    stop adds. *)
Definition serviceTime (order : OrderData) : Z :=
  if order_needsTwoPeople order then 15%Z else 10%Z.

Definition getTripRouteTime (trip : TruckTrip) (includeReturn : bool) : Z :=
  if (length (trip_loadedOrders trip) =? 0)%nat then 0%Z
  else
    let zones := optimizeZoneOrder (trip_assignedZones trip) in
    match zones with
    | [] => 0%Z
    | first :: _ =>
        let t0 := lookupOr30 ZONE_TRAVEL_TIMES first in
        let t1 := (t0 + interZoneTotal zones)%Z in
        let t2 := fold_left (fun t o => (t + serviceTime o)%Z) (trip_loadedOrders trip) t1 in
        if includeReturn
        then (t2 + lookupOr30 ZONE_TRAVEL_TIMES (List.last zones first))%Z
        else t2
    end.

(** The loop of [getTruckTotalRouteTime] from index [i] on; [n] is
    [trips.length]. *)
Fixpoint truckTimeLoop (n i : nat) (trips : list TruckTrip) (totalTime : Z) : Z :=
  match trips with
  | [] => totalTime
  | trip :: rest =>
      let t := (totalTime + getTripRouteTime trip true)%Z in
      let t' := if (i <? n - 1)%nat then (t + DEPOT_RELOAD_TIME)%Z else t in
      truckTimeLoop n (S i) rest t'
  end.

Definition getTruckTotalRouteTime (trips : list TruckTrip) : Z :=
  if (length trips =? 0)%nat then 0%Z
  else truckTimeLoop (length trips) 0 trips 0%Z.

(** *** Main optimisation algorithm (Best-Fit Decreasing, zone-based) *)

(** The trip object literal written twice in [runOptimizationV3]. *)
Definition newTrip (tripId : nat) (truck : TruckData) : TruckTrip :=
  {| trip_tripId := tripId;
     trip_truckId := truck_id truck;
     trip_maxVolume := truck_volume truck;
     trip_maxWeight := truck_maxWeight truck;
     trip_truckDims := (truck_width truck, truck_depth truck, truck_height truck);
     trip_loadedOrders := [];
     trip_currentVolume := 0;
     trip_currentWeight := 0;
     trip_assignedZones := [] |}.

Definition initTruck (truck : TruckData) : TruckWithTrips :=
  {| tw_truck := truck;
     tw_trips := [newTrip 1 truck];
     tw_totalOrders := 0;
     tw_totalVolumeUsed := 0;
     tw_totalWeightUsed := 0;
     tw_totalRouteTime := 0 |}.

Definition withTrips (tw : TruckWithTrips) (trips : list TruckTrip) : TruckWithTrips :=
  {| tw_truck := tw_truck tw;
     tw_trips := trips;
     tw_totalOrders := tw_totalOrders tw;
     tw_totalVolumeUsed := tw_totalVolumeUsed tw;
     tw_totalWeightUsed := tw_totalWeightUsed tw;
     tw_totalRouteTime := tw_totalRouteTime tw |}.

(** The [TruckWithTrips] objects live in the array [trucksWithTrips]; the
    lists in [zoneTruckMap] and the copy [sortedTrucks] hold references to
    the same objects.  The array is the store and a reference is an index
    into it. *)
Abbreviation Store := (list TruckWithTrips).

(** [truckWithTrips.trips[truckWithTrips.trips.length - 1]]. *)
Definition currentTrip (tw : TruckWithTrips) : option TruckTrip :=
  tw_trips tw !! (length (tw_trips tw) - 1)%nat.

(** [loadOrderIntoTrip(currentTrip, order)] for the truck referenced by [i]:
    the trip object is mutated in place. *)
Definition loadIntoCurrentTrip (store : Store) (i : nat) (order : OrderData)
    : option Store :=
  tw ← store !! i;
  trip ← currentTrip tw;
  Some (<[i := withTrips tw
                 (<[(length (tw_trips tw) - 1)%nat := loadOrderIntoTrip trip order]>
                    (tw_trips tw))]> store).

(** Step 1: [zoneOrders], a record keyed by zone; its keys enumerate in
    insertion order (zone names are taken from North, South, East, West and
    Central, never array indices or members of [Object.prototype]). *)
Fixpoint pushZone (zone : string) (order : OrderData)
    (m : list (string * list OrderData)) : list (string * list OrderData) :=
  match m with
  | [] => [(zone, [order])]
  | (z, os) :: m' =>
      if String.eqb z zone then (z, os ++ [order]) :: m'
      else (z, os) :: pushZone zone order m'
  end.

Definition groupByZone (ordersData : list OrderData) : list (string * list OrderData) :=
  fold_left (fun m o => pushZone (order_zone o) o m) ordersData [].

(** [(a, b) => b.totalVolume - a.totalVolume]. *)
Definition byVolumeDesc (a b : OrderData) : bool :=
  Qle_bool (order_totalVolume b - order_totalVolume a) 0.

Definition sortZoneOrders (m : list (string * list OrderData))
    : list (string * list OrderData) :=
  map (fun '(z, os) => (z, Js.sort byVolumeDesc os)) m.

Record Demand := { demand_volume : Q; demand_weight : Q; demand_count : nat }.

(** Step 2: zone demands. *)
Definition zoneDemandsOf (zoneOrders : list (string * list OrderData))
    : list (string * Demand) :=
  map (fun '(z, os) =>
         (z, {| demand_volume := fold_left (fun sum o => sum + order_totalVolume o) os 0;
                demand_weight := fold_left (fun sum o => sum + order_totalWeight o) os 0;
                demand_count := length os |})) zoneOrders.

(** [(a, b) => b[1].volume - a[1].volume]. *)
Definition byDemandDesc (a b : string * Demand) : bool :=
  Qle_bool (demand_volume (snd b) - demand_volume (snd a)) 0.

Definition sortedZonesOf (zoneDemands : list (string * Demand)) : list string :=
  map fst (Js.sort byDemandDesc zoneDemands).

(** [(a, b) => b.truck.volume - a.truck.volume]. *)
Definition byCapacityDesc (a b : TruckWithTrips) : bool :=
  Qle_bool (truck_volume (tw_truck b) - truck_volume (tw_truck a)) 0.

(** [record[zone]] on an insertion-ordered record. *)
Fixpoint assocGet {V : Type} (m : list (string * V)) (zone : string) : option V :=
  match m with
  | [] => None
  | (z, v) :: m' => if String.eqb z zone then Some v else assocGet m' zone
  end.

(** The inner loop of "assign trucks to zones based on demand". *)
Fixpoint assignZoneTrucks (neededVolume : Q) (trucks : list (nat * TruckWithTrips))
    (assignedVolume : Q) (usedTrucks : gset Z) (assigned : list nat)
    : list nat * gset Z :=
  match trucks with
  | [] => (assigned, usedTrucks)
  | (i, tw) :: rest =>
      if bool_decide (truck_id (tw_truck tw) ∈ usedTrucks)
      then assignZoneTrucks neededVolume rest assignedVolume usedTrucks assigned
      else if Js.ge assignedVolume neededVolume then (assigned, usedTrucks)
      else assignZoneTrucks neededVolume rest
             (assignedVolume + truck_volume (tw_truck tw))
             ({[truck_id (tw_truck tw)]} ∪ usedTrucks) (assigned ++ [i])
  end.

Fixpoint assignZones (store : Store) (zoneDemands : list (string * Demand))
    (zones : list string) (zoneTruckMap : gmap string (list nat))
    (usedTrucks : gset Z) : option (gmap string (list nat) * gset Z) :=
  match zones with
  | [] => Some (zoneTruckMap, usedTrucks)
  | zone :: rest =>
      d ← assocGet zoneDemands zone;
      let '(assigned, used') :=
        assignZoneTrucks (demand_volume d) (imap pair store) 0 usedTrucks [] in
      assignZones store zoneDemands rest (<[zone := assigned]> zoneTruckMap) used'
  end.

(** "Assign remaining trucks to highest demand zone". *)
Fixpoint assignRemaining (bestZone : string) (trucks : list (nat * TruckWithTrips))
    (zoneTruckMap : gmap string (list nat)) (usedTrucks : gset Z)
    : gmap string (list nat) :=
  match trucks with
  | [] => zoneTruckMap
  | (i, tw) :: rest =>
      if bool_decide (truck_id (tw_truck tw) ∈ usedTrucks)
      then assignRemaining bestZone rest zoneTruckMap usedTrucks
      else
        assignRemaining bestZone rest
          (<[bestZone := default [] (zoneTruckMap !! bestZone) ++ [i]]> zoneTruckMap)
          ({[truck_id (tw_truck tw)]} ∪ usedTrucks)
  end.

(** [sortedZones[0] || 'Central']. *)
Definition bestZoneOf (sortedZones : list string) : string :=
  match sortedZones with
  | z :: _ => if String.eqb z "" then "Central" else z
  | [] => "Central"
  end.

(** Step 3, "try to find best fit in assigned zone trucks"; [bestRemaining]
    is [None] while it is still [Infinity]. *)
Fixpoint findBestTruck (store : Store) (order : OrderData) (assignedTrucks : list nat)
    (bestTruck : option nat) (bestRemaining : option Q) : option (option nat) :=
  match assignedTrucks with
  | [] => Some bestTruck
  | i :: rest =>
      tw ← store !! i;
      trip ← currentTrip tw;
      if canFitInTrip trip order then
        let remaining :=
          trip_maxVolume trip - trip_currentVolume trip - order_totalVolume order in
        if match bestRemaining with
           | None => true
           | Some b => Js.lt remaining b
           end
        then findBestTruck store order rest (Some i) (Some remaining)
        else findBestTruck store order rest bestTruck bestRemaining
      else findBestTruck store order rest bestTruck bestRemaining
  end.

(** Step 3, "try any truck": the first truck whose current trip fits. *)
Fixpoint tryAnyTruck (store : Store) (order : OrderData) (trucks : list nat)
    : option (Store * bool) :=
  match trucks with
  | [] => Some (store, false)
  | i :: rest =>
      tw ← store !! i;
      trip ← currentTrip tw;
      if canFitInTrip trip order then
        store' ← loadIntoCurrentTrip store i order;
        Some (store', true)
      else tryAnyTruck store order rest
  end.

(** The state threaded through steps 3 and 4: the truck store and the
    array [unassignedOrders]. *)
Definition PackState : Type := Store * list OrderData.

Definition packOrder (assignedTrucks : list nat) (st : PackState) (order : OrderData)
    : option PackState :=
  let '(store, unassigned) := st in
  bestTruck ← findBestTruck store order assignedTrucks None None;
  match bestTruck with
  | Some i =>
      store' ← loadIntoCurrentTrip store i order;
      Some (store', unassigned)
  | None =>
      r ← tryAnyTruck store order (seq 0 (length store));
      let '(store', packed) := r in
      Some (store', if (packed : bool) then unassigned else unassigned ++ [order])
  end.

(** [for (const x of xs)] with a body that may throw. *)
Fixpoint forEachM {S X : Type} (body : S -> X -> option S) (xs : list X) (s : S)
    : option S :=
  match xs with
  | [] => Some s
  | x :: xs' => s' ← body s x; forEachM body xs' s'
  end.

Definition packZone (zoneOrders : list (string * list OrderData))
    (zoneTruckMap : gmap string (list nat)) (st : PackState) (zone : string)
    : option PackState :=
  let orders := default [] (assocGet zoneOrders zone) in
  let assignedTrucks := default [] (zoneTruckMap !! zone) in
  forEachM (packOrder assignedTrucks) orders st.

(** Step 4, the loop over [sortedTrucks] for one remaining order. *)
Fixpoint multiTripTrucks (store : Store) (order : OrderData) (sortedTrucks : list nat)
    : option (Store * bool) :=
  match sortedTrucks with
  | [] => Some (store, false)
  | i :: rest =>
      tw ← store !! i;
      trip ← currentTrip tw;
      let '(store1, current) :=
        if negb (canFitInTrip trip order) then
          let nt := newTrip (length (tw_trips tw) + 1) (tw_truck tw) in
          (<[i := withTrips tw (tw_trips tw ++ [nt])]> store, nt)
        else (store, trip) in
      if canFitInTrip current order then
        store2 ← loadIntoCurrentTrip store1 i order;
        Some (store2, true)
      else multiTripTrucks store1 order rest
  end.

(** [[...trucksWithTrips].sort(byCapacity)], as references. *)
Definition sortedTruckRefs (store : Store) : list nat :=
  map fst (Js.sort (fun a b => byCapacityDesc (snd a) (snd b)) (imap pair store)).

Definition multiTripOrder (st : PackState) (order : OrderData) : option PackState :=
  let '(store, unassigned) := st in
  r ← multiTripTrucks store order (sortedTruckRefs store);
  let '(store', packed) := r in
  Some (store', if (packed : bool) then unassigned else unassigned ++ [order]).

(** "Calculate totals for each truck". *)
Definition withTotals (tw : TruckWithTrips) : TruckWithTrips :=
  {| tw_truck := tw_truck tw;
     tw_trips := tw_trips tw;
     tw_totalOrders :=
       fold_left (fun sum t => (sum + length (trip_loadedOrders t))%nat) (tw_trips tw) 0%nat;
     tw_totalVolumeUsed :=
       fold_left (fun sum t => sum + trip_currentVolume t) (tw_trips tw) 0;
     tw_totalWeightUsed :=
       fold_left (fun sum t => sum + trip_currentWeight t) (tw_trips tw) 0;
     tw_totalRouteTime := getTruckTotalRouteTime (tw_trips tw) |}.

(** The fields of [summary] that are counts or minute totals; the rounded
    percentages and hour figures are left out. *)
Record Summary := {
  totalOrders : nat;
  assignedOrders : nat;
  unassignedOrdersCount : nat;
  totalTrips : nat;
  totalElapsedTimeMin : Z;
  depotReloadTimePerTripMin : Z;
}.

Record Result := {
  trucksWithTrips : list TruckWithTrips;
  unassignedOrders : list OrderData;
  summary : Summary;
}.

Definition runOptimizationV3 (ordersData : list OrderData) (trucksData : list TruckData)
    : option Result :=
  let zoneOrders := sortZoneOrders (groupByZone ordersData) in
  let zoneDemands := zoneDemandsOf zoneOrders in
  let sortedZones := sortedZonesOf zoneDemands in
  let store0 := Js.sort byCapacityDesc (map initTruck trucksData) in
  zu ← assignZones store0 zoneDemands sortedZones ∅ ∅;
  let '(zoneTruckMap0, usedTrucks) := zu in
  let zoneTruckMap :=
    assignRemaining (bestZoneOf sortedZones) (imap pair store0) zoneTruckMap0 usedTrucks in
  st3 ← forEachM (packZone zoneOrders zoneTruckMap) sortedZones (store0, []);
  let '(store3, unassigned3) := st3 in
  let remainingOrders := Js.sort byVolumeDesc unassigned3 in
  st4 ← forEachM multiTripOrder remainingOrders (store3, []);
  let '(store4, unassigned4) := st4 in
  let final := map withTotals store4 in
  let totalAssigned := fold_left (fun sum t => (sum + tw_totalOrders t)%nat) final 0%nat in
  let maxTruckTime := Js.maxWith0 (map tw_totalRouteTime final) in
  Some {| trucksWithTrips := final;
          unassignedOrders := unassigned4;
          summary :=
            {| totalOrders := length ordersData;
               assignedOrders := totalAssigned;
               unassignedOrdersCount := length unassigned4;
               totalTrips := fold_left (fun sum t => (sum + length (tw_trips t))%nat) final 0%nat;
               totalElapsedTimeMin := maxTruckTime;
               depotReloadTimePerTripMin := DEPOT_RELOAD_TIME |} |}.

(** *** Load plan: front / middle / back placement *)

Inductive Placement := back | middle | front.

(** [{ ...item, orderId: order.id, sequence }]: one unit of an order line. *)
Record LoadUnit := {
  unit_item : ItemData;
  unit_orderId : Z;
  unit_sequence : nat;
}.

Record LoadPlanItem := {
  lp_orderItemId : Z;
  lp_orderId : Z;
  lp_name : string;
  lp_x : Q;
  lp_y : Q;
  lp_z : Q;
  lp_rotatedLength : Q;
  lp_rotatedWidth : Q;
  lp_height : Q;
  lp_weight : Q;
  lp_rotation : Z;
  lp_placement : Placement;
}.

(** [route.find(r => r.orderId === order.id)?.sequence || 999]. *)
Definition sequenceOf (route : list RouteStop) (order : OrderData) : nat :=
  match List.find (fun r => (stop_orderId r =? order_id order)%Z) route with
  | Some r => if (stop_sequence r =? 0)%nat then 999%nat else stop_sequence r
  | None => 999%nat
  end.

Definition unitsOfOrder (route : list RouteStop) (order : OrderData) : list LoadUnit :=
  flat_map
    (fun item =>
       replicate (item_quantity item)
         {| unit_item := item;
            unit_orderId := order_id order;
            unit_sequence := sequenceOf route order |})
    (order_items order).

Definition collectUnits (trip : TruckTrip) (route : list RouteStop) : list LoadUnit :=
  flat_map (unitsOfOrder route) (trip_loadedOrders trip).

(** [(a, b) => b.sequence - a.sequence]. *)
Definition bySequenceDesc (a b : LoadUnit) : bool :=
  (Z.of_nat (unit_sequence b) - Z.of_nat (unit_sequence a) <=? 0)%Z.

(** [(a, b) => b.weight - a.weight]. *)
Definition byWeightDesc (a b : LoadUnit) : bool :=
  Qle_bool (item_weight (unit_item b) - item_weight (unit_item a)) 0.

Record TruckSection := {
  section_name : Placement;
  section_startY : Q;
  section_endY : Q;
  section_items : list LoadUnit;
}.

(** The object [sections]; its entries enumerate as back, middle, front. *)
Definition emptySections (truck : TruckData) : list TruckSection :=
  let sectionDepth := truck_depth truck / 3 in
  [ {| section_name := back; section_startY := 0; section_endY := sectionDepth;
       section_items := [] |};
    {| section_name := middle; section_startY := sectionDepth;
       section_endY := sectionDepth * 2; section_items := [] |};
    {| section_name := front; section_startY := sectionDepth * 2;
       section_endY := truck_depth truck; section_items := [] |} ].

(** The branch taken for index [i] in "assign items to sections". *)
Definition sectionIndex (itemsPerSection i : nat) : Placement :=
  if (i <? itemsPerSection)%nat then back
  else if (i <? itemsPerSection * 2)%nat then middle
  else front.

Definition placement_eqb (a b : Placement) : bool :=
  match a, b with
  | back, back | middle, middle | front, front => true
  | _, _ => false
  end.

Definition pushUnit (p : Placement) (u : LoadUnit) (sections : list TruckSection)
    : list TruckSection :=
  map (fun s =>
         if placement_eqb (section_name s) p
         then {| section_name := section_name s;
                 section_startY := section_startY s;
                 section_endY := section_endY s;
                 section_items := section_items s ++ [u] |}
         else s) sections.

Fixpoint assignSections (itemsPerSection i : nat) (allItems : list LoadUnit)
    (sections : list TruckSection) : list TruckSection :=
  match allItems with
  | [] => sections
  | u :: rest =>
      assignSections itemsPerSection (S i) rest
        (pushUnit (sectionIndex itemsPerSection i) u sections)
  end.

(** The sorted unit list and the three sections, before shelf packing. *)
Definition sortedUnits (trip : TruckTrip) (route : list RouteStop) : list LoadUnit :=
  Js.sort bySequenceDesc (collectUnits trip route).

Definition sectionsOf (trip : TruckTrip) (route : list RouteStop) (truck : TruckData)
    : list TruckSection :=
  let allItems := sortedUnits trip route in
  assignSections (Js.ceilThird (length allItems)) 0 allItems (emptySections truck).

Record Cursor := {
  currentX : Q;
  currentY : Q;
  currentZ : Q;
  layerHeight : Q;
  rowWidth : Q;
}.

(** The body of the loop over [section.items]. *)
Definition placeUnit (truck : TruckData) (section : TruckSection)
    (st : Cursor * list LoadPlanItem) (u : LoadUnit) : Cursor * list LoadPlanItem :=
  let '(c, loadPlan) := st in
  let item := unit_item u in
  let length := Js.orElse (item_length item) 30 in
  let width := Js.orElse (item_width item) 30 in
  let height := Js.orElse (item_height item) 30 in
  let c1 :=
    if Js.gt (currentX c + length) (truck_width truck)
    then {| currentX := 0; currentY := currentY c + rowWidth c; currentZ := currentZ c;
            layerHeight := layerHeight c; rowWidth := 0 |}
    else c in
  let c2 :=
    if Js.gt (currentY c1 + width) (section_endY section)
    then {| currentX := 0; currentY := section_startY section;
            currentZ := currentZ c1 + layerHeight c1; layerHeight := 0; rowWidth := 0 |}
    else c1 in
  if Js.gt (currentZ c2 + height) (truck_height truck) then (c2, loadPlan)
  else
    ({| currentX := currentX c2 + length; currentY := currentY c2;
        currentZ := currentZ c2;
        layerHeight := Qmax (layerHeight c2) height;
        rowWidth := Qmax (rowWidth c2) width |},
     loadPlan ++
       [ {| lp_orderItemId := item_id item;
            lp_orderId := unit_orderId u;
            lp_name := item_name item;
            lp_x := currentX c2; lp_y := currentY c2; lp_z := currentZ c2;
            lp_rotatedLength := length; lp_rotatedWidth := width; lp_height := height;
            lp_weight := Js.orElse (item_weight item) 5;
            lp_rotation := 0;
            lp_placement := section_name section |} ]).

Definition packSection (truck : TruckData) (loadPlan : list LoadPlanItem)
    (section : TruckSection) : list LoadPlanItem :=
  let start :=
    {| currentX := 0; currentY := section_startY section; currentZ := 0;
       layerHeight := 0; rowWidth := 0 |} in
  snd (fold_left (placeUnit truck section)
         (Js.sort byWeightDesc (section_items section)) (start, loadPlan)).

Definition generateLoadPlan (trip : TruckTrip) (route : list RouteStop)
    (truck : TruckData) : list LoadPlanItem :=
  fold_left (packSection truck) (sectionsOf trip route truck) [].

(** *** [autoOptimize]: building [OrderData] and reporting *)

(** Singapore postal district to zone mapping. *)
Definition ZONE_MAPPING : gmap string string :=
  list_to_map
    (map (fun k => (k, "Central"))
       ["01"; "02"; "03"; "04"; "05"; "06"; "07"; "08";
        "14"; "15"; "16"; "17"; "18"; "19"; "20"; "21"] ++
     map (fun k => (k, "East"))
       ["38"; "39"; "40"; "41"; "42"; "43"; "44"; "45"; "46"; "47";
        "48"; "49"; "50"; "51"; "52"] ++
     map (fun k => (k, "North"))
       ["53"; "54"; "55"; "56"; "57"; "72"; "73"; "75"; "76"; "77";
        "78"; "79"; "80"; "81"; "82"] ++
     map (fun k => (k, "West"))
       ["22"; "23"; "58"; "59"; "60"; "61"; "62"; "63"; "64"; "65"; "66"; "67";
        "68"; "69"; "70"; "71"] ++
     map (fun k => (k, "South"))
       ["09"; "10"; "11"; "12"; "13"; "24"; "25"; "26"; "27"; "28";
        "29"; "30"; "31"; "32"; "33"; "34"; "35"; "36"; "37"]).

Definition getZoneFromZipcode (zipcode : string) : string :=
  let sector := String.substring 0 2 (Js.padStart6 zipcode) in
  default "Central" (ZONE_MAPPING !! sector).

(** A row of [orders] as [autoOptimize] reads it. *)
Record OrderRow := {
  row_id : Z;
  row_orderNumber : string;
  row_zipcode : string;
  row_deliveryZone : option string;
  row_latitude : option Q;
  row_longitude : option Q;
  row_helpersRequired : option Helpers;
}.

(** A row of [orderItems] joined with [skus]; the decimal columns are
    nullable. *)
Record ItemRow := {
  irow_id : Z;
  irow_orderId : Z;
  irow_skuId : Z;
  irow_quantity : nat;
  irow_name : string;
  irow_length : option Q;
  irow_width : option Q;
  irow_height : option Q;
  irow_weight : option Q;
}.

Definition qty (n : nat) : Q := inject_Z (Z.of_nat n).

(** The [OrderData] literal built in [autoOptimize].  An order without item
    lines gets the totals 0 and the dimensions [-Infinity]. *)
Definition buildOrderData (order : OrderRow) (items : list ItemRow) : OrderData :=
  let totalWeight :=
    fold_left (fun sum item => sum + Js.numOr (irow_weight item) 5 * qty (irow_quantity item))
      items 0 in
  let totalVolume :=
    fold_left
      (fun sum item =>
         let vol := Js.numOr (irow_length item) 30 * Js.numOr (irow_width item) 30
                    * Js.numOr (irow_height item) 30 in
         sum + vol * qty (irow_quantity item)) items 0 in
  let maxLength := Js.maxOf (map (fun i => Js.numOr (irow_length i) 30) items) in
  let maxWidth := Js.maxOf (map (fun i => Js.numOr (irow_width i) 30) items) in
  let maxHeight := Js.maxOf (map (fun i => Js.numOr (irow_height i) 30) items) in
  let zipcode := Js.padStart6 (row_zipcode order) in
  {| order_id := row_id order;
     order_orderNumber := row_orderNumber order;
     order_zipcode := row_zipcode order;
     order_zone :=
       match row_deliveryZone order with
       | Some z => if String.eqb z "" then getZoneFromZipcode zipcode else z
       | None => getZoneFromZipcode zipcode
       end;
     order_sector := String.substring 0 2 zipcode;
     order_latitude := row_latitude order;
     order_longitude := row_longitude order;
     order_helpersRequired := default none (row_helpersRequired order);
     order_totalWeight := totalWeight;
     order_totalVolume := totalVolume;
     order_maxLength := maxLength;
     order_maxWidth := maxWidth;
     order_maxHeight := maxHeight;
     order_needsTwoPeople := Js.gt totalWeight 50;
     order_items :=
       map (fun item =>
              {| item_id := irow_id item;
                 item_orderId := irow_orderId item;
                 item_skuId := irow_skuId item;
                 item_quantity := irow_quantity item;
                 item_name := irow_name item;
                 item_length := Js.numOr (irow_length item) 30;
                 item_width := Js.numOr (irow_width item) 30;
                 item_height := Js.numOr (irow_height item) 30;
                 item_weight := Js.numOr (irow_weight item) 5 |}) items |}.

(** An entry of [unassignedOrders] in the answer of [autoOptimize]. *)
Record UnassignedReport := {
  ur_id : Z;
  ur_orderNumber : string;
  ur_zone : string;
  ur_volumeM3 : Q;
  ur_weightKg : Q;
  ur_reason : string;
}.

Definition reportUnassigned (o : OrderData) : UnassignedReport :=
  {| ur_id := order_id o;
     ur_orderNumber := order_orderNumber o;
     ur_zone := order_zone o;
     ur_volumeM3 := inject_Z (Js.round (order_totalVolume o / 1000000 * 1000)) / 1000;
     ur_weightKg := inject_Z (Js.round (order_totalWeight o * 100)) / 100;
     ur_reason := "No available truck with capacity" |}.

End GlobalV3.

(** ** The single-truck packer ([packItems]) *)
Module Packing.

Record Item := {
  it_id : Z;
  it_orderItemId : Z;
  it_orderId : Z;
  it_name : string;
  it_length : Q;
  it_width : Q;
  it_height : Q;
  it_weight : Q;
  it_volume : Q;
}.

(** [PackedItem extends Item]. *)
Record PackedItem := {
  p_item : Item;
  p_x : Q;
  p_y : Q;
  p_z : Q;
  p_rotation : Z;
  p_rotatedLength : Q;
  p_rotatedWidth : Q;
}.

(** The fields of [Bin] that [packItems] reads. *)
Record Bin := {
  bin_width : Q;
  bin_depth : Q;
  bin_height : Q;
  bin_maxWeight : Q;
}.

(** An entry of [spaces]. *)
Record Space := {
  sp_x : Q;
  sp_y : Q;
  sp_z : Q;
  sp_w : Q;
  sp_d : Q;
  sp_h : Q;
}.

(** An entry of [rotations]. *)
Record Rotation := {
  rot_rotation : Z;
  rot_length : Q;
  rot_width : Q;
}.

Definition rotations (item : Item) : list Rotation :=
  [ {| rot_rotation := 0; rot_length := it_length item; rot_width := it_width item |};
    {| rot_rotation := 90; rot_length := it_width item; rot_width := it_length item |} ].

(** [(a, b) => b.volume - a.volume]. *)
Definition byVolumeDesc (a b : Item) : bool :=
  Qle_bool (it_volume b - it_volume a) 0.

(** "Check if item fits in this space". *)
Definition fits (rot : Rotation) (item : Item) (space : Space) : bool :=
  Qle_bool (rot_length rot) (sp_w space) &&
  Qle_bool (rot_width rot) (sp_d space) &&
  Qle_bool (it_height item) (sp_h space).

(** The test that replaces [bestSpace] by [space] once a best space exists. *)
Definition lower (space bestSpace : Space) : bool :=
  Js.lt (sp_z space) (sp_z bestSpace)
  || (Qeq_bool (sp_z space) (sp_z bestSpace) && Js.lt (sp_y space) (sp_y bestSpace))
  || (Qeq_bool (sp_z space) (sp_z bestSpace) && Qeq_bool (sp_y space) (sp_y bestSpace)
      && Js.lt (sp_x space) (sp_x bestSpace)).

(** The scan [for (let i = 0; i < spaces.length; i++)], from index [i] on. *)
Fixpoint findBestSpace (rot : Rotation) (item : Item) (spaces : list Space) (i : nat)
    (best : option (nat * Space)) : option (nat * Space) :=
  match spaces with
  | [] => best
  | space :: rest =>
      let best' :=
        if fits rot item space then
          match best with
          | None => Some (i, space)
          | Some (_, bestSpace) => if lower space bestSpace then Some (i, space) else best
          end
        else best in
      findBestSpace rot item rest (S i) best'
  end.

(** "Remove used space and create new spaces". *)
Definition splitSpace (rot : Rotation) (item : Item) (bestSpaceIndex : nat)
    (bestSpace : Space) (spaces : list Space) : list Space :=
  delete bestSpaceIndex spaces
  ++ (if Js.gt (sp_w bestSpace - rot_length rot) 0
      then [ {| sp_x := sp_x bestSpace + rot_length rot; sp_y := sp_y bestSpace;
                sp_z := sp_z bestSpace; sp_w := sp_w bestSpace - rot_length rot;
                sp_d := sp_d bestSpace; sp_h := sp_h bestSpace |} ]
      else [])
  ++ (if Js.gt (sp_d bestSpace - rot_width rot) 0
      then [ {| sp_x := sp_x bestSpace; sp_y := sp_y bestSpace + rot_width rot;
                sp_z := sp_z bestSpace; sp_w := rot_length rot;
                sp_d := sp_d bestSpace - rot_width rot; sp_h := sp_h bestSpace |} ]
      else [])
  ++ (if Js.gt (sp_h bestSpace - it_height item) 0
      then [ {| sp_x := sp_x bestSpace; sp_y := sp_y bestSpace;
                sp_z := sp_z bestSpace + it_height item; sp_w := rot_length rot;
                sp_d := rot_width rot; sp_h := sp_h bestSpace - it_height item |} ]
      else []).

(** The variables the main loop updates. *)
Record PackState := {
  spaces : list Space;
  packedItems : list PackedItem;
  unpackedItems : list Item;
  totalWeight : Q;
  totalVolume : Q;
}.

Definition initState (bin : Bin) : PackState :=
  {| spaces := [ {| sp_x := 0; sp_y := 0; sp_z := 0; sp_w := bin_width bin;
                    sp_d := bin_depth bin; sp_h := bin_height bin |} ];
     packedItems := [];
     unpackedItems := [];
     totalWeight := 0;
     totalVolume := 0 |}.

Definition place (rot : Rotation) (item : Item) (bestSpaceIndex : nat)
    (bestSpace : Space) (st : PackState) : PackState :=
  {| spaces := splitSpace rot item bestSpaceIndex bestSpace (spaces st);
     packedItems :=
       packedItems st ++
         [ {| p_item := item;
              p_x := sp_x bestSpace; p_y := sp_y bestSpace; p_z := sp_z bestSpace;
              p_rotation := rot_rotation rot;
              p_rotatedLength := rot_length rot;
              p_rotatedWidth := rot_width rot |} ];
     unpackedItems := unpackedItems st;
     totalWeight := totalWeight st + it_weight item;
     totalVolume := totalVolume st + it_volume item |}.

(** [for (const rot of rotations)], with the flag [placed]. *)
Fixpoint tryRotations (item : Item) (rots : list Rotation) (st : PackState)
    (placed : bool) : PackState * bool :=
  match rots with
  | [] => (st, placed)
  | rot :: rest =>
      if placed then (st, placed)
      else
        match findBestSpace rot item (spaces st) 0 None with
        | Some (i, bestSpace) => tryRotations item rest (place rot item i bestSpace st) true
        | None => tryRotations item rest st placed
        end
  end.

Definition reject (item : Item) (st : PackState) : PackState :=
  {| spaces := spaces st;
     packedItems := packedItems st;
     unpackedItems := unpackedItems st ++ [item];
     totalWeight := totalWeight st;
     totalVolume := totalVolume st |}.

(** The body of [for (const item of sortedItems)]. *)
Definition packStep (bin : Bin) (st : PackState) (item : Item) : PackState :=
  if Js.gt (totalWeight st + it_weight item) (bin_maxWeight bin) then reject item st
  else
    let '(st', placed) := tryRotations item (rotations item) st false in
    if placed then st' else reject item st'.

Definition packLoop (bin : Bin) (items : list Item) : PackState :=
  fold_left (packStep bin) (Js.sort byVolumeDesc items) (initState bin).

(** The centre of one packed item. *)
Definition itemCenterX (item : PackedItem) : Q := p_x item + p_rotatedLength item / 2.
Definition itemCenterY (item : PackedItem) : Q := p_y item + p_rotatedWidth item / 2.
Definition itemCenterZ (item : PackedItem) : Q := p_z item + it_height (p_item item) / 2.

(** "Calculate center of gravity". *)
Definition centerOfGravityOf (packed : list PackedItem) (totalWeight : Q) : Q * Q * Q :=
  if Js.gt totalWeight 0 then
    let cogX := fold_left (fun c item => c + itemCenterX item * it_weight (p_item item)) packed 0 in
    let cogY := fold_left (fun c item => c + itemCenterY item * it_weight (p_item item)) packed 0 in
    let cogZ := fold_left (fun c item => c + itemCenterZ item * it_weight (p_item item)) packed 0 in
    (cogX / totalWeight, cogY / totalWeight, cogZ / totalWeight)
  else (0, 0, 0).

(** "Check if load is balanced": the half widths, the tolerances and the
    two differences are each rounded to a double, as the code computes
    them. *)
Definition isBalancedOf (bin : Bin) (cog : Q * Q * Q) : bool :=
  let '(cogX, cogY, _) := cog in
  let binCenterX := Js.double (bin_width bin / 2) in
  let binCenterY := Js.double (bin_depth bin / 2) in
  let toleranceX := Js.double (bin_width bin * Js.double_0_3) in
  let toleranceY := Js.double (bin_depth bin * Js.double_0_3) in
  Qle_bool (Qabs (Js.double (cogX - binCenterX))) toleranceX
  && Qle_bool (Qabs (Js.double (cogY - binCenterY))) toleranceY.

(** [OptimizationResult], without the two utilisation percentages. *)
Record OptimizationResult := {
  success : bool;
  res_packedItems : list PackedItem;
  res_unpackedItems : list Item;
  res_totalVolume : Q;
  res_usedVolume : Q;
  res_totalWeight : Q;
  centerOfGravity : Q * Q * Q;
  isBalanced : bool;
}.

Definition packItems (items : list Item) (bin : Bin) : OptimizationResult :=
  let st := packLoop bin items in
  let cog := centerOfGravityOf (packedItems st) (totalWeight st) in
  {| success := (length (unpackedItems st) =? 0)%nat;
     res_packedItems := packedItems st;
     res_unpackedItems := unpackedItems st;
     res_totalVolume := bin_width bin * bin_depth bin * bin_height bin;
     res_usedVolume := totalVolume st;
     res_totalWeight := totalWeight st;
     centerOfGravity := cog;
     isBalanced := isBalancedOf bin cog |}.

End Packing.

(** ** The single-trip planner ([assignOrdersToTrucks]) *)
Module GlobalV1.

Inductive Helpers := none | one | two.

(** [HELPER_OPTIONS[h].count]. *)
Definition helperCount (h : Helpers) : Z :=
  match h with
  | none => 0
  | one => 1
  | two => 2
  end%Z.

Definition isNone (h : Helpers) : bool :=
  match h with
  | none => true
  | _ => false
  end.

(** The fields of [OrderData] that the planner reads. *)
Record OrderData := {
  order_id : Z;
  order_zone : option string;
  order_helpersRequired : Helpers;
  order_totalWeight : Q;
  order_totalVolume : Q;
}.

Record TruckData := {
  truck_id : Z;
  truck_maxWeight : Q;
  truck_volume : Q;
}.

(** [TruckAssignment]; [route] and [loadPlan] start empty and are filled by
    later stages. *)
Record TruckAssignment := {
  asg_truck : TruckData;
  asg_orders : list OrderData;
  asg_totalWeight : Q;
  asg_totalVolume : Q;
  asg_helpersNeeded : Z;
}.

(** [order.zone || "Central"]. *)
Definition zoneOrCentral (o : OrderData) : string :=
  match order_zone o with
  | Some z => if String.eqb z "" then "Central" else z
  | None => "Central"
  end.

(** [a.zone === b.zone] on nullable strings. *)
Definition sameZoneField (a b : option string) : bool :=
  match a, b with
  | Some x, Some y => String.eqb x y
  | None, None => true
  | _, _ => false
  end.

Fixpoint pushZone (zone : string) (order : OrderData)
    (m : list (string * list OrderData)) : list (string * list OrderData) :=
  match m with
  | [] => [(zone, [order])]
  | (z, os) :: m' =>
      if String.eqb z zone then (z, os ++ [order]) :: m'
      else (z, os) :: pushZone zone order m'
  end.

Definition groupByZone (orders : list OrderData) : list (string * list OrderData) :=
  fold_left (fun m o => pushZone (zoneOrCentral o) o m) orders [].

Fixpoint assocGet (m : list (string * list OrderData)) (zone : string)
    : list OrderData :=
  match m with
  | [] => []
  | (z, v) :: m' => if String.eqb z zone then v else assocGet m' zone
  end.

(** [(a, b) => b.totalWeight - a.totalWeight]. *)
Definition byWeightDesc (a b : OrderData) : bool :=
  Qle_bool (order_totalWeight b - order_totalWeight a) 0.

(** [(a, b) => b.volume - a.volume]. *)
Definition byCapacityDesc (a b : TruckData) : bool :=
  Qle_bool (truck_volume b - truck_volume a) 0.

(** The variables the planner updates. *)
Record PlanState := {
  assignments : list TruckAssignment;
  availableTrucks : list TruckData;
  remainingHelpers : Z;
}.

(** "First try to add to existing assignment in same zone": the index of
    [bestAssignment]. *)
Fixpoint findAssignment (order : OrderData) (asgs : list TruckAssignment) (i : nat)
    : option nat :=
  match asgs with
  | [] => None
  | a :: rest =>
      if negb (existsb (fun o => sameZoneField (order_zone o) (order_zone order))
                 (asg_orders a))
      then findAssignment order rest (S i)
      else
        let newWeight := asg_totalWeight a + order_totalWeight order in
        let newVolume := asg_totalVolume a + order_totalVolume order in
        if Qle_bool newWeight (truck_maxWeight (asg_truck a))
           && Qle_bool newVolume (truck_volume (asg_truck a))
        then Some i
        else findAssignment order rest (S i)
  end.

Definition addToAssignment (a : TruckAssignment) (order : OrderData) (helpersNeeded : Z)
    : TruckAssignment :=
  {| asg_truck := asg_truck a;
     asg_orders := asg_orders a ++ [order];
     asg_totalWeight := asg_totalWeight a + order_totalWeight order;
     asg_totalVolume := asg_totalVolume a + order_totalVolume order;
     asg_helpersNeeded := Z.max (asg_helpersNeeded a) helpersNeeded |}.

(** "Find available truck with enough capacity". *)
Definition findTruck (order : OrderData) (trucks : list TruckData) : option TruckData :=
  List.find
    (fun truck =>
       Qle_bool (order_totalWeight order) (truck_maxWeight truck)
       && Qle_bool (order_totalVolume order) (truck_volume truck)) trucks.

(** [findIndex(t => t.id === bestTruck.id)] followed by [splice(index, 1)]. *)
Fixpoint removeTruck (id : Z) (trucks : list TruckData) : list TruckData :=
  match trucks with
  | [] => []
  | t :: rest => if (truck_id t =? id)%Z then rest else t :: removeTruck id rest
  end.

(** The body of [for (const order of zoneOrders)]. *)
Definition assignOrder (st : PlanState) (order : OrderData) : PlanState :=
  let helpersNeeded := helperCount (order_helpersRequired order) in
  if (remainingHelpers st <? helpersNeeded)%Z && negb (isNone (order_helpersRequired order))
  then st
  else
    match findAssignment order (assignments st) 0 with
    | Some i =>
        {| assignments :=
             match assignments st !! i with
             | Some a => <[i := addToAssignment a order helpersNeeded]> (assignments st)
             | None => assignments st
             end;
           availableTrucks := availableTrucks st;
           remainingHelpers := remainingHelpers st |}
    | None =>
        match findTruck order (availableTrucks st) with
        | Some bestTruck =>
            {| assignments :=
                 assignments st ++
                   [ {| asg_truck := bestTruck;
                        asg_orders := [order];
                        asg_totalWeight := order_totalWeight order;
                        asg_totalVolume := order_totalVolume order;
                        asg_helpersNeeded := helpersNeeded |} ];
               availableTrucks := removeTruck (truck_id bestTruck) (availableTrucks st);
               remainingHelpers := (remainingHelpers st - helpersNeeded)%Z |}
        | None => st
        end
    end.

Section Planner.

(** The zone names of [ZONES] in ascending great-circle distance from the
    depot.  The source computes the distances with floating-point
    trigonometry; the planner is parametric in the resulting order. *)
Variable zoneDistances : list string.

Definition assignZone (ordersByZone : list (string * list OrderData))
    (st : PlanState) (zone : string) : PlanState :=
  let zoneOrders := Js.sort byWeightDesc (assocGet ordersByZone zone) in
  fold_left assignOrder zoneOrders st.

Definition assignOrdersToTrucks (orders : list OrderData) (trucks : list TruckData)
    (availableHelpers : Z) : list TruckAssignment :=
  let ordersByZone := groupByZone orders in
  assignments
    (fold_left (assignZone ordersByZone) zoneDistances
       {| assignments := [];
          availableTrucks := Js.sort byCapacityDesc trucks;
          remainingHelpers := availableHelpers |}).

End Planner.

(** The order the Haversine distances of the five zone centres from the Tuas
    depot give: 7.6, 20.6, 20.8, 23.5 and 33.6 km. *)
Definition zoneDistancesSG : list string :=
  ["West"; "North"; "South"; "Central"; "East"].

(** The helpers the planner's answer asks for: one crew per truck. *)
Definition helpersOfTrucks (asgs : list TruckAssignment) : Z :=
  fold_left (fun sum a => (sum + asg_helpersNeeded a)%Z) asgs 0%Z.

(** The helpers all assigned orders ask for, counted per order. *)
Definition helpersOfOrders (asgs : list TruckAssignment) : Z :=
  fold_left
    (fun sum a =>
       fold_left (fun s o => (s + helperCount (order_helpersRequired o))%Z)
         (asg_orders a) sum) asgs 0%Z.

End GlobalV1.

(** ** Concrete inputs used by the examples below *)
Module Fixtures.

Definition truckOf (id : Z) (w d h maxWeight : Q) : GlobalV3.TruckData :=
  {| GlobalV3.truck_id := id; GlobalV3.truck_name := "Truck";
     GlobalV3.truck_width := w; GlobalV3.truck_depth := d; GlobalV3.truck_height := h;
     GlobalV3.truck_maxWeight := maxWeight; GlobalV3.truck_volume := w * d * h |}.

Definition orderOf (id : Z) (zone : string) (helpers : GlobalV3.Helpers)
    (weight volume l w h : Q) (heavy : bool) (items : list GlobalV3.ItemData)
    : GlobalV3.OrderData :=
  {| GlobalV3.order_id := id; GlobalV3.order_orderNumber := "ORD";
     GlobalV3.order_zipcode := "639405"; GlobalV3.order_zone := zone;
     GlobalV3.order_sector := "63";
     GlobalV3.order_latitude := None; GlobalV3.order_longitude := None;
     GlobalV3.order_helpersRequired := helpers;
     GlobalV3.order_totalWeight := weight; GlobalV3.order_totalVolume := volume;
     GlobalV3.order_maxLength := Js.Fin l; GlobalV3.order_maxWidth := Js.Fin w;
     GlobalV3.order_maxHeight := Js.Fin h;
     GlobalV3.order_needsTwoPeople := heavy; GlobalV3.order_items := items |}.

(** A 100 x 100 x 100 truck and two orders: one 150 long, one small. *)
Definition cubeTruck : GlobalV3.TruckData := truckOf 1 100 100 100 1000.
Definition longOrder : GlobalV3.OrderData :=
  orderOf 1 "West" GlobalV3.none 10 1000 150 10 10 false [].
Definition smallOrder : GlobalV3.OrderData :=
  orderOf 2 "East" GlobalV3.none 10 1000 10 10 10 false [].

(** A light order (10 kg) whose row asks for two helpers. *)
Definition twoHelperRow : GlobalV3.OrderRow :=
  {| GlobalV3.row_id := 7; GlobalV3.row_orderNumber := "ORD-7";
     GlobalV3.row_zipcode := "639405"; GlobalV3.row_deliveryZone := Some "West";
     GlobalV3.row_latitude := None; GlobalV3.row_longitude := None;
     GlobalV3.row_helpersRequired := Some GlobalV3.two |}.
Definition lightItemRow : GlobalV3.ItemRow :=
  {| GlobalV3.irow_id := 70; GlobalV3.irow_orderId := 7; GlobalV3.irow_skuId := 3;
     GlobalV3.irow_quantity := 1; GlobalV3.irow_name := "Lamp";
     GlobalV3.irow_length := Some 40; GlobalV3.irow_width := Some 30;
     GlobalV3.irow_height := Some 20; GlobalV3.irow_weight := Some 10 |}.

Definition itemOf (id : Z) (l w h weight : Q) : Packing.Item :=
  {| Packing.it_id := id; Packing.it_orderItemId := id; Packing.it_orderId := 1;
     Packing.it_name := "Box"; Packing.it_length := l; Packing.it_width := w;
     Packing.it_height := h; Packing.it_weight := weight;
     Packing.it_volume := l * w * h |}.

Definition binOf (w d h maxWeight : Q) : Packing.Bin :=
  {| Packing.bin_width := w; Packing.bin_depth := d; Packing.bin_height := h;
     Packing.bin_maxWeight := maxWeight |}.

(** The bins and item lists of the packing tests. *)
Definition lightBin : Packing.Bin := binOf 200 400 200 25.
Definition threeTens : list Packing.Item :=
  [itemOf 1 50 50 50 10; itemOf 2 50 50 50 10; itemOf 3 50 50 50 10].
Definition bigBin : Packing.Bin := binOf 200 400 200 1000.
Definition v1Order (id : Z) (zone : string) (helpers : GlobalV1.Helpers)
    (weight volume : Q) : GlobalV1.OrderData :=
  {| GlobalV1.order_id := id; GlobalV1.order_zone := Some zone;
     GlobalV1.order_helpersRequired := helpers;
     GlobalV1.order_totalWeight := weight; GlobalV1.order_totalVolume := volume |}.

Definition v1Truck (id : Z) (maxWeight volume : Q) : GlobalV1.TruckData :=
  {| GlobalV1.truck_id := id; GlobalV1.truck_maxWeight := maxWeight;
     GlobalV1.truck_volume := volume |}.

(** Two helpers on duty; three West orders, the last two asking for two
    helpers each; two trucks of 50 kg. *)
Definition helperOrders : list GlobalV1.OrderData :=
  [v1Order 1 "West" GlobalV1.none 30 10; v1Order 2 "West" GlobalV1.two 20 10;
   v1Order 3 "West" GlobalV1.two 10 10].
Definition helperTrucks : list GlobalV1.TruckData :=
  [v1Truck 1 50 1000; v1Truck 2 50 500].

(** One order with a single unit, delivered at the first and only stop. *)
Definition lampItem : GlobalV3.ItemData :=
  {| GlobalV3.item_id := 70; GlobalV3.item_orderId := 7; GlobalV3.item_skuId := 3;
     GlobalV3.item_quantity := 1; GlobalV3.item_name := "Lamp";
     GlobalV3.item_length := 40; GlobalV3.item_width := 30;
     GlobalV3.item_height := 20; GlobalV3.item_weight := 10 |}.
Definition lampOrder : GlobalV3.OrderData :=
  orderOf 7 "West" GlobalV3.none 10 24000 40 30 20 false [lampItem].
Definition lampTrip : GlobalV3.TruckTrip :=
  GlobalV3.loadOrderIntoTrip (GlobalV3.newTrip 1 cubeTruck) lampOrder.
Definition lampRoute : list GlobalV3.RouteStop :=
  [ {| GlobalV3.stop_orderId := 7; GlobalV3.stop_sequence := 1 |} ].

(** One order of three identical units, delivered at the only stop. *)
Definition tripleOrder : GlobalV3.OrderData :=
  orderOf 7 "West" GlobalV3.none 30 72000 40 30 20 false
    [ {| GlobalV3.item_id := 70; GlobalV3.item_orderId := 7; GlobalV3.item_skuId := 3;
         GlobalV3.item_quantity := 3; GlobalV3.item_name := "Lamp";
         GlobalV3.item_length := 40; GlobalV3.item_width := 30;
         GlobalV3.item_height := 20; GlobalV3.item_weight := 10 |} ].
Definition tripleTrip : GlobalV3.TruckTrip :=
  GlobalV3.loadOrderIntoTrip (GlobalV3.newTrip 1 cubeTruck) tripleOrder.

(** Two stops with two units each: order 7 first, order 8 second. *)
Definition pairItem (id orderId : Z) : GlobalV3.ItemData :=
  {| GlobalV3.item_id := id; GlobalV3.item_orderId := orderId; GlobalV3.item_skuId := 3;
     GlobalV3.item_quantity := 2; GlobalV3.item_name := "Chair";
     GlobalV3.item_length := 20; GlobalV3.item_width := 20;
     GlobalV3.item_height := 20; GlobalV3.item_weight := 4 |}.
Definition pairOrder (id : Z) : GlobalV3.OrderData :=
  orderOf id "West" GlobalV3.none 8 16000 20 20 20 false [pairItem (id * 10) id].
Definition pairTrip : GlobalV3.TruckTrip :=
  GlobalV3.loadOrderIntoTrip
    (GlobalV3.loadOrderIntoTrip (GlobalV3.newTrip 1 cubeTruck) (pairOrder 7)) (pairOrder 8).
Definition pairRoute : list GlobalV3.RouteStop :=
  [ {| GlobalV3.stop_orderId := 7; GlobalV3.stop_sequence := 1 |};
    {| GlobalV3.stop_orderId := 8; GlobalV3.stop_sequence := 2 |} ].

(** A truck whose width was imported as -10: its volume is -1000. *)
Definition negativeTruck : GlobalV3.TruckData := truckOf 1 (-10 # 1) 10 10 1000.

(** A bin whose weight limit was imported as -1. *)
Definition negativeBin : Packing.Bin := binOf 200 400 200 (-1 # 1).



End Fixtures.

(** ** The properties in the words of the specification *)
Module Spec.
Import GlobalV3.

(** The sum over a truck's trips of the trip elapsed time, return leg
    included. *)
Definition tripTimesTotal (trips : list TruckTrip) : Z :=
  foldr Z.add 0%Z (map (fun t => getTripRouteTime t true) trips).

(** What a run does to the truck store: it loads an order into the current
    trip of a truck once [canFitInTrip] has accepted it, or it opens a new
    trip on a truck.  The label is the list of orders the step loads. *)
Inductive storeStep : Store -> list OrderData -> Store -> Prop :=
| step_load (store : Store) (i : nat) (tw : TruckWithTrips) (trip : TruckTrip)
    (order : OrderData) :
    store !! i = Some tw ->
    currentTrip tw = Some trip ->
    canFitInTrip trip order = true ->
    storeStep store [order]
      (<[i := withTrips tw
               (<[(length (tw_trips tw) - 1)%nat := loadOrderIntoTrip trip order]>
                  (tw_trips tw))]> store)
| step_open (store : Store) (i : nat) (tw : TruckWithTrips) :
    store !! i = Some tw ->
    storeStep store []
      (<[i := withTrips tw
               (tw_trips tw ++ [newTrip (length (tw_trips tw) + 1) (tw_truck tw)])]> store).

Inductive storeSteps : Store -> list OrderData -> Store -> Prop :=
| steps_done (store : Store) : storeSteps store [] store
| steps_next (store1 store2 store3 : Store) (l1 l2 : list OrderData) :
    storeStep store1 l1 store2 ->
    storeSteps store2 l2 store3 ->
    storeSteps store1 (l1 ++ l2) store3.

(** Every truck of the store has at least one trip. *)
Definition storeWf (store : Store) : Prop :=
  Forall (fun tw => tw_trips tw <> []) store.

(** The orders loaded on the trucks of a store, trip by trip. *)
Definition loadedOf (store : Store) : list OrderData :=
  flat_map (fun tw => flat_map trip_loadedOrders (tw_trips tw)) store.

(** What packing [orders] from state [st] may end in: some of them loaded by
    store steps, the others appended to the unassigned list. *)
Definition outcome (st : PackState) (orders : list OrderData) (st' : PackState) : Prop :=
  exists loaded rejected,
    storeSteps (fst st) loaded (fst st')
    /\ snd st' = snd st ++ rejected
    /\ loaded ++ rejected ≡ₚ orders.

(** The trip invariant of the data model. *)
Definition tripWithinCapacity (trip : TruckTrip) : Prop :=
  trip_currentVolume trip
  = fold_left (fun sum o => sum + order_totalVolume o) (trip_loadedOrders trip) 0
  /\ trip_currentWeight trip
    = fold_left (fun sum o => sum + order_totalWeight o) (trip_loadedOrders trip) 0
  /\ trip_currentVolume trip <= trip_maxVolume trip
  /\ trip_currentWeight trip <= trip_maxWeight trip.

(** The same for a trip of any truck: the bounds are those of a trip that
    carries at least one order. *)
Definition tripWithinCapacityIfLoaded (trip : TruckTrip) : Prop :=
  trip_currentVolume trip
  = fold_left (fun sum o => sum + order_totalVolume o) (trip_loadedOrders trip) 0
  /\ trip_currentWeight trip
    = fold_left (fun sum o => sum + order_totalWeight o) (trip_loadedOrders trip) 0
  /\ (trip_loadedOrders trip <> [] ->
      trip_currentVolume trip <= trip_maxVolume trip
      /\ trip_currentWeight trip <= trip_maxWeight trip).

(** A truck as the fleet screens accept it: capacities are not negative. *)
Definition truckWellFormed (truck : TruckData) : Prop :=
  0 <= truck_volume truck /\ 0 <= truck_maxWeight truck.

(** The truck referenced by [i] can take [order] in its current trip. *)
Definition fitsAt (store : Store) (order : OrderData) (i : nat) : Prop :=
  exists tw trip,
    store !! i = Some tw /\ currentTrip tw = Some trip
    /\ canFitInTrip trip order = true.

(** A pack state over [n] trucks, each with a trip to load into. *)
Definition stateOk (n : nat) (st : PackState) : Prop :=
  length (fst st) = n /\ storeWf (fst st).

(** The references kept in [zoneTruckMap] point into a store of [n] trucks. *)
Definition refsInStore (n : nat) (zoneTruckMap : gmap string (list nat)) : Prop :=
  forall z refs, zoneTruckMap !! z = Some refs -> Forall (fun i => (i < n)%nat) refs.

(** Every truck of the store is well formed and every trip of it respects
    the trip invariant. *)
Definition storeWithinCapacity (store : Store) : Prop :=
  Forall (fun tw => truckWellFormed (tw_truck tw)
                    /\ Forall tripWithinCapacity (tw_trips tw)) store.

(** Every trip of the store that carries an order respects the trip
    invariant. *)
Definition storeLoadedWithinCapacity (store : Store) : Prop :=
  Forall (fun tw => Forall tripWithinCapacityIfLoaded (tw_trips tw)) store.

(** The per-stop service time as the specification words it: 15 minutes
    for an order over 50 kg or one that asks for two helpers, else 10. *)
Definition claimedServiceTime (order : OrderData) : Z :=
  if Js.gt (order_totalWeight order) 50
     || match order_helpersRequired order with two => true | _ => false end
  then 15%Z else 10%Z.

(** The three sections of a truck holding the given unit lists. *)
Definition sectionsWith (truck : TruckData) (b m f : list LoadUnit) : list TruckSection :=
  [ {| section_name := back; section_startY := 0;
       section_endY := truck_depth truck / 3; section_items := b |};
    {| section_name := middle; section_startY := truck_depth truck / 3;
       section_endY := truck_depth truck / 3 * 2; section_items := m |};
    {| section_name := front; section_startY := truck_depth truck / 3 * 2;
       section_endY := truck_depth truck; section_items := f |} ].

(** A load-plan entry stems from a unit of the section it is labelled with. *)
Definition fromSection (sections : list TruckSection) (entry : LoadPlanItem) : Prop :=
  exists s u,
    s ∈ sections /\ u ∈ section_items s
    /\ lp_placement entry = section_name s
    /\ lp_orderItemId entry = item_id (unit_item u)
    /\ lp_orderId entry = unit_orderId u.

End Spec.

(** ** The packer in the words of the specification *)
Module PackingSpec.
Import Packing.

(** The sum of the weights of the packed items. *)
Definition packedWeight (packed : list PackedItem) : Q :=
  foldr (fun p sum => it_weight (p_item p) + sum) 0 packed.


(** The item, in the given rotation, is no larger than the free box. *)
Definition fitsIn (rot : Rotation) (item : Item) (space : Space) : Prop :=
  rot_length rot <= sp_w space /\ rot_width rot <= sp_d space
  /\ it_height item <= sp_h space.

(** [a] ranks before [b] by the tuple (z, then y, then x). *)
Definition lexLt (a b : Space) : Prop :=
  sp_z a < sp_z b
  \/ (sp_z a == sp_z b /\ sp_y a < sp_y b)
  \/ (sp_z a == sp_z b /\ sp_y a == sp_y b /\ sp_x a < sp_x b).

(** [a] ranks no later than [b] by the tuple (z, then y, then x). *)
Definition lexLe (a b : Space) : Prop :=
  lexLt a b \/ (sp_z a == sp_z b /\ sp_y a == sp_y b /\ sp_x a == sp_x b).

(** What is known about [best] once the boxes [seen] have been scanned. *)
Definition bestAmong (rot : Rotation) (item : Item) (seen : list Space)
    (best : option (nat * Space)) : Prop :=
  match best with
  | None => forall space, space ∈ seen -> ~ fitsIn rot item space
  | Some (i, b) =>
      seen !! i = Some b /\ fitsIn rot item b
      /\ forall space, space ∈ seen -> fitsIn rot item space -> lexLe b space
  end.

(** A remainder box is kept only when its remaining dimension is strictly
    positive. *)
Definition keepIfPositive (remaining : Q) (box : Space) : list Space :=
  if Qlt_le_dec 0 remaining then [box] else [].

(** The remainders of [space] around an item placed at its corner: to the
    +x side, to the +y side, and above. *)
Definition remainderBoxes (rot : Rotation) (item : Item) (space : Space) : list Space :=
  keepIfPositive (sp_w space - rot_length rot)
    {| sp_x := sp_x space + rot_length rot; sp_y := sp_y space; sp_z := sp_z space;
       sp_w := sp_w space - rot_length rot; sp_d := sp_d space; sp_h := sp_h space |}
  ++ keepIfPositive (sp_d space - rot_width rot)
       {| sp_x := sp_x space; sp_y := sp_y space + rot_width rot; sp_z := sp_z space;
          sp_w := rot_length rot; sp_d := sp_d space - rot_width rot;
          sp_h := sp_h space |}
  ++ keepIfPositive (sp_h space - it_height item)
       {| sp_x := sp_x space; sp_y := sp_y space; sp_z := sp_z space + it_height item;
          sp_w := rot_length rot; sp_d := rot_width rot;
          sp_h := sp_h space - it_height item |}.

(** The loop invariant of [packItems] on the running weight. *)
Definition weightOk (bin : Bin) (st : PackState) : Prop :=
  totalWeight st == packedWeight (packedItems st)
  /\ totalWeight st <= bin_maxWeight bin.

(** Every processed item is either packed or unpacked. *)
Definition accountsFor (st : PackState) (processed : list Item) : Prop :=
  map p_item (packedItems st) ++ unpackedItems st ≡ₚ processed.

(** The two orientations, in the order they are tried. *)
Definition rotation0 (item : Item) : Rotation :=
  {| rot_rotation := 0; rot_length := it_length item; rot_width := it_width item |}.
Definition rotation90 (item : Item) : Rotation :=
  {| rot_rotation := 90; rot_length := it_width item; rot_width := it_length item |}.

(** What [packItems] does with an item that passed the weight check: first
    fitting orientation, lowest fitting free box, else unpacked. *)
Definition placeOrReject (st : PackState) (item : Item) : PackState :=
  match findBestSpace (rotation0 item) item (spaces st) 0 None with
  | Some (i, space) => place (rotation0 item) item i space st
  | None =>
      match findBestSpace (rotation90 item) item (spaces st) 0 None with
      | Some (i, space) => place (rotation90 item) item i space st
      | None => reject item st
      end
  end.

(** The state once [item] is placed, in the rotation [rot], at the corner of
    the free box [space] found at index [i]: the box is removed, its
    remainders are added, and the item is recorded where the box began. *)
Definition placedAt (rot : Rotation) (item : Item) (i : nat) (space : Space)
    (st : PackState) : PackState :=
  {| spaces := delete i (spaces st) ++ remainderBoxes rot item space;
     packedItems :=
       packedItems st ++
         [ {| p_item := item;
              p_x := sp_x space; p_y := sp_y space; p_z := sp_z space;
              p_rotation := rot_rotation rot;
              p_rotatedLength := rot_length rot;
              p_rotatedWidth := rot_width rot |} ];
     unpackedItems := unpackedItems st;
     totalWeight := totalWeight st + it_weight item;
     totalVolume := totalVolume st + it_volume item |}.

(** One item, in the words of the specification: an item that would exceed
    the weight limit is unpacked; otherwise it is placed at 0 degrees in a
    fitting free box that is minimal by (z, y, x); if none fits at 0 degrees,
    the same at 90 degrees; if none fits either way, it is unpacked. *)
Inductive specStep (bin : Bin) (st : PackState) (item : Item) : PackState -> Prop :=
| spec_overweight :
    bin_maxWeight bin < totalWeight st + it_weight item ->
    specStep bin st item (reject item st)
| spec_place0 (i : nat) (space : Space) :
    totalWeight st + it_weight item <= bin_maxWeight bin ->
    bestAmong (rotation0 item) item (spaces st) (Some (i, space)) ->
    specStep bin st item (placedAt (rotation0 item) item i space st)
| spec_place90 (i : nat) (space : Space) :
    totalWeight st + it_weight item <= bin_maxWeight bin ->
    bestAmong (rotation0 item) item (spaces st) None ->
    bestAmong (rotation90 item) item (spaces st) (Some (i, space)) ->
    specStep bin st item (placedAt (rotation90 item) item i space st)
| spec_unpacked :
    totalWeight st + it_weight item <= bin_maxWeight bin ->
    bestAmong (rotation0 item) item (spaces st) None ->
    bestAmong (rotation90 item) item (spaces st) None ->
    specStep bin st item (reject item st).


(** The coordinates of the reported centre of gravity. *)
Definition cogX (r : OptimizationResult) : Q := fst (fst (centerOfGravity r)).
Definition cogY (r : OptimizationResult) : Q := snd (fst (centerOfGravity r)).
Definition cogZ (r : OptimizationResult) : Q := snd (centerOfGravity r).



End PackingSpec.

(** ** Stop sequence of a trip ([getOptimizedRoute]) *)
Module RouteV3.
Import GlobalV3.

(** [DEPOT] of [shared/logistics.ts]: Tuas. *)
Definition DEPOT_latitude : Q := Js.double (13187 # 10000).
Definition DEPOT_longitude : Q := Js.double (1036390 # 10000).

(** [ZONES]: approximate centre (latitude, longitude) of each zone. *)
Definition ZONES : gmap string (Q * Q) :=
  list_to_map
    [("North", (Js.double (14320 # 10000), Js.double (1037860 # 10000)));
     ("South", (Js.double (12700 # 10000), Js.double (1038200 # 10000)));
     ("East", (Js.double (13500 # 10000), Js.double (1039400 # 10000)));
     ("West", (Js.double (13500 # 10000), Js.double (1037000 # 10000)));
     ("Central", (Js.double (13000 # 10000), Js.double (1038500 # 10000)))].

(** The interface [RouteStop] with all its fields. *)
Record Stop := {
  rs_orderId : Z;
  rs_orderNumber : string;
  rs_sequence : nat;
  rs_zone : string;
  rs_zipcode : string;
  rs_sector : string;
  rs_latitude : Q;
  rs_longitude : Q;
  rs_weightKg : Q;
  rs_volumeM3 : Q;
  rs_needsTwoPeople : bool;
}.

(** [own || zoneValue || depot] on numbers, [zoneValue] being [undefined]
    for a zone that [ZONES] does not have. *)
Definition coordinate (own : option Q) (zoneValue : option Q) (depot : Q) : Q :=
  let fallback :=
    match zoneValue with
    | Some v => Js.orElse v depot
    | None => depot
    end in
  match own with
  | Some v => if Qeq_bool v 0 then fallback else v
  | None => fallback
  end.

(** The object pushed onto [route] for [order] at [stopNumber]. *)
Definition stopOf (stopNumber : nat) (order : OrderData) : Stop :=
  {| rs_orderId := order_id order;
     rs_orderNumber := order_orderNumber order;
     rs_sequence := stopNumber;
     rs_zone := order_zone order;
     rs_zipcode := order_zipcode order;
     rs_sector := order_sector order;
     rs_latitude :=
       coordinate (order_latitude order) (fst <$> ZONES !! order_zone order)
         DEPOT_latitude;
     rs_longitude :=
       coordinate (order_longitude order) (snd <$> ZONES !! order_zone order)
         DEPOT_longitude;
     rs_weightKg := inject_Z (Js.round (order_totalWeight order * 100)) / 100;
     rs_volumeM3 :=
       inject_Z (Js.round (order_totalVolume order / 1000000 * 1000)) / 1000;
     rs_needsTwoPeople := order_needsTwoPeople order |}.

(** [for (const order of orders) { route.push(...); stopNumber++ }]. *)
Fixpoint pushStops (orders : list OrderData) (st : list Stop * nat) : list Stop * nat :=
  match orders with
  | [] => st
  | order :: rest => pushStops rest (fst st ++ [stopOf (snd st) order], S (snd st))
  end.

Section Route.

(** [a.localeCompare(b)]: the collation of the host, a number that is
    negative, zero or positive. *)
Variable localeCompare : string -> string -> Z.

(** [(a, b) => a.sector.localeCompare(b.sector)]. *)
Definition bySector (a b : OrderData) : bool :=
  (localeCompare (order_sector a) (order_sector b) <=? 0)%Z.

(** The body of [for (const zone of zoneSequence)]. *)
Definition routeZone (zoneOrders : list (string * list OrderData))
    (st : list Stop * nat) (zone : string) : list Stop * nat :=
  pushStops (Js.sort bySector (default [] (assocGet zoneOrders zone))) st.

Definition getOptimizedRoute (trip : TruckTrip) : list Stop :=
  if (length (trip_loadedOrders trip) =? 0)%nat then []
  else
    let zoneOrders := groupByZone (trip_loadedOrders trip) in
    let zoneSequence := optimizeZoneOrder (trip_assignedZones trip) in
    fst (fold_left (routeZone zoneOrders) zoneSequence ([], 1%nat)).

(** What [generateLoadPlan] reads of a stop. *)
Definition toRouteStop (s : Stop) : RouteStop :=
  {| stop_orderId := rs_orderId s; stop_sequence := rs_sequence s |}.

(** [autoOptimize], per trip: the route and then the load plan built on
    it. *)
Definition tripLoadPlan (trip : TruckTrip) (truck : TruckData) : list LoadPlanItem :=
  generateLoadPlan trip (map toRouteStop (getOptimizedRoute trip)) truck.

(** The orders of a trip in the order [getOptimizedRoute] visits them. *)
Definition visitOrder (trip : TruckTrip) : list OrderData :=
  flat_map
    (fun zone =>
       Js.sort bySector (default [] (assocGet (groupByZone (trip_loadedOrders trip)) zone)))
    (optimizeZoneOrder (trip_assignedZones trip)).

End Route.

End RouteV3.

(** ** Delivery sequence of the single-truck run ([optimizeDeliverySequence]) *)
Module DeliverySequence.

Record SeqOrder := {
  so_id : Z;
  so_zone : option string;
  so_zipcode : string;
}.

Record SeqEntry := {
  se_id : Z;
  se_sequence : nat;
}.

Definition zoneOrder : list string := ["Central"; "East"; "North"; "West"; "South"].

(** [list.indexOf(z)], counting from [i]. *)
Fixpoint indexOf (z : string) (l : list string) (i : Z) : Z :=
  match l with
  | [] => (-1)%Z
  | x :: l' => if String.eqb x z then i else indexOf z l' (i + 1)%Z
  end.

(** [zoneOrder.indexOf(order.zone || "Central")]. *)
Definition zoneIndex (order : SeqOrder) : Z :=
  indexOf
    match so_zone order with
    | Some z => if String.eqb z "" then "Central" else z
    | None => "Central"
    end zoneOrder 0%Z.

Section Sequence.

(** [a.localeCompare(b)]: the collation of the host. *)
Variable localeCompare : string -> string -> Z.

(** The comparator handed to [sort]. *)
Definition compareOrders (a b : SeqOrder) : Z :=
  let zoneA := zoneIndex a in
  let zoneB := zoneIndex b in
  if negb (zoneA =? zoneB)%Z then (zoneA - zoneB)%Z
  else localeCompare (so_zipcode a) (so_zipcode b).

Definition sortedOrders (orders : list SeqOrder) : list SeqOrder :=
  Js.sort (fun a b => (compareOrders a b <=? 0)%Z) orders.

Definition optimizeDeliverySequence (orders : list SeqOrder) : list SeqEntry :=
  imap (fun index order => {| se_id := so_id order; se_sequence := (index + 1)%nat |})
    (sortedOrders orders).

End Sequence.

End DeliverySequence.

(** ** Further properties in words *)
Module CoverageSpec.

(** The box a packed item occupies. *)
Definition itemBox (p : Packing.PackedItem) : Packing.Space :=
  {| Packing.sp_x := Packing.p_x p; Packing.sp_y := Packing.p_y p;
     Packing.sp_z := Packing.p_z p;
     Packing.sp_w := Packing.p_rotatedLength p;
     Packing.sp_d := Packing.p_rotatedWidth p;
     Packing.sp_h := Packing.it_height (Packing.p_item p) |}.

(** The whole container as a box. *)
Definition binBox (bin : Packing.Bin) : Packing.Space :=
  {| Packing.sp_x := 0; Packing.sp_y := 0; Packing.sp_z := 0;
     Packing.sp_w := Packing.bin_width bin; Packing.sp_d := Packing.bin_depth bin;
     Packing.sp_h := Packing.bin_height bin |}.

(** [inner] lies inside [outer]. *)
Definition within (outer inner : Packing.Space) : Prop :=
  Packing.sp_x outer <= Packing.sp_x inner
  /\ Packing.sp_x inner + Packing.sp_w inner <= Packing.sp_x outer + Packing.sp_w outer
  /\ Packing.sp_y outer <= Packing.sp_y inner
  /\ Packing.sp_y inner + Packing.sp_d inner <= Packing.sp_y outer + Packing.sp_d outer
  /\ Packing.sp_z outer <= Packing.sp_z inner
  /\ Packing.sp_z inner + Packing.sp_h inner <= Packing.sp_z outer + Packing.sp_h outer.

(** Two boxes are separated along one of the three axes. *)
Definition apart (a b : Packing.Space) : Prop :=
  Packing.sp_x a + Packing.sp_w a <= Packing.sp_x b
  \/ Packing.sp_x b + Packing.sp_w b <= Packing.sp_x a
  \/ Packing.sp_y a + Packing.sp_d a <= Packing.sp_y b
  \/ Packing.sp_y b + Packing.sp_d b <= Packing.sp_y a
  \/ Packing.sp_z a + Packing.sp_h a <= Packing.sp_z b
  \/ Packing.sp_z b + Packing.sp_h b <= Packing.sp_z a.

(** No two boxes of the list overlap. *)
Fixpoint allApart (boxes : list Packing.Space) : Prop :=
  match boxes with
  | [] => True
  | b :: rest => Forall (apart b) rest /\ allApart rest
  end.

(** An item with no negative dimension. *)
Definition itemSized (item : Packing.Item) : Prop :=
  0 <= Packing.it_length item /\ 0 <= Packing.it_width item
  /\ 0 <= Packing.it_height item.

(** The geometric invariant of the packer: free boxes and packed items lie
    in the container and no two of them overlap. *)
Definition geometryOk (bin : Packing.Bin) (st : Packing.PackState) : Prop :=
  Forall (within (binBox bin)) (map itemBox (Packing.packedItems st) ++ Packing.spaces st)
  /\ allApart (map itemBox (Packing.packedItems st) ++ Packing.spaces st).

(** The sum of the volumes of the packed items. *)
Definition packedVolume (packed : list Packing.PackedItem) : Q :=
  foldr (fun p sum => Packing.it_volume (Packing.p_item p) + sum) 0 packed.

(** The volume a trip would have left after taking [order], for the truck
    referenced by [i]. *)
Definition residualAt (store : list GlobalV3.TruckWithTrips) (order : GlobalV3.OrderData)
    (i : nat) : option Q :=
  tw ← store !! i;
  trip ← GlobalV3.currentTrip tw;
  Some (GlobalV3.trip_maxVolume trip - GlobalV3.trip_currentVolume trip
        - GlobalV3.order_totalVolume order).

(** What the scan of [findBestTruck] knows after the references [seen]. *)
Definition bestFit (store : list GlobalV3.TruckWithTrips) (order : GlobalV3.OrderData)
    (seen : list nat) (best : option nat) : Prop :=
  match best with
  | None => forall i, i ∈ seen -> ~ Spec.fitsAt store order i
  | Some b =>
      b ∈ seen /\ Spec.fitsAt store order b
      /\ forall i r, i ∈ seen -> Spec.fitsAt store order i ->
                     residualAt store order i = Some r ->
                     exists rb, residualAt store order b = Some rb /\ rb <= r
  end.

(** A trip as [runOptimizationV3] keeps it for its truck: numbered, with the
    truck's identity and capacities. *)
Definition tripOfTruck (truck : GlobalV3.TruckData) (trip : GlobalV3.TruckTrip) : Prop :=
  GlobalV3.trip_truckId trip = GlobalV3.truck_id truck
  /\ GlobalV3.trip_maxVolume trip = GlobalV3.truck_volume truck
  /\ GlobalV3.trip_maxWeight trip = GlobalV3.truck_maxWeight truck
  /\ GlobalV3.trip_truckDims trip
     = (GlobalV3.truck_width truck, GlobalV3.truck_depth truck,
        GlobalV3.truck_height truck).

(** The zones of a trip's orders, each once, in order of first appearance. *)
Definition zonesOf (trip : GlobalV3.TruckTrip) : list string :=
  Js.dedup (map GlobalV3.order_zone (GlobalV3.trip_loadedOrders trip)) [].

(** The trips of every truck are numbered 1, 2, ... and carry the truck's
    identity and capacities; their zones are those of their orders. *)
Definition storeNumbered (store : list GlobalV3.TruckWithTrips) : Prop :=
  Forall
    (fun tw =>
       map GlobalV3.trip_tripId (GlobalV3.tw_trips tw)
       = seq 1 (length (GlobalV3.tw_trips tw))
       /\ Forall (tripOfTruck (GlobalV3.tw_truck tw)) (GlobalV3.tw_trips tw)
       /\ Forall (fun trip => GlobalV3.trip_assignedZones trip = zonesOf trip)
            (GlobalV3.tw_trips tw)) store.

(** The weight and volume an order's item lines add up to. *)
Definition itemsWeight (items : list GlobalV3.ItemData) : Q :=
  fold_left
    (fun sum i => sum + GlobalV3.item_weight i * GlobalV3.qty (GlobalV3.item_quantity i))
    items 0.
Definition itemsVolume (items : list GlobalV3.ItemData) : Q :=
  fold_left
    (fun sum i =>
       sum + GlobalV3.item_length i * GlobalV3.item_width i * GlobalV3.item_height i
             * GlobalV3.qty (GlobalV3.item_quantity i)) items 0.

(** An assignment of the single-trip planner within its truck's capacity,
    its totals being those of its orders, all of one zone. *)
Definition assignmentOk (a : GlobalV1.TruckAssignment) : Prop :=
  GlobalV1.asg_orders a <> []
  /\ GlobalV1.asg_totalWeight a
     == foldr (fun o sum => GlobalV1.order_totalWeight o + sum) 0 (GlobalV1.asg_orders a)
  /\ GlobalV1.asg_totalVolume a
     == foldr (fun o sum => GlobalV1.order_totalVolume o + sum) 0 (GlobalV1.asg_orders a)
  /\ GlobalV1.asg_totalWeight a <= GlobalV1.truck_maxWeight (GlobalV1.asg_truck a)
  /\ GlobalV1.asg_totalVolume a <= GlobalV1.truck_volume (GlobalV1.asg_truck a)
  /\ forall o o', o ∈ GlobalV1.asg_orders a -> o' ∈ GlobalV1.asg_orders a ->
                  GlobalV1.order_zone o = GlobalV1.order_zone o'.

(** The helpers asked for by the orders that opened a truck. *)
Definition openingHelpers (asgs : list GlobalV1.TruckAssignment) : Z :=
  foldr
    (fun a sum =>
       (match GlobalV1.asg_orders a with
        | o :: _ => GlobalV1.helperCount (GlobalV1.order_helpersRequired o)
        | [] => 0
        end + sum)%Z) 0%Z asgs.

(** The state of the multi-trip pass: every order given up so far fits no
    empty trip of any truck, and every truck has one trip more than there
    are such orders. *)
Definition unassignedOk (trucks : list GlobalV3.TruckData) (st : GlobalV3.PackState)
    : Prop :=
  Spec.storeWf (fst st)
  /\ map GlobalV3.tw_truck (fst st) = trucks
  /\ (forall o truck k,
        o ∈ snd st -> truck ∈ trucks ->
        GlobalV3.canFitInTrip (GlobalV3.newTrip k truck) o = false)
  /\ Forall (fun tw => (length (snd st) + 1 <= length (GlobalV3.tw_trips tw))%nat) (fst st).

(** A load-plan entry stands on or above the floor, ends under the roof of
    the truck and is not rotated. *)
Definition underRoof (truck : GlobalV3.TruckData) (e : GlobalV3.LoadPlanItem) : Prop :=
  0 <= GlobalV3.lp_z e
  /\ GlobalV3.lp_z e + GlobalV3.lp_height e <= GlobalV3.truck_height truck
  /\ GlobalV3.lp_rotation e = 0%Z.

(** The state of the shelf packer: the cursor has not sunk under the floor,
    the entries so far are under the roof, and there are at most [n] of them. *)
Definition shelfOk (truck : GlobalV3.TruckData) (n : nat)
    (st : GlobalV3.Cursor * list GlobalV3.LoadPlanItem) : Prop :=
  0 <= GlobalV3.currentZ (fst st) /\ 0 <= GlobalV3.layerHeight (fst st)
  /\ Forall (underRoof truck) (snd st) /\ (length (snd st) <= n)%nat.

(** The route of a trip as [autoOptimize] uses it: the stops are the loaded
    orders in some order, numbered from 1; the zones are visited by
    ascending travel time from the depot; and every unit of the load plan
    finds the stop of its order. *)
Definition routeOk (localeCompare : string -> string -> Z) (trip : GlobalV3.TruckTrip)
    : Prop :=
  let route := RouteV3.getOptimizedRoute localeCompare trip in
  (exists visit,
      visit ≡ₚ GlobalV3.trip_loadedOrders trip
      /\ route = imap (fun i o => RouteV3.stopOf (S i) o) visit)
  /\ StronglySorted
       (fun z1 z2 =>
          (GlobalV3.lookupOr30 GlobalV3.ZONE_TRAVEL_TIMES z1
           <= GlobalV3.lookupOr30 GlobalV3.ZONE_TRAVEL_TIMES z2)%Z)
       (map RouteV3.rs_zone route)
  /\ Forall
       (fun u =>
          (1 <= GlobalV3.unit_sequence u
           <= length (GlobalV3.trip_loadedOrders trip))%nat)
       (GlobalV3.collectUnits trip (map RouteV3.toRouteStop route)).

(** The order of the delivery sequence: by position of the zone, then by
    zipcode. *)
Definition byZoneThenZipcode (localeCompare : string -> string -> Z)
    (a b : DeliverySequence.SeqOrder) : Prop :=
  (DeliverySequence.zoneIndex a < DeliverySequence.zoneIndex b)%Z
  \/ (DeliverySequence.zoneIndex a = DeliverySequence.zoneIndex b
      /\ (localeCompare (DeliverySequence.so_zipcode a) (DeliverySequence.so_zipcode b)
          <= 0)%Z).

(** A collation to run the sequence with: strings by their code units. *)
Definition codeUnitCompare (a b : string) : Z :=
  match String.compare a b with
  | Lt => (-1)%Z
  | Eq => 0%Z
  | Gt => 1%Z
  end.

(** An order whose total volume and weight are not negative. *)
Definition orderSized (o : GlobalV3.OrderData) : Prop :=
  0 <= GlobalV3.order_totalVolume o /\ 0 <= GlobalV3.order_totalWeight o.

(** Every trip of the store belongs to its truck, holds nothing negative,
    and each of its orders would fit an empty trip of the truck. *)
Definition storeFits (store : list GlobalV3.TruckWithTrips) : Prop :=
  Forall
    (fun tw =>
       Forall
         (fun trip =>
            tripOfTruck (GlobalV3.tw_truck tw) trip
            /\ 0 <= GlobalV3.trip_currentVolume trip
            /\ 0 <= GlobalV3.trip_currentWeight trip
            /\ Forall
                 (fun o =>
                    GlobalV3.canFitInTrip (GlobalV3.newTrip 1 (GlobalV3.tw_truck tw)) o
                    = true) (GlobalV3.trip_loadedOrders trip))
         (GlobalV3.tw_trips tw)) store.

End CoverageSpec.

(** * Properties *)

(** ** Comparisons and sorting *)

Lemma gt_false (a b : Q) : Js.gt a b = false <-> a <= b.
Proof.
  unfold Js.gt. rewrite negb_false_iff. apply Qle_bool_iff.
Qed.

Lemma gt_true (a b : Q) : Js.gt a b = true <-> b < a.
Proof.
  unfold Js.gt. rewrite negb_true_iff. split.
  - intros H. apply Qnot_le_lt. intros Hle. apply Qle_bool_iff in Hle. congruence.
  - intros H. destruct (Qle_bool a b) eqn:E; [|reflexivity].
    apply Qle_bool_iff in E. exfalso. eapply Qlt_not_le; eauto.
Qed.

(** ** Double precision *)
Section DoubleFacts.

Lemma pow2_pos (e : Z) : 0 < Js.pow2 e.
Proof. unfold Js.pow2. apply Qpower.Qpower_0_lt. reflexivity. Qed.

Lemma pow2_inject (a : Z) : (0 <= a)%Z -> Js.pow2 a == inject_Z (2 ^ a).
Proof.
  intros Ha. unfold Js.pow2. rewrite Qpower.Zpower_Qpower by exact Ha. reflexivity.
Qed.

Lemma roundHalfEven_err (x : Q) :
  x - (1 # 2) <= inject_Z (Js.roundHalfEven x) <= x + (1 # 2).
Proof.
  unfold Js.roundHalfEven. cbv zeta.
  pose proof (Qfloor_le x) as Hlo. pose proof (Qlt_floor x) as Hhi.
  rewrite inject_Z_plus in Hhi. change (inject_Z 1) with 1 in Hhi.
  destruct (Qcompare_spec (x - inject_Z (Qfloor x)) (1 # 2)) as [He|Hl|Hg].
  - destruct (Z.even (Qfloor x)).
    + split; lra.
    + rewrite inject_Z_plus. change (inject_Z 1) with 1. split; lra.
  - split; lra.
  - rewrite inject_Z_plus. change (inject_Z 1) with 1. split; lra.
Qed.

(** [Js.ilog2 q] is not above the binary logarithm of [q]. *)
Lemma ilog2_le (q : Q) : 0 < q -> Js.pow2 (Js.ilog2 q) <= q.
Proof.
  intros Hq. unfold Js.ilog2. cbv zeta.
  destruct (Qle_bool _ q) eqn:E; [apply Qle_bool_iff; exact E|]. clear E.
  destruct q as [n d]. simpl Qnum. simpl Qden.
  assert (Hn : (0 < n)%Z).
  { unfold Qlt in Hq. simpl in Hq. lia. }
  destruct (Z.log2_spec n Hn) as [Ha _].
  destruct (Z.log2_spec (Z.pos d) eq_refl) as [_ Hb].
  pose proof (Z.log2_nonneg n) as Ha0. pose proof (Z.log2_nonneg (Z.pos d)) as Hb0.
  set (a := Z.log2 n) in *. set (b := Z.log2 (Z.pos d)) in *.
  replace (a - b - 1)%Z with (a - Z.succ b)%Z by lia.
  unfold Js.pow2. rewrite Qpower.Qpower_minus by discriminate.
  fold (Js.pow2 a). fold (Js.pow2 (Z.succ b)).
  rewrite (pow2_inject a Ha0), (pow2_inject (Z.succ b)) by lia.
  rewrite (Qmake_Qdiv n d).
  assert (H1 : inject_Z (2 ^ a) <= inject_Z n) by (rewrite <- Zle_Qle; exact Ha).
  assert (H2 : inject_Z (Z.pos d) < inject_Z (2 ^ Z.succ b))
    by (rewrite <- Zlt_Qlt; exact Hb).
  assert (H3 : 0 < inject_Z (Z.pos d)) by (rewrite <- (Zlt_Qlt 0); reflexivity).
  assert (H4 : 0 < inject_Z (2 ^ a)) by (rewrite <- (Zlt_Qlt 0); lia).
  generalize dependent (inject_Z (2 ^ a)). generalize dependent (inject_Z n).
  generalize dependent (inject_Z (Z.pos d)). generalize dependent (inject_Z (2 ^ Z.succ b)).
  intros B D HD HDB N A HAN HA.
  apply (Qmult_lt_0_le_reg_r _ _ (B * D)); [nra|].
  assert (E1 : A / B * (B * D) == A * D) by (field; lra).
  assert (E2 : N / D * (B * D) == N * B) by (field; lra).
  rewrite E1, E2. nra.
Qed.

(** Rounding to a double moves a positive number by at most [2 ^ -53] of
    itself. *)
Lemma nearest53_rel (q : Q) :
  0 < q ->
  q * (1 - (1 # 9007199254740992)) <= Js.nearest53 q
  <= q * (1 + (1 # 9007199254740992)).
Proof.
  intros Hq. unfold Js.nearest53. cbv zeta.
  pose proof (ilog2_le q Hq) as Hlog.
  set (e := (Js.ilog2 q - 52)%Z).
  pose proof (pow2_pos e) as HP.
  assert (Hsplit : Js.pow2 (Js.ilog2 q) == Js.pow2 52 * Js.pow2 e).
  { unfold Js.pow2, e. rewrite <- Qpower.Qpower_plus by discriminate.
    replace (52 + (Js.ilog2 q - 52))%Z with (Js.ilog2 q) by lia. reflexivity. }
  rewrite Hsplit in Hlog.
  pose proof (roundHalfEven_err (q / Js.pow2 e)) as [Hlo Hhi].
  clear Hsplit.
  set (m := inject_Z (Js.roundHalfEven (q / Js.pow2 e))) in *. clearbody m.
  set (P := Js.pow2 e) in *. clearbody P.
  change (Js.pow2 52) with (4503599627370496 # 1) in Hlog.
  assert (Hx : q / P * P == q) by (field; lra).
  assert (H1 : (q / P - (1 # 2)) * P <= m * P) by nra.
  assert (H2 : m * P <= (q / P + (1 # 2)) * P) by nra.
  assert (E1 : (q / P - (1 # 2)) * P == q - (1 # 2) * P) by (field; lra).
  assert (E2 : (q / P + (1 # 2)) * P == q + (1 # 2) * P) by (field; lra).
  rewrite E1 in H1. rewrite E2 in H2. split; lra.
Qed.

Lemma double_pos (q : Q) : 0 < q -> Js.double q = Js.nearest53 q.
Proof.
  intros Hq. unfold Js.double.
  destruct (Qcompare_spec q 0) as [H|H|H]; [lra|lra|reflexivity].
Qed.

Lemma double_neg (q : Q) : q < 0 -> Js.double q = - Js.nearest53 (- q).
Proof.
  intros Hq. unfold Js.double.
  destruct (Qcompare_spec q 0) as [H|H|H]; [lra|reflexivity|lra].
Qed.


(** The constant of the balance check is the double nearest to 3/10, and
    lies below it. *)
Lemma double_0_3_nearest :
  Js.double (3 # 10) == Js.double_0_3 /\ Js.double_0_3 < 3 # 10.
Proof. split; reflexivity. Qed.



End DoubleFacts.

Section SortFacts.
Context {A : Type} (keep : A -> A -> bool).

Lemma insert_Permutation (x : A) (l : list A) : Js.insert keep x l ≡ₚ x :: l.
Proof.
  induction l as [|y l IH]; simpl; [done|].
  destruct (keep x y); [done|]. rewrite IH. apply Permutation_swap.
Qed.

Lemma sort_Permutation (l : list A) : Js.sort keep l ≡ₚ l.
Proof.
  induction l as [|x l IH]; simpl; [done|].
  rewrite insert_Permutation. by rewrite IH.
Qed.

Lemma sort_length (l : list A) : length (Js.sort keep l) = length l.
Proof. apply Permutation_length, sort_Permutation. Qed.

(** For a total and transitive [keep], the result is sorted. *)
Hypothesis keep_total : forall x y, keep x y = false -> keep y x = true.
Hypothesis keep_trans : forall x y z, keep x y = true -> keep y z = true -> keep x z = true.

Lemma insert_sorted (x : A) (l : list A) :
  StronglySorted (fun a b => keep a b = true) l ->
  StronglySorted (fun a b => keep a b = true) (Js.insert keep x l).
Proof.
  induction 1 as [|y l Hs IH Hy]; simpl.
  - repeat constructor.
  - destruct (keep x y) eqn:E.
    + constructor; [by constructor|]. constructor; [done|].
      eapply Forall_impl; [exact Hy|]. intros z Hz. simpl in Hz. eauto.
    + constructor; [done|]. rewrite insert_Permutation. constructor; [|done].
      by apply keep_total.
Qed.

Lemma sort_sorted (l : list A) :
  StronglySorted (fun a b => keep a b = true) (Js.sort keep l).
Proof.
  induction l as [|x l IH]; simpl; [constructor|]. by apply insert_sorted.
Qed.

End SortFacts.

(** ** Route timing *)
Section RouteTiming.
Import GlobalV3 Spec.

Lemma getTripRouteTime_empty (trip : TruckTrip) (includeReturn : bool) :
  trip_loadedOrders trip = [] -> getTripRouteTime trip includeReturn = 0%Z.
Proof. intros H. unfold getTripRouteTime. by rewrite H. Qed.

Lemma truckTimeLoop_spec (n : nat) (trips : list TruckTrip) :
  forall (i : nat) (t : Z),
    trips <> [] -> n = (i + length trips)%nat ->
    truckTimeLoop n i trips t
    = (t + tripTimesTotal trips
       + DEPOT_RELOAD_TIME * (Z.of_nat (length trips) - 1))%Z.
Proof.
  induction trips as [|trip rest IH]; intros i t Hne Hn; [done|].
  cbn [truckTimeLoop]. destruct rest as [|trip' rest'].
  - replace (i <? n - 1)%nat with false
      by (symmetry; apply Nat.ltb_ge; simpl in Hn; lia).
    unfold tripTimesTotal. simpl. lia.
  - replace (i <? n - 1)%nat with true
      by (symmetry; apply Nat.ltb_lt; simpl in Hn; lia).
    rewrite IH; [|done|simpl in *; lia].
    unfold tripTimesTotal. cbn [map foldr length]. lia.
Qed.

Lemma getTruckTotalRouteTime_spec (trips : list TruckTrip) :
  trips <> [] ->
  getTruckTotalRouteTime trips
  = (tripTimesTotal trips + DEPOT_RELOAD_TIME * (Z.of_nat (length trips) - 1))%Z.
Proof.
  intros Hne. unfold getTruckTotalRouteTime.
  destruct trips as [|trip rest]; [done|].
  replace (length (trip :: rest) =? 0)%nat with false by done.
  rewrite truckTimeLoop_spec; [lia|done|done].
Qed.

Lemma tripTimesTotal_app (l1 l2 : list TruckTrip) :
  tripTimesTotal (l1 ++ l2) = (tripTimesTotal l1 + tripTimesTotal l2)%Z.
Proof.
  unfold tripTimesTotal. induction l1 as [|t l1 IH]; simpl; [done|].
  rewrite IH. lia.
Qed.

(** A trip without orders appended to a truck's trips costs one reload. *)
Lemma empty_trip_costs_reload (trips : list TruckTrip) (trip : TruckTrip) :
  trips <> [] -> trip_loadedOrders trip = [] ->
  getTruckTotalRouteTime (trips ++ [trip])
  = (getTruckTotalRouteTime trips + DEPOT_RELOAD_TIME)%Z.
Proof.
  intros Hne Hempty.
  rewrite !getTruckTotalRouteTime_spec; [|done|by destruct trips].
  rewrite tripTimesTotal_app, length_app. unfold tripTimesTotal at 2. simpl.
  rewrite getTripRouteTime_empty by done. lia.
Qed.

(** The minutes the stops of a trip add up to. *)
Lemma service_fold (orders : list OrderData) (t : Z) :
  fold_left (fun t o => (t + serviceTime o)%Z) orders t
  = (t + foldr Z.add 0%Z (map serviceTime orders))%Z.
Proof.
  revert t. induction orders as [|o os IH]; intros t; simpl; [lia|].
  rewrite IH. lia.
Qed.

End RouteTiming.

(** ** The truck store under the steps of a run *)
Section StoreSteps.
Import GlobalV3 Spec.

Lemma storeSteps_one (store store' : Store) (l : list OrderData) :
  storeStep store l store' -> storeSteps store l store'.
Proof.
  intros H. rewrite <- (app_nil_r l). eapply steps_next; [exact H|constructor].
Qed.

Lemma storeSteps_trans (s1 s2 s3 : Store) (l1 l2 : list OrderData) :
  storeSteps s1 l1 s2 -> storeSteps s2 l2 s3 -> storeSteps s1 (l1 ++ l2) s3.
Proof.
  induction 1 as [|a b c la lb Hab Hbc IH]; intros H23; [done|].
  rewrite <- app_assoc. eapply steps_next; [exact Hab|]. by apply IH.
Qed.

(** An invariant of single steps is an invariant of runs. *)
Lemma storeSteps_ind_inv (P : Store -> Prop) :
  (forall s l s', storeStep s l s' -> P s -> P s') ->
  forall s l s', storeSteps s l s' -> P s -> P s'.
Proof.
  intros Hstep s l s' H. induction H; eauto.
Qed.

Lemma currentTrip_Some (tw : TruckWithTrips) :
  tw_trips tw <> [] -> exists trip, currentTrip tw = Some trip.
Proof.
  intros Hne. unfold currentTrip.
  destruct (lookup_lt_is_Some_2 (tw_trips tw) (length (tw_trips tw) - 1)) as [t Ht].
  - destruct (tw_trips tw); [done|simpl; lia].
  - eauto.
Qed.

Lemma currentTrip_snoc (tw : TruckWithTrips) (trips : list TruckTrip) (t : TruckTrip) :
  currentTrip (withTrips tw (trips ++ [t])) = Some t.
Proof.
  unfold currentTrip. simpl. rewrite length_app. simpl.
  replace (length trips + 1 - 1)%nat with (length trips + 0)%nat by lia.
  by rewrite lookup_app_r, Nat.add_0_r, Nat.sub_diag by lia.
Qed.

Lemma storeStep_length (s s' : Store) (l : list OrderData) :
  storeStep s l s' -> length s' = length s.
Proof. destruct 1; by rewrite length_insert. Qed.

Lemma storeStep_wf (s s' : Store) (l : list OrderData) :
  storeStep s l s' -> storeWf s -> storeWf s'.
Proof.
  unfold storeWf. destruct 1 as [store i tw trip order Hi Hc Hfit|store i tw Hi];
    intros Hwf; apply Forall_insert; try done; simpl.
  - intros Hnil. apply (f_equal length) in Hnil. rewrite length_insert in Hnil.
    unfold currentTrip in Hc. apply lookup_lt_Some in Hc. simpl in Hnil. lia.
  - by destruct (tw_trips tw).
Qed.

Lemma storeSteps_length (s s' : Store) (l : list OrderData) :
  storeSteps s l s' -> length s' = length s.
Proof.
  induction 1 as [|a b c la lb Hab Hbc IH]; [done|].
  rewrite IH. by eapply storeStep_length.
Qed.

Lemma storeSteps_wf (s s' : Store) (l : list OrderData) :
  storeSteps s l s' -> storeWf s -> storeWf s'.
Proof.
  apply (storeSteps_ind_inv storeWf). intros a la b. apply storeStep_wf.
Qed.

Lemma loadIntoCurrentTrip_step (store : Store) (i : nat) (tw : TruckWithTrips)
    (trip : TruckTrip) (order : OrderData) :
  store !! i = Some tw -> currentTrip tw = Some trip ->
  canFitInTrip trip order = true ->
  exists store', loadIntoCurrentTrip store i order = Some store'
                 /\ storeStep store [order] store'.
Proof.
  intros Hi Hc Hfit. unfold loadIntoCurrentTrip. rewrite Hi. simpl. rewrite Hc. simpl.
  eexists. split; [reflexivity|]. by apply step_load.
Qed.

Lemma store_current (store : Store) (i : nat) :
  storeWf store -> (i < length store)%nat ->
  exists tw trip, store !! i = Some tw /\ currentTrip tw = Some trip.
Proof.
  intros Hwf Hi. destruct (lookup_lt_is_Some_2 store i Hi) as [tw Htw].
  unfold storeWf in Hwf. rewrite Forall_lookup in Hwf.
  destruct (currentTrip_Some tw (Hwf i tw Htw)) as [trip Htrip]. eauto.
Qed.

Lemma findBestTruck_spec (store : Store) (order : OrderData) :
  storeWf store ->
  forall (assignedTrucks : list nat) (bestTruck : option nat) (bestRemaining : option Q),
    Forall (fun i => (i < length store)%nat) assignedTrucks ->
    (forall i, bestTruck = Some i -> fitsAt store order i) ->
    exists b, findBestTruck store order assignedTrucks bestTruck bestRemaining = Some b
              /\ (forall i, b = Some i -> fitsAt store order i).
Proof.
  intros Hwf. induction assignedTrucks as [|i rest IH];
    intros bestTruck bestRemaining Hrefs Hbest; simpl.
  - eauto.
  - inversion Hrefs as [|? ? Hi Hrest]; subst.
    destruct (store_current store i Hwf Hi) as (tw & trip & Htw & Htrip).
    rewrite Htw. simpl. rewrite Htrip. simpl.
    destruct (canFitInTrip trip order) eqn:Hfit; [|by apply IH].
    match goal with |- context [if ?c then _ else _] => destruct c end.
    + apply IH; [done|]. intros j [= <-]. by exists tw, trip.
    + by apply IH.
Qed.

Lemma tryAnyTruck_spec (store : Store) (order : OrderData) :
  storeWf store ->
  forall trucks : list nat,
    Forall (fun i => (i < length store)%nat) trucks ->
    exists store' packed,
      tryAnyTruck store order trucks = Some (store', packed)
      /\ if packed then storeStep store [order] store' else store' = store.
Proof.
  intros Hwf. induction trucks as [|i rest IH]; intros Hrefs; simpl.
  - by exists store, false.
  - inversion Hrefs as [|? ? Hi Hrest]; subst.
    destruct (store_current store i Hwf Hi) as (tw & trip & Htw & Htrip).
    rewrite Htw. simpl. rewrite Htrip. simpl.
    destruct (canFitInTrip trip order) eqn:Hfit; [|by apply IH].
    destruct (loadIntoCurrentTrip_step store i tw trip order Htw Htrip Hfit)
      as (store' & Hload & Hstep).
    rewrite Hload. simpl. by exists store', true.
Qed.

Lemma outcome_trans (a b c : PackState) (o1 o2 : list OrderData) :
  outcome a o1 b -> outcome b o2 c -> outcome a (o1 ++ o2) c.
Proof.
  intros (l1 & r1 & Hs1 & Hu1 & Hp1) (l2 & r2 & Hs2 & Hu2 & Hp2).
  exists (l1 ++ l2), (r1 ++ r2). split; [by eapply storeSteps_trans|].
  split; [by rewrite Hu2, Hu1, app_assoc|].
  rewrite <- Hp1, <- Hp2.
  rewrite <- !app_assoc. apply Permutation_app_head.
  rewrite !app_assoc. apply Permutation_app_tail, Permutation_app_comm.
Qed.

Lemma outcome_refl (st : PackState) : outcome st [] st.
Proof.
  exists [], []. split; [constructor|]. split; [by rewrite app_nil_r|done].
Qed.

Lemma outcome_ok (n : nat) (st st' : PackState) (orders : list OrderData) :
  outcome st orders st' -> stateOk n st -> stateOk n st'.
Proof.
  intros (l & r & Hs & _ & _) [Hlen Hwf]. split.
  - erewrite storeSteps_length; eauto.
  - eapply storeSteps_wf; eauto.
Qed.

Lemma packOrder_spec (n : nat) (assignedTrucks : list nat) (st : PackState)
    (order : OrderData) :
  stateOk n st -> Forall (fun i => (i < n)%nat) assignedTrucks ->
  exists st', packOrder assignedTrucks st order = Some st' /\ outcome st [order] st'.
Proof.
  destruct st as [store unassigned]. intros [Hlen Hwf] Hrefs. simpl in Hlen, Hwf.
  subst n. unfold packOrder.
  destruct (findBestTruck_spec store order Hwf assignedTrucks None None Hrefs)
    as (b & Hb & Hfits); [done|].
  rewrite Hb. simpl. destruct b as [i|].
  - destruct (Hfits i eq_refl) as (tw & trip & Htw & Htrip & Hfit).
    destruct (loadIntoCurrentTrip_step store i tw trip order Htw Htrip Hfit)
      as (store' & Hload & Hstep).
    rewrite Hload. simpl. eexists. split; [reflexivity|].
    exists [order], []. simpl. split; [by apply storeSteps_one|].
    split; [by rewrite app_nil_r|done].
  - destruct (tryAnyTruck_spec store order Hwf (seq 0 (length store)))
      as (store' & packed & Hany & Hres).
    { apply Forall_forall. intros i Hin. apply elem_of_seq in Hin. lia. }
    rewrite Hany. simpl. eexists. split; [reflexivity|]. destruct packed.
    + exists [order], []. simpl. split; [by apply storeSteps_one|].
      split; [by rewrite app_nil_r|done].
    + subst store'. exists [], [order]. simpl. split; [constructor|done].
Qed.

Lemma forEachM_outcome {X : Type} (body : PackState -> X -> option PackState)
    (f : X -> list OrderData) (n : nat) (xs : list X) :
  (forall st x, x ∈ xs -> stateOk n st ->
     exists st', body st x = Some st' /\ outcome st (f x) st') ->
  forall st, stateOk n st ->
    exists st', forEachM body xs st = Some st' /\ outcome st (flat_map f xs) st'.
Proof.
  induction xs as [|x xs IH]; intros Hbody st Hok; simpl.
  - exists st. split; [done|apply outcome_refl].
  - destruct (Hbody st x) as (st1 & Hst1 & Hout1); [left|done|].
    rewrite Hst1. simpl.
    destruct (IH (fun st y Hy => Hbody st y (list_elem_of_further _ _ _ Hy)) st1)
      as (st2 & Hst2 & Hout2); [by eapply outcome_ok|].
    exists st2. split; [done|]. by eapply outcome_trans.
Qed.

Lemma flat_map_singleton {A : Type} (l : list A) : flat_map (fun x => [x]) l = l.
Proof. induction l as [|x l IH]; simpl; [done|by rewrite IH]. Qed.

Lemma packZone_spec (n : nat) (zoneOrders : list (string * list OrderData))
    (zoneTruckMap : gmap string (list nat)) (st : PackState) (zone : string) :
  (forall z refs, zoneTruckMap !! z = Some refs -> Forall (fun i => (i < n)%nat) refs) ->
  stateOk n st ->
  exists st', packZone zoneOrders zoneTruckMap st zone = Some st'
              /\ outcome st (default [] (assocGet zoneOrders zone)) st'.
Proof.
  intros Hmap Hok. unfold packZone.
  destruct (forEachM_outcome (packOrder (default [] (zoneTruckMap !! zone)))
              (fun o => [o]) n (default [] (assocGet zoneOrders zone))) with (st := st)
    as (st' & Hrun & Hout); [|done|].
  - intros st0 o _ Hok0. apply (packOrder_spec n); [done|].
    destruct (zoneTruckMap !! zone) as [refs|] eqn:E; simpl; [by eapply Hmap|constructor].
  - exists st'. split; [done|]. by rewrite flat_map_singleton in Hout.
Qed.

Lemma multiTripTrucks_spec (order : OrderData) :
  forall (sortedTrucks : list nat) (store : Store),
    storeWf store ->
    Forall (fun i => (i < length store)%nat) sortedTrucks ->
    exists store' packed,
      multiTripTrucks store order sortedTrucks = Some (store', packed)
      /\ storeSteps store (if packed then [order] else []) store'.
Proof.
  induction sortedTrucks as [|i rest IH]; intros store Hwf Hrefs; simpl.
  - exists store, false. split; [done|constructor].
  - inversion Hrefs as [|? ? Hi Hrest]; subst.
    destruct (store_current store i Hwf Hi) as (tw & trip & Htw & Htrip).
    rewrite Htw. simpl. rewrite Htrip. simpl.
    destruct (canFitInTrip trip order) eqn:Hfit; simpl.
    + rewrite Hfit.
      destruct (loadIntoCurrentTrip_step store i tw trip order Htw Htrip Hfit)
        as (store' & Hload & Hstep).
      rewrite Hload. simpl. exists store', true. split; [done|].
      by apply storeSteps_one.
    + set (nt := newTrip (length (tw_trips tw) + 1) (tw_truck tw)).
      set (store1 := <[i := withTrips tw (tw_trips tw ++ [nt])]> store).
      assert (Hopen : storeStep store [] store1) by by apply step_open.
      assert (Hwf1 : storeWf store1) by by eapply storeStep_wf.
      assert (Hlen1 : length store1 = length store) by by eapply storeStep_length.
      destruct (canFitInTrip nt order) eqn:Hfit2.
      * destruct (loadIntoCurrentTrip_step store1 i
                    (withTrips tw (tw_trips tw ++ [nt])) nt order)
          as (store2 & Hload & Hstep); [|apply currentTrip_snoc|done|].
        { unfold store1. by apply list_lookup_insert_eq. }
        rewrite Hload. simpl. exists store2, true. split; [done|].
        change [order] with ([] ++ [order] ++ []).
        eapply steps_next; [exact Hopen|].
        eapply steps_next; [exact Hstep|constructor].
      * destruct (IH store1 Hwf1) as (store' & packed & Hrec & Hsteps).
        { by rewrite Hlen1. }
        exists store', packed. split; [done|].
        change (if packed then [order] else []) with
          ([] ++ (if packed then [order] else [])).
        eapply steps_next; [exact Hopen|done].
Qed.

Lemma imap_fst_seq {A : Type} (l : list A) :
  forall (f : nat -> A -> nat * A) (k : nat),
    (forall i x, fst (f i x) = (k + i)%nat) ->
    map fst (imap f l) = seq k (length l).
Proof.
  induction l as [|x l IH]; intros f k Hf; simpl; [done|].
  rewrite Hf, Nat.add_0_r. f_equal. apply IH.
  intros i y. simpl. rewrite Hf. lia.
Qed.

Lemma imap_pair_fst {A : Type} (l : list A) : map fst (imap pair l) = seq 0 (length l).
Proof. by apply imap_fst_seq. Qed.

Lemma sortedTruckRefs_ok (store : Store) :
  Forall (fun i => (i < length store)%nat) (sortedTruckRefs store).
Proof.
  unfold sortedTruckRefs. apply Forall_forall. intros i Hin.
  rewrite sort_Permutation, imap_pair_fst in Hin.
  apply elem_of_seq in Hin. lia.
Qed.

Lemma multiTripOrder_spec (n : nat) (st : PackState) (order : OrderData) :
  stateOk n st ->
  exists st', multiTripOrder st order = Some st' /\ outcome st [order] st'.
Proof.
  destruct st as [store unassigned]. intros [Hlen Hwf]. simpl in Hlen, Hwf.
  unfold multiTripOrder.
  destruct (multiTripTrucks_spec order (sortedTruckRefs store) store Hwf
              (sortedTruckRefs_ok store)) as (store' & packed & Hrun & Hsteps).
  rewrite Hrun. simpl. eexists. split; [reflexivity|]. destruct packed.
  - exists [order], []. simpl. split; [done|]. split; [by rewrite app_nil_r|done].
  - exists [], [order]. simpl. done.
Qed.

End StoreSteps.

(** ** Zones: grouping the orders and handing out the trucks *)
Section Zones.
Import GlobalV3 Spec.

Lemma pushZone_keys (zone : string) (o : OrderData) (m : list (string * list OrderData)) :
  map fst (pushZone zone o m)
  = if bool_decide (zone ∈ map fst m) then map fst m else map fst m ++ [zone].
Proof.
  induction m as [|[z os] m IH]; simpl; [done|].
  destruct (String.eqb_spec z zone) as [->|Hne]; simpl.
  - rewrite bool_decide_eq_true_2; [done|left].
  - rewrite IH. destruct (bool_decide (zone ∈ map fst m)) eqn:E.
    + apply bool_decide_eq_true_1 in E. rewrite bool_decide_eq_true_2; [done|by right].
    + apply bool_decide_eq_false_1 in E. rewrite bool_decide_eq_false_2; [done|].
      intros Hin. apply elem_of_cons in Hin as [->|Hin]; done.
Qed.

Lemma pushZone_NoDup (zone : string) (o : OrderData) (m : list (string * list OrderData)) :
  NoDup (map fst m) -> NoDup (map fst (pushZone zone o m)).
Proof.
  intros Hnd. rewrite pushZone_keys. case_bool_decide as Hin; [done|].
  apply NoDup_app. split; [done|]. split; [|apply NoDup_singleton].
  intros x Hx Hx'. apply list_elem_of_singleton in Hx'. by subst.
Qed.

Lemma pushZone_orders (zone : string) (o : OrderData) (m : list (string * list OrderData)) :
  concat (map snd (pushZone zone o m)) ≡ₚ concat (map snd m) ++ [o].
Proof.
  induction m as [|[z os] m IH]; simpl; [done|].
  destruct (String.eqb z zone); simpl.
  - rewrite <- !app_assoc. apply Permutation_app_head, Permutation_app_comm.
  - rewrite IH. by rewrite app_assoc.
Qed.

Lemma groupByZone_spec (ordersData : list OrderData) :
  NoDup (map fst (groupByZone ordersData))
  /\ concat (map snd (groupByZone ordersData)) ≡ₚ ordersData.
Proof.
  unfold groupByZone.
  assert (H : forall m : list (string * list OrderData),
             NoDup (map fst m) ->
             NoDup (map fst (fold_left (fun m o => pushZone (order_zone o) o m) ordersData m))
             /\ concat (map snd (fold_left (fun m o => pushZone (order_zone o) o m) ordersData m))
                ≡ₚ concat (map snd m) ++ ordersData).
  { induction ordersData as [|o os IH]; intros m Hnd; simpl.
    - by rewrite app_nil_r.
    - destruct (IH (pushZone (order_zone o) o m)) as [Hk Hp];
        [by apply pushZone_NoDup|].
      split; [done|]. rewrite Hp, pushZone_orders. by rewrite <- app_assoc. }
  destruct (H []) as [Hk Hp]; [constructor|]. done.
Qed.

Lemma sortZoneOrders_keys (m : list (string * list OrderData)) :
  map fst (sortZoneOrders m) = map fst m.
Proof.
  unfold sortZoneOrders. induction m as [|[z os] m IH]; simpl; [done|by rewrite IH].
Qed.

Lemma sortZoneOrders_orders (m : list (string * list OrderData)) :
  concat (map snd (sortZoneOrders m)) ≡ₚ concat (map snd m).
Proof.
  unfold sortZoneOrders. induction m as [|[z os] m IH]; simpl; [done|].
  by rewrite IH, sort_Permutation.
Qed.

Lemma zoneDemandsOf_keys (m : list (string * list OrderData)) :
  map fst (zoneDemandsOf m) = map fst m.
Proof.
  unfold zoneDemandsOf. induction m as [|[z os] m IH]; simpl; [done|by rewrite IH].
Qed.

Lemma sortedZonesOf_keys (zoneDemands : list (string * Demand)) :
  sortedZonesOf zoneDemands ≡ₚ map fst zoneDemands.
Proof. unfold sortedZonesOf. apply Permutation_map, sort_Permutation. Qed.

Lemma assocGet_Some {V : Type} (m : list (string * V)) (zone : string) :
  zone ∈ map fst m -> is_Some (assocGet m zone).
Proof.
  induction m as [|[z v] m IH]; simpl; intros Hin.
  - by apply elem_of_nil in Hin.
  - destruct (String.eqb_spec z zone) as [->|Hne]; [eauto|].
    apply IH. apply elem_of_cons in Hin as [->|Hin]; done.
Qed.

Lemma assocGet_skip {V : Type} (z : string) (v : list V) (m : list (string * list V))
    (keys : list string) :
  z ∉ keys ->
  flat_map (fun k => default [] (assocGet ((z, v) :: m) k)) keys
  = flat_map (fun k => default [] (assocGet m k)) keys.
Proof.
  induction keys as [|k keys IH]; intros Hnotin; [done|].
  cbn [flat_map]. rewrite IH by (intros Hin; apply Hnotin; by right).
  f_equal. simpl. destruct (String.eqb_spec z k) as [->|Hne]; [|done].
  exfalso. apply Hnotin. left.
Qed.

Lemma assocGet_all {V : Type} (m : list (string * list V)) :
  NoDup (map fst m) ->
  flat_map (fun k => default [] (assocGet m k)) (map fst m) = concat (map snd m).
Proof.
  induction m as [|[z v] m IH]; intros Hnd; [done|].
  cbn [map fst snd concat flat_map]. apply NoDup_cons in Hnd as [Hz Hnd].
  rewrite assocGet_skip by done. rewrite IH by done.
  simpl. by rewrite String.eqb_refl.
Qed.

(** Every order comes up exactly once when the zones are visited. *)
Lemma zones_cover_orders (ordersData : list OrderData) :
  let zoneOrders := sortZoneOrders (groupByZone ordersData) in
  flat_map (fun zone => default [] (assocGet zoneOrders zone))
    (sortedZonesOf (zoneDemandsOf zoneOrders))
  ≡ₚ ordersData.
Proof.
  intros zoneOrders. destruct (groupByZone_spec ordersData) as [Hnd Hperm].
  rewrite sortedZonesOf_keys, zoneDemandsOf_keys.
  rewrite assocGet_all.
  - unfold zoneOrders. by rewrite sortZoneOrders_orders.
  - unfold zoneOrders. by rewrite sortZoneOrders_keys.
Qed.

Lemma imap_pair_refs (store : Store) :
  Forall (fun p : nat * TruckWithTrips => (fst p < length store)%nat) (imap pair store).
Proof.
  apply Forall_forall. intros p Hin.
  assert (H : fst p ∈ map fst (imap pair store)).
  { apply list_elem_of_In, in_map, list_elem_of_In, Hin. }
  rewrite imap_pair_fst in H. apply elem_of_seq in H. lia.
Qed.

Lemma assignZoneTrucks_refs (n : nat) (neededVolume : Q) :
  forall (trucks : list (nat * TruckWithTrips)) (assignedVolume : Q)
         (usedTrucks : gset Z) (assigned : list nat),
    Forall (fun p => (fst p < n)%nat) trucks ->
    Forall (fun i => (i < n)%nat) assigned ->
    Forall (fun i => (i < n)%nat)
      (fst (assignZoneTrucks neededVolume trucks assignedVolume usedTrucks assigned)).
Proof.
  induction trucks as [|[i tw] rest IH]; intros av used acc Htrucks Hacc; simpl; [done|].
  inversion Htrucks as [|? ? Hi Hrest]; subst. simpl in Hi.
  case_bool_decide; [by apply IH|].
  destruct (Js.ge av neededVolume); [done|].
  apply IH; [done|]. apply Forall_app. split; [done|]. by constructor.
Qed.

Lemma assignZones_spec (store : Store) (zoneDemands : list (string * Demand)) :
  forall (zones : list string) (zoneTruckMap : gmap string (list nat))
         (usedTrucks : gset Z),
    (forall z, z ∈ zones -> is_Some (assocGet zoneDemands z)) ->
    refsInStore (length store) zoneTruckMap ->
    exists m used,
      assignZones store zoneDemands zones zoneTruckMap usedTrucks = Some (m, used)
      /\ refsInStore (length store) m.
Proof.
  induction zones as [|zone rest IH]; intros m used Hkeys Hrefs; simpl.
  - by exists m, used.
  - destruct (Hkeys zone) as [d Hd]; [left|]. rewrite Hd. simpl.
    pose proof (assignZoneTrucks_refs (length store) (demand_volume d)
                  (imap pair store) 0 used [] (imap_pair_refs store)
                  (List.Forall_nil _)) as Hnew.
    destruct (assignZoneTrucks (demand_volume d) (imap pair store) 0 used [])
      as [assigned used'].
    apply IH.
    + intros z Hz. apply Hkeys. by right.
    + intros z refs. rewrite lookup_insert. case_decide.
      * intros [= <-]. exact Hnew.
      * apply Hrefs.
Qed.

Lemma assignRemaining_refs (n : nat) (bestZone : string) :
  forall (trucks : list (nat * TruckWithTrips)) (zoneTruckMap : gmap string (list nat))
         (usedTrucks : gset Z),
    Forall (fun p => (fst p < n)%nat) trucks ->
    refsInStore n zoneTruckMap ->
    refsInStore n (assignRemaining bestZone trucks zoneTruckMap usedTrucks).
Proof.
  induction trucks as [|[i tw] rest IH]; intros m used Htrucks Hrefs; simpl; [done|].
  inversion Htrucks as [|? ? Hi Hrest]; subst. simpl in Hi.
  case_bool_decide; [by apply IH|].
  apply IH; [done|]. intros z refs. rewrite lookup_insert. case_decide.
  - intros [= <-]. apply Forall_app. split; [|by constructor].
    destruct (m !! bestZone) as [old|] eqn:E; simpl; [by eapply Hrefs|constructor].
  - apply Hrefs.
Qed.

End Zones.

(** ** A run of the optimiser as a sequence of store steps *)
Section Run.
Import GlobalV3 Spec.

Lemma initial_store_wf (trucksData : list TruckData) :
  storeWf (Js.sort byCapacityDesc (map initTruck trucksData)).
Proof.
  unfold storeWf. rewrite sort_Permutation.
  apply Forall_forall. intros tw Hin.
  apply list_elem_of_In, in_map_iff in Hin as (truck & <- & _). done.
Qed.

(** [runOptimizationV3] always answers.  Its store is reached from the
    initial one by loads guarded by [canFitInTrip] and by trip openings, and
    the orders it loads together with those it reports unassigned are the
    input orders. *)
Lemma runOptimizationV3_trace (ordersData : list OrderData) (trucksData : list TruckData) :
  exists r loaded store4,
    runOptimizationV3 ordersData trucksData = Some r
    /\ storeSteps (Js.sort byCapacityDesc (map initTruck trucksData)) loaded store4
    /\ trucksWithTrips r = map withTotals store4
    /\ loaded ++ unassignedOrders r ≡ₚ ordersData
    /\ totalOrders (summary r) = length ordersData
    /\ assignedOrders (summary r)
       = fold_left (fun sum t => (sum + tw_totalOrders t)%nat) (map withTotals store4) 0%nat
    /\ unassignedOrdersCount (summary r) = length (unassignedOrders r)
    /\ totalTrips (summary r)
       = fold_left (fun sum t => (sum + length (tw_trips t))%nat) (map withTotals store4) 0%nat.
Proof.
  unfold runOptimizationV3. cbv zeta.
  set (zoneOrders := sortZoneOrders (groupByZone ordersData)).
  set (zoneDemands := zoneDemandsOf zoneOrders).
  set (sortedZones := sortedZonesOf zoneDemands).
  set (store0 := Js.sort byCapacityDesc (map initTruck trucksData)).
  destruct (assignZones_spec store0 zoneDemands sortedZones ∅ ∅)
    as (m0 & used & Hzones & Hrefs0).
  { intros z Hz. apply assocGet_Some. unfold sortedZones in Hz.
    by rewrite sortedZonesOf_keys in Hz. }
  { intros z refs Hlook. by rewrite lookup_empty in Hlook. }
  rewrite Hzones. simpl.
  set (zoneTruckMap := assignRemaining (bestZoneOf sortedZones) (imap pair store0) m0 used).
  assert (Hrefs : refsInStore (length store0) zoneTruckMap).
  { apply assignRemaining_refs; [apply imap_pair_refs|done]. }
  assert (Hok0 : stateOk (length store0) (store0, [])).
  { split; [done|apply initial_store_wf]. }
  destruct (forEachM_outcome (packZone zoneOrders zoneTruckMap)
              (fun zone => default [] (assocGet zoneOrders zone))
              (length store0) sortedZones) with (st := (store0, @nil OrderData))
    as ([store3 un3] & Hrun3 & Hout3); [|done|].
  { intros st zone _ Hok. by apply (packZone_spec (length store0)). }
  rewrite Hrun3. simpl.
  assert (Hok3 : stateOk (length store0) (store3, [])).
  { destruct (outcome_ok _ _ _ _ Hout3 Hok0) as [Hl Hw]. by split. }
  destruct (forEachM_outcome multiTripOrder (fun o => [o]) (length store0)
              (Js.sort byVolumeDesc un3)) with (st := (store3, @nil OrderData))
    as ([store4 un4] & Hrun4 & Hout4); [|done|].
  { intros st o _ Hok. by apply (multiTripOrder_spec (length store0)). }
  rewrite Hrun4. simpl.
  destruct Hout3 as (l3 & r3 & Hs3 & Hu3 & Hp3).
  destruct Hout4 as (l4 & r4 & Hs4 & Hu4 & Hp4).
  simpl in Hs3, Hu3, Hs4, Hu4. subst un3 un4.
  rewrite flat_map_singleton, sort_Permutation in Hp4.
  eexists. exists (l3 ++ l4), store4. split; [reflexivity|]. simpl.
  split; [by eapply storeSteps_trans|]. split; [done|].
  split; [|done].
  rewrite <- (zones_cover_orders ordersData). fold zoneOrders zoneDemands sortedZones.
  rewrite <- Hp3, <- Hp4. by rewrite <- app_assoc.
Qed.

End Run.

(** ** Capacity of the trips *)
Section Capacity.
Import GlobalV3 Spec.

Lemma canFitInTrip_bounds (trip : TruckTrip) (order : OrderData) :
  canFitInTrip trip order = true ->
  trip_currentVolume trip + order_totalVolume order <= trip_maxVolume trip
  /\ trip_currentWeight trip + order_totalWeight order <= trip_maxWeight trip.
Proof.
  unfold canFitInTrip. intros H.
  destruct (Js.gt (trip_currentVolume trip + order_totalVolume order)
              (trip_maxVolume trip)) eqn:Hv; [done|].
  destruct (Js.gt (trip_currentWeight trip + order_totalWeight order)
              (trip_maxWeight trip)) eqn:Hw; [done|].
  split; by apply gt_false.
Qed.

Lemma load_within_capacity (trip : TruckTrip) (order : OrderData) :
  tripWithinCapacity trip -> canFitInTrip trip order = true ->
  tripWithinCapacity (loadOrderIntoTrip trip order).
Proof.
  intros (Hv & Hw & _ & _) Hfit. destruct (canFitInTrip_bounds trip order Hfit) as [Bv Bw].
  unfold tripWithinCapacity. simpl. rewrite !fold_left_app. simpl.
  rewrite <- Hv, <- Hw. done.
Qed.

Lemma newTrip_within_capacity (k : nat) (truck : TruckData) :
  truckWellFormed truck -> tripWithinCapacity (newTrip k truck).
Proof. intros [Hv Hw]. unfold tripWithinCapacity. simpl. done. Qed.

Lemma storeStep_capacity (s s' : Store) (l : list OrderData) :
  storeStep s l s' -> storeWithinCapacity s -> storeWithinCapacity s'.
Proof.
  unfold storeWithinCapacity.
  destruct 1 as [store i tw trip order Hi Hc Hfit|store i tw Hi]; intros Hinv;
    pose proof (proj1 (Forall_lookup _ _) Hinv i tw Hi) as [Htruck Htrips];
    apply Forall_insert; try done; simpl; (split; [done|]).
  - apply Forall_insert; [done|]. apply load_within_capacity; [|done].
    unfold currentTrip in Hc. by eapply (proj1 (Forall_lookup _ _) Htrips).
  - apply Forall_app. split; [done|]. constructor; [|constructor].
    by apply newTrip_within_capacity.
Qed.

Lemma initial_store_capacity (trucksData : list TruckData) :
  Forall truckWellFormed trucksData ->
  storeWithinCapacity (Js.sort byCapacityDesc (map initTruck trucksData)).
Proof.
  intros Hwf. unfold storeWithinCapacity. rewrite sort_Permutation.
  apply Forall_forall. intros tw Hin.
  apply list_elem_of_In, in_map_iff in Hin as (truck & <- & Hin).
  apply list_elem_of_In in Hin.
  pose proof (proj1 (Forall_forall _ _) Hwf truck Hin) as Htruck.
  simpl. split; [done|]. constructor; [|constructor].
  by apply newTrip_within_capacity.
Qed.

Lemma load_loaded_within_capacity (trip : TruckTrip) (order : OrderData) :
  tripWithinCapacityIfLoaded trip -> canFitInTrip trip order = true ->
  tripWithinCapacityIfLoaded (loadOrderIntoTrip trip order).
Proof.
  intros (Hv & Hw & _) Hfit. destruct (canFitInTrip_bounds trip order Hfit) as [Bv Bw].
  unfold tripWithinCapacityIfLoaded. simpl. rewrite !fold_left_app. simpl.
  rewrite <- Hv, <- Hw. done.
Qed.

Lemma storeStep_loaded_capacity (s s' : Store) (l : list OrderData) :
  storeStep s l s' -> storeLoadedWithinCapacity s -> storeLoadedWithinCapacity s'.
Proof.
  unfold storeLoadedWithinCapacity.
  destruct 1 as [store i tw trip order Hi Hc Hfit|store i tw Hi]; intros Hinv;
    pose proof (proj1 (Forall_lookup _ _) Hinv i tw Hi) as Htrips;
    apply Forall_insert; try done; simpl.
  - apply Forall_insert; [done|]. apply load_loaded_within_capacity; [|done].
    unfold currentTrip in Hc. by eapply (proj1 (Forall_lookup _ _) Htrips).
  - apply Forall_app. split; [done|]. constructor; [|constructor].
    unfold tripWithinCapacityIfLoaded. simpl. done.
Qed.

Lemma initial_store_loaded_capacity (trucksData : list TruckData) :
  storeLoadedWithinCapacity (Js.sort byCapacityDesc (map initTruck trucksData)).
Proof.
  unfold storeLoadedWithinCapacity. rewrite sort_Permutation.
  apply Forall_forall. intros tw Hin.
  apply list_elem_of_In, in_map_iff in Hin as (truck & <- & Hin).
  simpl. constructor; [|constructor].
  unfold tripWithinCapacityIfLoaded. simpl. done.
Qed.

(** C1. In every run of [runOptimizationV3], each trip of the result has
    [currentVolume] and [currentWeight] equal to the sums over its
    [loadedOrders]; each trip that carries an order is within [maxVolume]
    and [maxWeight], and over trucks whose volume and [maxWeight] are not
    negative so is each trip; the store of the result is reached by steps
    whose loads all follow a successful [canFitInTrip], and a load after
    such a check keeps the trip within its bounds. *)
Theorem C1_trip_capacity (ordersData : list OrderData) (trucksData : list TruckData) :
  (exists r loaded store,
      runOptimizationV3 ordersData trucksData = Some r
      /\ storeSteps (Js.sort byCapacityDesc (map initTruck trucksData)) loaded store
      /\ trucksWithTrips r = map withTotals store
      /\ (forall tw trip,
            tw ∈ trucksWithTrips r -> trip ∈ tw_trips tw ->
            tripWithinCapacityIfLoaded trip)
      /\ (Forall truckWellFormed trucksData ->
          forall tw trip,
            tw ∈ trucksWithTrips r -> trip ∈ tw_trips tw -> tripWithinCapacity trip))
  /\ (forall trip order,
        tripWithinCapacity trip -> canFitInTrip trip order = true ->
        tripWithinCapacity (loadOrderIntoTrip trip order)).
Proof.
  split; [|apply load_within_capacity].
  destruct (runOptimizationV3_trace ordersData trucksData)
    as (r & loaded & store & Hrun & Hsteps & Hres & _).
  exists r, loaded, store. do 3 (split; [done|]). split.
  - intros tw trip Htw Htrip. rewrite Hres in Htw.
    apply list_elem_of_In, in_map_iff in Htw as (tw0 & <- & Hin).
    apply list_elem_of_In in Hin. simpl in Htrip.
    assert (Hinv : storeLoadedWithinCapacity store).
    { eapply (storeSteps_ind_inv storeLoadedWithinCapacity); [|exact Hsteps|].
      - intros a la b. apply storeStep_loaded_capacity.
      - apply initial_store_loaded_capacity. }
    pose proof (proj1 (Forall_forall _ _) Hinv tw0 Hin) as Htrips.
    by apply (proj1 (Forall_forall _ _) Htrips).
  - intros Hwf tw trip Htw Htrip. rewrite Hres in Htw.
    apply list_elem_of_In, in_map_iff in Htw as (tw0 & <- & Hin).
    apply list_elem_of_In in Hin. simpl in Htrip.
    assert (Hinv : storeWithinCapacity store).
    { eapply (storeSteps_ind_inv storeWithinCapacity); [|exact Hsteps|].
      - intros a la b. apply storeStep_capacity.
      - by apply initial_store_capacity. }
    destruct (proj1 (Forall_forall _ _) Hinv tw0 Hin) as [_ Htrips].
    by apply (proj1 (Forall_forall _ _) Htrips).
Qed.

Lemma C1_trip_capacity_witness :
  exists r,
    runOptimizationV3 [Fixtures.longOrder; Fixtures.smallOrder] [Fixtures.cubeTruck]
    = Some r
    /\ forall tw trip,
         tw ∈ trucksWithTrips r -> trip ∈ tw_trips tw -> tripWithinCapacity trip.
Proof.
  destruct (C1_trip_capacity [Fixtures.longOrder; Fixtures.smallOrder]
              [Fixtures.cubeTruck]) as [(r & loaded & store & Hrun & _ & _ & _ & Hall) _].
  exists r. split; [exact Hrun|]. apply Hall.
  repeat constructor; apply Qle_bool_iff; reflexivity.
Defined.

(** C1 as stated fails for a truck of negative volume: the small order is
    left unassigned, and the first trip of the truck, which is empty, holds
    a volume of 0 against a maximum of -1000. *)
Lemma C1_counterexample :
  exists r tw trip,
    runOptimizationV3 [Fixtures.smallOrder] [Fixtures.negativeTruck] = Some r
    /\ unassignedOrders r = [Fixtures.smallOrder]
    /\ tw ∈ trucksWithTrips r /\ trip ∈ tw_trips tw
    /\ trip_loadedOrders trip = []
    /\ trip_currentVolume trip == 0 /\ trip_maxVolume trip == -1000 # 1
    /\ ~ trip_currentVolume trip <= trip_maxVolume trip.
Proof.
  eexists _, _, _. split; [vm_compute; reflexivity|].
  split; [reflexivity|]. split; [apply list_elem_of_here|].
  split; [apply list_elem_of_here|].
  split; [reflexivity|]. split; [reflexivity|]. split; [reflexivity|].
  intros H. apply Qle_bool_iff in H. vm_compute in H. discriminate H.
Qed.

End Capacity.

(** ** Every order ends on one trip or in the unassigned list *)
Section Partition.
Import GlobalV3 Spec.

Lemma flat_map_insert {A B : Type} (f : A -> list B) (y : A) (extra : list B) :
  forall (l : list A) (i : nat) (x : A),
    l !! i = Some x -> f y ≡ₚ f x ++ extra ->
    flat_map f (<[i := y]> l) ≡ₚ flat_map f l ++ extra.
Proof.
  induction l as [|a l IH]; intros i x Hi Hy; [done|].
  destruct i as [|i]; simpl in *.
  - injection Hi as ->. rewrite Hy. rewrite <- !app_assoc.
    apply Permutation_app_head, Permutation_app_comm.
  - rewrite (IH i x Hi Hy). by rewrite app_assoc.
Qed.

Lemma storeStep_loaded (s s' : Store) (l : list OrderData) :
  storeStep s l s' -> loadedOf s' ≡ₚ loadedOf s ++ l.
Proof.
  unfold loadedOf.
  destruct 1 as [store i tw trip order Hi Hc Hfit|store i tw Hi];
    eapply flat_map_insert; try exact Hi; simpl.
  - unfold currentTrip in Hc. eapply flat_map_insert; [exact Hc|]. done.
  - rewrite flat_map_app. simpl. done.
Qed.

Lemma storeSteps_loaded (s s' : Store) (l : list OrderData) :
  storeSteps s l s' -> loadedOf s' ≡ₚ loadedOf s ++ l.
Proof.
  induction 1 as [|a b c la lb Hab Hbc IH]; [by rewrite app_nil_r|].
  rewrite IH, (storeStep_loaded _ _ _ Hab). by rewrite app_assoc.
Qed.

Lemma initial_store_loaded (trucksData : list TruckData) :
  loadedOf (Js.sort byCapacityDesc (map initTruck trucksData)) = [].
Proof.
  apply Permutation_nil. unfold loadedOf. rewrite sort_Permutation.
  induction trucksData as [|t ts IH]; simpl; [done|exact IH].
Qed.

Lemma loadedOf_withTotals (store : Store) :
  loadedOf (map withTotals store) = loadedOf store.
Proof.
  unfold loadedOf. induction store as [|tw store IH]; simpl; [done|by rewrite IH].
Qed.

Lemma count_fold {A : Type} (g : A -> nat) (l : list A) (a : nat) :
  fold_left (fun sum t => (sum + g t)%nat) l a
  = (a + length (flat_map (fun t => replicate (g t) tt) l))%nat.
Proof.
  revert a. induction l as [|x l IH]; intros a; simpl; [lia|].
  rewrite IH, length_app, length_replicate. lia.
Qed.

Lemma assigned_count (store : Store) :
  fold_left (fun sum t => (sum + tw_totalOrders t)%nat) (map withTotals store) 0%nat
  = length (loadedOf store).
Proof.
  rewrite count_fold. simpl. unfold loadedOf.
  induction store as [|tw store IH]; simpl; [done|].
  rewrite !length_app, IH, length_replicate. f_equal.
  rewrite count_fold. simpl. generalize (tw_trips tw).
  induction l as [|t l IHl]; simpl; [done|].
  rewrite !length_app, IHl, length_replicate. done.
Qed.

(** C5. Every run of [runOptimizationV3] partitions the input orders: the
    orders on the trips of the trucks together with [unassignedOrders] are a
    rearrangement of the input, so each order sits on exactly one trip of one
    truck or exactly once in [unassignedOrders]; the summary counts add up;
    and [autoOptimize] reports each unassigned order with the reason
    "No available truck with capacity". *)
Theorem C5_orders_partition (ordersData : list OrderData) (trucksData : list TruckData) :
  exists r,
    runOptimizationV3 ordersData trucksData = Some r
    /\ loadedOf (trucksWithTrips r) ++ unassignedOrders r ≡ₚ ordersData
    /\ (assignedOrders (summary r) + unassignedOrdersCount (summary r))%nat
       = totalOrders (summary r)
    /\ map ur_id (map reportUnassigned (unassignedOrders r))
       = map order_id (unassignedOrders r)
    /\ Forall (fun u => ur_reason u = "No available truck with capacity")
         (map reportUnassigned (unassignedOrders r)).
Proof.
  destruct (runOptimizationV3_trace ordersData trucksData)
    as (r & loaded & store & Hrun & Hsteps & Hres & Hperm & Htot & Hasg & Hun & _).
  pose proof (storeSteps_loaded _ _ _ Hsteps) as Hloaded.
  rewrite initial_store_loaded in Hloaded. simpl in Hloaded.
  exists r. split; [done|]. split; [|split; [|split]].
  - rewrite Hres, loadedOf_withTotals, Hloaded. exact Hperm.
  - rewrite Hasg, Hun, Htot, assigned_count, <- length_app.
    apply Permutation_length. by rewrite Hloaded.
  - rewrite map_map. done.
  - apply Forall_forall. intros u Hu.
    apply list_elem_of_In, in_map_iff in Hu as (o & <- & _). done.
Qed.

End Partition.

(** ** Route time of a truck, and trips without orders *)
Section TruckTime.
Import GlobalV3 Spec.

(** C6. A trip with no loaded order has route time 0; for a truck with at
    least one trip, [getTruckTotalRouteTime] is the sum of the trip times
    with return leg plus the 30-minute depot reload time for each trip but
    one; and every truck in a result of [runOptimizationV3] has at least one
    trip and carries that total. *)
Theorem C6_route_time :
  (forall trip includeReturn,
      trip_loadedOrders trip = [] -> getTripRouteTime trip includeReturn = 0%Z)
  /\ (forall trips,
        trips <> [] ->
        getTruckTotalRouteTime trips
        = (tripTimesTotal trips + 30 * (Z.of_nat (length trips) - 1))%Z)
  /\ (forall ordersData trucksData,
        exists r,
          runOptimizationV3 ordersData trucksData = Some r
          /\ forall tw, tw ∈ trucksWithTrips r ->
               tw_trips tw <> []
               /\ tw_totalRouteTime tw
                  = (tripTimesTotal (tw_trips tw)
                     + 30 * (Z.of_nat (length (tw_trips tw)) - 1))%Z).
Proof.
  split; [apply getTripRouteTime_empty|]. split.
  - intros trips Hne. by rewrite getTruckTotalRouteTime_spec.
  - intros ordersData trucksData.
    destruct (runOptimizationV3_trace ordersData trucksData)
      as (r & loaded & store & Hrun & Hsteps & Hres & _).
    exists r. split; [done|]. intros tw Htw. rewrite Hres in Htw.
    apply list_elem_of_In, in_map_iff in Htw as (tw0 & <- & Hin).
    apply list_elem_of_In in Hin.
    pose proof (storeSteps_wf _ _ _ Hsteps (initial_store_wf trucksData)) as Hwf.
    pose proof (proj1 (Forall_forall _ _) Hwf tw0 Hin) as Hne.
    simpl. split; [done|]. by rewrite getTruckTotalRouteTime_spec.
Qed.

Lemma C6_route_time_witness :
  getTripRouteTime (newTrip 2 Fixtures.cubeTruck) true = 0%Z
  /\ getTruckTotalRouteTime
       [loadOrderIntoTrip (newTrip 1 Fixtures.cubeTruck) Fixtures.smallOrder;
        newTrip 2 Fixtures.cubeTruck]
     = (100 + 0 + 30 * (2 - 1))%Z.
Proof.
  destruct C6_route_time as (Hempty & Htotal & _). split.
  - apply Hempty. reflexivity.
  - rewrite Htotal; [reflexivity|discriminate].
Defined.

End TruckTime.

Section EmptyTrips.
Import GlobalV3 Spec.

Lemma multiTripTrucks_keeps_empty_trip (store : Store) (order : OrderData) (i : nat)
    (rest : list nat) (tw : TruckWithTrips) (trip : TruckTrip) :
  store !! i = Some tw -> currentTrip tw = Some trip ->
  canFitInTrip trip order = false ->
  canFitInTrip (newTrip (length (tw_trips tw) + 1) (tw_truck tw)) order = false ->
  multiTripTrucks store order (i :: rest)
  = multiTripTrucks
      (<[i := withTrips tw
               (tw_trips tw ++ [newTrip (length (tw_trips tw) + 1) (tw_truck tw)])]> store)
      order rest.
Proof.
  intros Hi Hc Hfit Hnew. simpl. rewrite Hi. simpl. rewrite Hc. simpl.
  rewrite Hfit. simpl. by rewrite Hnew.
Qed.

(** C10. There are inputs on which the multi-trip pass leaves a trip without
    orders on a truck: a 100 x 100 x 100 truck, an order 150 long and a small
    order.  The long order fits neither trip 1 nor the fresh trip 2, trip 2
    stays, [summary.totalTrips] counts it, and the truck's route time is the
    time of trip 1 plus one depot reload.  In general an order that fits
    neither the current nor a fresh trip of a truck leaves the fresh trip on
    that truck, and a trip without orders appended to a truck's trips adds
    exactly [DEPOT_RELOAD_TIME] to [getTruckTotalRouteTime]. *)
Theorem C10_empty_trip_retained :
  (exists r tw,
      runOptimizationV3 [Fixtures.longOrder; Fixtures.smallOrder] [Fixtures.cubeTruck]
      = Some r
      /\ trucksWithTrips r = [tw]
      /\ tw_trips tw
         = [loadOrderIntoTrip (newTrip 1 Fixtures.cubeTruck) Fixtures.smallOrder;
            newTrip 2 Fixtures.cubeTruck]
      /\ unassignedOrders r = [Fixtures.longOrder]
      /\ totalTrips (summary r) = 2%nat
      /\ getTripRouteTime
           (loadOrderIntoTrip (newTrip 1 Fixtures.cubeTruck) Fixtures.smallOrder) true
         = 100%Z
      /\ tw_totalRouteTime tw = (100 + DEPOT_RELOAD_TIME)%Z)
  /\ (forall store order i rest tw trip,
        store !! i = Some tw -> currentTrip tw = Some trip ->
        canFitInTrip trip order = false ->
        canFitInTrip (newTrip (length (tw_trips tw) + 1) (tw_truck tw)) order = false ->
        multiTripTrucks store order (i :: rest)
        = multiTripTrucks
            (<[i := withTrips tw
                     (tw_trips tw ++ [newTrip (length (tw_trips tw) + 1) (tw_truck tw)])]>
               store) order rest)
  /\ (forall trips trip,
        trips <> [] -> trip_loadedOrders trip = [] ->
        getTruckTotalRouteTime (trips ++ [trip])
        = (getTruckTotalRouteTime trips + DEPOT_RELOAD_TIME)%Z).
Proof.
  split; [|split].
  - eexists. eexists. split; [vm_compute; reflexivity|]. simpl.
    split; [reflexivity|]. repeat split; vm_compute; reflexivity.
  - apply multiTripTrucks_keeps_empty_trip.
  - apply empty_trip_costs_reload.
Qed.

Lemma C10_empty_trip_retained_witness :
  multiTripTrucks [initTruck Fixtures.cubeTruck] Fixtures.longOrder [0%nat]
  = Some ([withTrips (initTruck Fixtures.cubeTruck)
             [newTrip 1 Fixtures.cubeTruck; newTrip 2 Fixtures.cubeTruck]], false)
  /\ getTruckTotalRouteTime [newTrip 1 Fixtures.cubeTruck; newTrip 2 Fixtures.cubeTruck]
     = 30%Z.
Proof.
  destruct C10_empty_trip_retained as (_ & Hkeep & Hcost). split.
  - rewrite (Hkeep [initTruck Fixtures.cubeTruck] Fixtures.longOrder 0%nat []
               (initTruck Fixtures.cubeTruck) (newTrip 1 Fixtures.cubeTruck));
      reflexivity.
  - change [newTrip 1 Fixtures.cubeTruck; newTrip 2 Fixtures.cubeTruck]
      with ([newTrip 1 Fixtures.cubeTruck] ++ [newTrip 2 Fixtures.cubeTruck]).
    rewrite (Hcost [newTrip 1 Fixtures.cubeTruck] (newTrip 2 Fixtures.cubeTruck));
      [reflexivity|discriminate|reflexivity].
Defined.

End EmptyTrips.

(** ** Service time per stop *)
Section ServiceTime.
Import GlobalV3 Spec.

Lemma buildOrderData_needsTwoPeople (row : OrderRow) (items : list ItemRow) :
  order_needsTwoPeople (buildOrderData row items)
  = Js.gt (order_totalWeight (buildOrderData row items)) 50
  /\ order_helpersRequired (buildOrderData row items)
     = default none (row_helpersRequired row).
Proof. done. Qed.

(** C7, as the code has it. The service time of a stop is 15 minutes when
    the order's total weight exceeds 50 kg and 10 minutes otherwise, whatever
    the order's helper requirement; the elapsed time of a trip adds that
    service time once for every loaded order. *)
Theorem C7_service_time_by_weight :
  (forall row items o,
      buildOrderData row items = o ->
      serviceTime o = if Js.gt (order_totalWeight o) 50 then 15%Z else 10%Z)
  /\ (forall trip first rest,
        trip_loadedOrders trip <> [] ->
        optimizeZoneOrder (trip_assignedZones trip) = first :: rest ->
        getTripRouteTime trip false
        = (lookupOr30 ZONE_TRAVEL_TIMES first + interZoneTotal (first :: rest)
           + foldr Z.add 0 (map serviceTime (trip_loadedOrders trip)))%Z).
Proof.
  split.
  - intros row items o <-.
    destruct (buildOrderData_needsTwoPeople row items) as [Hneeds _].
    unfold serviceTime. by rewrite Hneeds.
  - intros trip first rest Hne Hzones. unfold getTripRouteTime.
    destruct (trip_loadedOrders trip) as [|o os] eqn:E; [done|].
    simpl length. simpl Nat.eqb. cbv iota. rewrite Hzones. cbv zeta.
    by rewrite service_fold.
Qed.

Lemma C7_service_time_by_weight_witness :
  (exists o, buildOrderData Fixtures.twoHelperRow [Fixtures.lightItemRow] = o
             /\ serviceTime o = 10%Z)
  /\ getTripRouteTime
       (loadOrderIntoTrip (newTrip 1 Fixtures.cubeTruck) Fixtures.smallOrder) false
     = (45 + 0 + 10)%Z.
Proof.
  destruct C7_service_time_by_weight as [Hweight Htrip]. split.
  - eexists. split; [reflexivity|].
    apply (Hweight Fixtures.twoHelperRow [Fixtures.lightItemRow]). reflexivity.
  - rewrite (Htrip _ "East" []); [reflexivity|discriminate|reflexivity].
Defined.

(** C7 as stated fails: an order of 10 kg whose row asks for two helpers is
    served in 10 minutes, not 15, and its West trip takes 15 + 10 + 15. *)
Lemma C7_counterexample :
  exists o,
    buildOrderData Fixtures.twoHelperRow [Fixtures.lightItemRow] = o
    /\ order_helpersRequired o = two
    /\ order_totalWeight o == 10
    /\ serviceTime o = 10%Z
    /\ claimedServiceTime o = 15%Z
    /\ getTripRouteTime (loadOrderIntoTrip (newTrip 1 Fixtures.cubeTruck) o) true = 40%Z.
Proof.
  eexists. split; [reflexivity|]. repeat split; reflexivity.
Qed.

End ServiceTime.

(** ** The helper budget of the single-trip planner *)
Section HelperBudget.
Import GlobalV1.

(** An order that asks for more helpers than remain is skipped. *)
Lemma assignOrder_skips (st : PlanState) (order : OrderData) :
  (remainingHelpers st < helperCount (order_helpersRequired order))%Z ->
  order_helpersRequired order <> none ->
  assignOrder st order = st.
Proof.
  intros Hlt Hne. unfold assignOrder.
  replace (remainingHelpers st <? helperCount (order_helpersRequired order))%Z
    with true by (symmetry; by apply Z.ltb_lt).
  by destruct (order_helpersRequired order).
Qed.

(** Joining an existing assignment leaves the budget as it was, while the
    crew of that truck may grow. *)
Lemma assignOrder_join_keeps_budget (st : PlanState) (order : OrderData) (i : nat) :
  findAssignment order (assignments st) 0 = Some i ->
  remainingHelpers (assignOrder st order) = remainingHelpers st.
Proof.
  intros Hfind. unfold assignOrder.
  destruct (_ && _); [done|]. by rewrite Hfind.
Qed.

(** C9 at the failing input: with two helpers on duty the planner hands out
    two trucks that need two helpers each. Order 2 joins the truck of order 1
    and raises its crew to two without touching the budget, so order 3 still
    finds two helpers. *)
Theorem C9_helper_budget_exceeded :
  let asgs :=
    assignOrdersToTrucks zoneDistancesSG Fixtures.helperOrders Fixtures.helperTrucks 2 in
  map (fun a => (truck_id (asg_truck a), map order_id (asg_orders a), asg_helpersNeeded a))
    asgs
  = [(1, [1; 2], 2); (2, [3], 2)]%Z
  /\ helpersOfTrucks asgs = 4%Z
  /\ helpersOfOrders asgs = 4%Z.
Proof. repeat split; vm_compute; reflexivity. Qed.

End HelperBudget.

(** ** The packer *)
Section PackerFacts.
Import Packing PackingSpec.

Lemma lt_true (a b : Q) : Js.lt a b = true <-> a < b.
Proof. unfold Js.lt. apply (gt_true b a). Qed.

Lemma lt_false (a b : Q) : Js.lt a b = false <-> b <= a.
Proof. unfold Js.lt. apply (gt_false b a). Qed.

Lemma fits_iff (rot : Rotation) (item : Item) (space : Space) :
  fits rot item space = true <-> fitsIn rot item space.
Proof.
  unfold fits, fitsIn. rewrite !andb_true_iff, !Qle_bool_iff. tauto.
Qed.

Lemma lower_iff (a b : Space) : lower a b = true <-> lexLt a b.
Proof.
  unfold lower, lexLt.
  rewrite !orb_true_iff, !andb_true_iff, !lt_true, !Qeq_bool_iff. tauto.
Qed.

Lemma lexLe_refl (a : Space) : lexLe a a.
Proof. right. repeat split; reflexivity. Qed.

Lemma not_lexLt_lexLe (a b : Space) : ~ lexLt a b -> lexLe b a.
Proof.
  unfold lexLe, lexLt. intros H.
  destruct (Qlt_le_dec (sp_z a) (sp_z b)) as [Hz|Hz]; [tauto|].
  destruct (Qlt_le_dec (sp_z b) (sp_z a)) as [Hz'|Hz']; [tauto|].
  assert (Ez : sp_z a == sp_z b) by lra.
  destruct (Qlt_le_dec (sp_y a) (sp_y b)) as [Hy|Hy]; [tauto|].
  destruct (Qlt_le_dec (sp_y b) (sp_y a)) as [Hy'|Hy'];
    [left; right; left; split; [lra|done]|].
  assert (Ey : sp_y a == sp_y b) by lra.
  destruct (Qlt_le_dec (sp_x a) (sp_x b)) as [Hx|Hx]; [tauto|].
  destruct (Qlt_le_dec (sp_x b) (sp_x a)) as [Hx'|Hx'].
  - left. right. right. repeat split; [lra|lra|done].
  - right. repeat split; lra.
Qed.

Lemma lexLt_lexLe_trans (a b c : Space) : lexLt a b -> lexLe b c -> lexLe a c.
Proof.
  unfold lexLe, lexLt. intros Hab Hbc. left.
  destruct Hab as [H|[[H1 H2]|(H1 & H2 & H3)]];
    destruct Hbc as [[K|[[K1 K2]|(K1 & K2 & K3)]]|(K1 & K2 & K3)];
    first [ left; lra
          | right; left; split; lra
          | right; right; repeat split; lra ].
Qed.

Lemma findBestSpace_scan (rot : Rotation) (item : Item) :
  forall (free seen : list Space) (best : option (nat * Space)),
    bestAmong rot item seen best ->
    bestAmong rot item (seen ++ free)
      (findBestSpace rot item free (length seen) best).
Proof.
  induction free as [|space rest IH]; intros seen best Hbest.
  - simpl. by rewrite app_nil_r.
  - cbn [findBestSpace].
    replace (seen ++ space :: rest) with ((seen ++ [space]) ++ rest)
      by (by rewrite <- app_assoc).
    replace (S (length seen)) with (length (seen ++ [space]))
      by (rewrite length_app; simpl; lia).
    apply IH. destruct (fits rot item space) eqn:Hfit.
    + apply fits_iff in Hfit. destruct best as [[i b]|].
      * destruct Hbest as (Hi & Hb & Hmin).
        destruct (lower space b) eqn:Hlow.
        -- apply lower_iff in Hlow. split; [apply list_lookup_middle; done|].
           split; [done|]. intros sp Hin Hsp.
           apply elem_of_app in Hin as [Hin|Hin].
           ++ eapply lexLt_lexLe_trans; [exact Hlow|]. by apply Hmin.
           ++ apply list_elem_of_singleton in Hin. subst. apply lexLe_refl.
        -- split; [by apply lookup_app_l_Some|]. split; [done|].
           intros sp Hin Hsp. apply elem_of_app in Hin as [Hin|Hin]; [by apply Hmin|].
           apply list_elem_of_singleton in Hin. subst.
           apply not_lexLt_lexLe. intros Hlt. apply lower_iff in Hlt. congruence.
      * split; [apply list_lookup_middle; done|]. split; [done|].
        intros sp Hin Hsp. apply elem_of_app in Hin as [Hin|Hin].
        -- by destruct (Hbest sp Hin).
        -- apply list_elem_of_singleton in Hin. subst. apply lexLe_refl.
    + assert (Hno : ~ fitsIn rot item space).
      { intros H. apply fits_iff in H. congruence. }
      destruct best as [[i b]|].
      * destruct Hbest as (Hi & Hb & Hmin).
        split; [by apply lookup_app_l_Some|]. split; [done|].
        intros sp Hin Hsp. apply elem_of_app in Hin as [Hin|Hin]; [by apply Hmin|].
        apply list_elem_of_singleton in Hin. by subst.
      * intros sp Hin. apply elem_of_app in Hin as [Hin|Hin]; [by apply Hbest|].
        apply list_elem_of_singleton in Hin. by subst.
Qed.

(** The scan returns a fitting free box that is minimal by (z, y, x), or
    nothing when no free box fits. *)
Lemma findBestSpace_spec (rot : Rotation) (item : Item) (free : list Space) :
  bestAmong rot item free (findBestSpace rot item free 0 None).
Proof.
  apply (findBestSpace_scan rot item free [] None). intros sp Hin.
  by apply elem_of_nil in Hin.
Qed.

Lemma splitSpace_spec (rot : Rotation) (item : Item) (i : nat) (space : Space)
    (free : list Space) :
  splitSpace rot item i space free
  = delete i free ++ remainderBoxes rot item space.
Proof.
  unfold splitSpace, remainderBoxes, keepIfPositive.
  repeat match goal with
  | |- context [Js.gt ?a 0] =>
      let E := fresh "E" in
      destruct (Js.gt a 0) eqn:E;
      [apply gt_true in E|apply gt_false in E];
      destruct (Qlt_le_dec 0 a); try lra
  end; reflexivity.
Qed.

Lemma packStep_cases (bin : Bin) (st : PackState) (item : Item) :
  packStep bin st item
  = if Js.gt (totalWeight st + it_weight item) (bin_maxWeight bin)
    then reject item st
    else placeOrReject st item.
Proof.
  unfold packStep, placeOrReject. destruct (Js.gt _ _); [done|].
  unfold rotations, rotation0, rotation90. cbn [tryRotations].
  destruct (findBestSpace _ item (spaces st) 0 None) as [[i sp]|]; [done|].
  destruct (findBestSpace _ item (spaces st) 0 None) as [[i sp]|]; done.
Qed.

Lemma packedWeight_snoc (packed : list PackedItem) (p : PackedItem) :
  packedWeight (packed ++ [p]) == packedWeight packed + it_weight (p_item p).
Proof.
  unfold packedWeight. induction packed as [|q packed IH]; simpl; [lra|].
  rewrite IH. lra.
Qed.

(** The running weight is the weight of the packed items. *)
Lemma packStep_weight_sum (bin : Bin) (st : PackState) (item : Item) :
  totalWeight st == packedWeight (packedItems st) ->
  totalWeight (packStep bin st item) == packedWeight (packedItems (packStep bin st item)).
Proof.
  intros Hsum. rewrite packStep_cases. destruct (Js.gt _ _); [done|].
  unfold placeOrReject.
  destruct (findBestSpace _ item (spaces st) 0 None) as [[i sp]|].
  { simpl. rewrite packedWeight_snoc. simpl. by rewrite Hsum. }
  destruct (findBestSpace _ item (spaces st) 0 None) as [[i sp]|]; [|done].
  simpl. rewrite packedWeight_snoc. simpl. by rewrite Hsum.
Qed.

Lemma packStep_weight_bound (bin : Bin) (st : PackState) (item : Item) :
  totalWeight st <= bin_maxWeight bin ->
  totalWeight (packStep bin st item) <= bin_maxWeight bin.
Proof.
  intros Hle. rewrite packStep_cases.
  destruct (Js.gt _ _) eqn:Hgt; [done|]. apply gt_false in Hgt.
  unfold placeOrReject.
  destruct (findBestSpace _ item (spaces st) 0 None) as [[i sp]|]; [done|].
  destruct (findBestSpace _ item (spaces st) 0 None) as [[i sp]|]; done.
Qed.

Lemma packStep_packed_bound (bin : Bin) (st : PackState) (item : Item) :
  (packedItems st <> [] -> totalWeight st <= bin_maxWeight bin) ->
  packedItems (packStep bin st item) <> [] ->
  totalWeight (packStep bin st item) <= bin_maxWeight bin.
Proof.
  intros Hle. rewrite packStep_cases.
  destruct (Js.gt _ _) eqn:Hgt; [done|]. apply gt_false in Hgt.
  unfold placeOrReject.
  destruct (findBestSpace _ item (spaces st) 0 None) as [[i sp]|]; [done|].
  destruct (findBestSpace _ item (spaces st) 0 None) as [[i sp]|]; done.
Qed.

Lemma packStep_accounts (bin : Bin) (st : PackState) (item : Item)
    (processed : list Item) :
  accountsFor st processed -> accountsFor (packStep bin st item) (processed ++ [item]).
Proof.
  unfold accountsFor. intros Hacc. rewrite packStep_cases.
  assert (Hrej : map p_item (packedItems (reject item st)) ++ unpackedItems (reject item st)
                 ≡ₚ processed ++ [item]).
  { simpl. by rewrite app_assoc, Hacc. }
  assert (Hplace : forall rot i sp,
             map p_item (packedItems (place rot item i sp st))
             ++ unpackedItems (place rot item i sp st) ≡ₚ processed ++ [item]).
  { intros rot i sp. simpl. rewrite map_app. simpl. rewrite <- Hacc.
    rewrite <- !app_assoc. apply Permutation_app_head. apply Permutation_app_comm. }
  destruct (Js.gt _ _); [done|]. unfold placeOrReject.
  destruct (findBestSpace _ item (spaces st) 0 None) as [[i sp]|]; [done|].
  destruct (findBestSpace _ item (spaces st) 0 None) as [[i sp]|]; done.
Qed.

Lemma packLoop_invariants (bin : Bin) (items : list Item) :
  totalWeight (packLoop bin items) == packedWeight (packedItems (packLoop bin items))
  /\ (0 <= bin_maxWeight bin -> totalWeight (packLoop bin items) <= bin_maxWeight bin)
  /\ accountsFor (packLoop bin items) items.
Proof.
  unfold packLoop.
  assert (H : forall (todo processed : list Item) (st : PackState),
             totalWeight st == packedWeight (packedItems st) ->
             accountsFor st processed ->
             let st' := fold_left (packStep bin) todo st in
             totalWeight st' == packedWeight (packedItems st')
             /\ (totalWeight st <= bin_maxWeight bin -> totalWeight st' <= bin_maxWeight bin)
             /\ accountsFor st' (processed ++ todo)).
  { induction todo as [|item todo IH]; intros processed st Hsum Hacc; simpl.
    - by rewrite app_nil_r.
    - destruct (IH (processed ++ [item]) (packStep bin st item)) as (H1 & H2 & H3).
      + by apply packStep_weight_sum.
      + by apply packStep_accounts.
      + split; [done|]. split.
        * intros Hle. by apply H2, packStep_weight_bound.
        * by rewrite <- app_assoc in H3. }
  destruct (H (Js.sort byVolumeDesc items) [] (initState bin)) as (H1 & H2 & H3);
    [simpl; reflexivity|unfold accountsFor; simpl; reflexivity|].
  split; [done|]. split; [done|].
  unfold accountsFor in *. simpl in H3. by rewrite H3, sort_Permutation.
Qed.

Lemma packLoop_packed_bound (bin : Bin) (items : list Item) :
  packedItems (packLoop bin items) <> [] ->
  totalWeight (packLoop bin items) <= bin_maxWeight bin.
Proof.
  unfold packLoop.
  assert (H : forall (todo : list Item) (st : PackState),
             (packedItems st <> [] -> totalWeight st <= bin_maxWeight bin) ->
             packedItems (fold_left (packStep bin) todo st) <> [] ->
             totalWeight (fold_left (packStep bin) todo st) <= bin_maxWeight bin).
  { induction todo as [|item todo IH]; intros st Hst; simpl; [done|].
    apply IH. by apply packStep_packed_bound. }
  apply H. done.
Qed.

Lemma packed_from_input (bin : Bin) (items : list Item) (p : PackedItem) :
  p ∈ packedItems (packLoop bin items) -> p_item p ∈ items.
Proof.
  intros Hin. destruct (packLoop_invariants bin items) as (_ & _ & Hacc).
  unfold accountsFor in Hacc. rewrite <- Hacc. apply elem_of_app. left.
  apply list_elem_of_In, in_map, list_elem_of_In, Hin.
Qed.

End PackerFacts.

(** ** The weight limit of the packer *)
Section PackerWeight.
Import Packing PackingSpec.

Lemma packedWeight_const (packed : list PackedItem) (w : Q) :
  Forall (fun p => it_weight (p_item p) == w) packed ->
  packedWeight packed == inject_Z (Z.of_nat (length packed)) * w.
Proof.
  unfold packedWeight. induction 1 as [|p packed Hp Hrest IH].
  - simpl. change (inject_Z 0) with 0. ring.
  - cbn [foldr length]. rewrite IH, Hp, Nat2Z.inj_succ.
    unfold Z.succ. rewrite inject_Z_plus. change (inject_Z 1) with 1. ring.
Qed.

Lemma overweight_rejected (bin : Bin) (st : PackState) (item : Item) :
  bin_maxWeight bin < totalWeight st + it_weight item ->
  packStep bin st item = reject item st.
Proof.
  intros Hover. rewrite packStep_cases.
  replace (Js.gt (totalWeight st + it_weight item) (bin_maxWeight bin)) with true; [done|].
  symmetry. by apply gt_true.
Qed.

(** C2. The weights of the packed items sum to the reported [totalWeight];
    they sum to at most [bin.maxWeight] whenever an item is packed, and
    whatever is packed when [maxWeight] is not negative; an item that would push the running weight above
    [bin.maxWeight] goes to [unpackedItems] with the free boxes and the packed
    items untouched.  With [maxWeight] 25 and three items of 10 kg at most two
    are packed; in the 200 x 400 x 200 bin of the tests, with 50 x 50 x 50
    items, exactly two are packed and one is unpacked. *)
Theorem C2_packed_weight_within_limit :
  (forall items bin,
      res_totalWeight (packItems items bin)
      == packedWeight (res_packedItems (packItems items bin))
      /\ (res_packedItems (packItems items bin) <> [] ->
          packedWeight (res_packedItems (packItems items bin)) <= bin_maxWeight bin)
      /\ (0 <= bin_maxWeight bin ->
          packedWeight (res_packedItems (packItems items bin)) <= bin_maxWeight bin))
  /\ (forall bin st item,
        bin_maxWeight bin < totalWeight st + it_weight item ->
        spaces (packStep bin st item) = spaces st
        /\ packedItems (packStep bin st item) = packedItems st
        /\ unpackedItems (packStep bin st item) = unpackedItems st ++ [item])
  /\ (forall bin a b c,
        bin_maxWeight bin == 25 ->
        it_weight a == 10 -> it_weight b == 10 -> it_weight c == 10 ->
        (length (res_packedItems (packItems [a; b; c] bin)) <= 2)%nat
        /\ (length (res_packedItems (packItems [a; b; c] bin))
            + length (res_unpackedItems (packItems [a; b; c] bin)) = 3)%nat)
  /\ (length (res_packedItems (packItems Fixtures.threeTens Fixtures.lightBin)) = 2%nat
      /\ length (res_unpackedItems (packItems Fixtures.threeTens Fixtures.lightBin)) = 1%nat
      /\ res_totalWeight (packItems Fixtures.threeTens Fixtures.lightBin) <= 25).
Proof.
  split; [|split; [|split]].
  - intros items bin. simpl.
    destruct (packLoop_invariants bin items) as (Hsum & Hle & _).
    split; [done|]. split.
    + intros Hpacked. rewrite <- Hsum. by apply packLoop_packed_bound.
    + intros Hmax. rewrite <- Hsum. by apply Hle.
  - intros bin st item Hover. by rewrite overweight_rejected.
  - intros bin a b c Hmax Ha Hb Hc. simpl.
    destruct (packLoop_invariants bin [a; b; c]) as (Hsum & Hle & Hacc).
    assert (Hlen : (length (packedItems (packLoop bin [a; b; c]))
                    + length (unpackedItems (packLoop bin [a; b; c])) = 3)%nat).
    { apply Permutation_length in Hacc.
      by rewrite length_app, length_map in Hacc. }
    split; [|done].
    assert (Hw : Forall (fun p => it_weight (p_item p) == 10)
                   (packedItems (packLoop bin [a; b; c]))).
    { apply Forall_forall. intros p Hp. apply packed_from_input in Hp.
      repeat (apply elem_of_cons in Hp as [->|Hp]; [done|]).
      by apply elem_of_nil in Hp. }
    apply packedWeight_const in Hw. rewrite <- Hsum in Hw.
    assert (Hbound : totalWeight (packLoop bin [a; b; c]) <= 25).
    { rewrite <- Hmax. apply Hle. rewrite Hmax. lra. }
    destruct (le_lt_dec (length (packedItems (packLoop bin [a; b; c]))) 2)
      as [Hok|Hbig]; [done|exfalso].
    assert (H3 : inject_Z 3 <= inject_Z (Z.of_nat (length (packedItems (packLoop bin [a; b; c]))))).
    { rewrite <- Zle_Qle. lia. }
    rewrite Hw in Hbound. change (inject_Z 3) with 3 in H3. nra.
  - repeat split; try reflexivity. apply Qle_bool_iff. reflexivity.
Qed.

Lemma C2_packed_weight_within_limit_witness :
  packedWeight (res_packedItems (packItems Fixtures.threeTens Fixtures.lightBin)) <= 25
  /\ unpackedItems
       (packStep Fixtures.lightBin
          (fold_left (packStep Fixtures.lightBin)
             [Fixtures.itemOf 1 50 50 50 10; Fixtures.itemOf 2 50 50 50 10]
             (initState Fixtures.lightBin))
          (Fixtures.itemOf 3 50 50 50 10))
     = [Fixtures.itemOf 3 50 50 50 10]
  /\ (length (res_packedItems (packItems Fixtures.threeTens Fixtures.lightBin)) <= 2)%nat.
Proof.
  destruct C2_packed_weight_within_limit as (Hlimit & Hreject & Hthree & _).
  split; [|split].
  - apply (proj2 (proj2 (Hlimit Fixtures.threeTens Fixtures.lightBin))).
    apply Qle_bool_iff. reflexivity.
  - apply Hreject. apply (proj1 (gt_true _ _)). reflexivity.
  - apply (Hthree Fixtures.lightBin); reflexivity.
Defined.

(** C2 as stated fails for a bin whose weight limit is negative: every item
    is turned away by the weight check, and the weights of the packed
    items, none, sum to 0, which is above the limit of -1. *)
Lemma C2_counterexample :
  res_packedItems (packItems Fixtures.threeTens Fixtures.negativeBin) = []
  /\ length (res_unpackedItems (packItems Fixtures.threeTens Fixtures.negativeBin)) = 3%nat
  /\ ~ packedWeight (res_packedItems (packItems Fixtures.threeTens Fixtures.negativeBin))
        <= bin_maxWeight Fixtures.negativeBin.
Proof.
  split; [reflexivity|]. split; [reflexivity|]. intros H.
  apply Qle_bool_iff in H. vm_compute in H. discriminate H.
Qed.

End PackerWeight.

(** ** Placement order of the packer *)
Section PackerPlacement.
Import Packing PackingSpec.

Lemma StronglySorted_impl {A : Type} (R1 R2 : A -> A -> Prop) (l : list A) :
  (forall a b, R1 a b -> R2 a b) -> StronglySorted R1 l -> StronglySorted R2 l.
Proof.
  intros Himp. induction 1 as [|x l Hs IH Hx]; constructor; [done|].
  eapply Forall_impl; [exact Hx|]. intros y. apply Himp.
Qed.








Lemma specStep_accounts (bin : Bin) (st st' : PackState) (item : Item) :
  specStep bin st item st' ->
  (length (packedItems st') + length (unpackedItems st')
   = S (length (packedItems st) + length (unpackedItems st)))%nat.
Proof.
  destruct 1; simpl; rewrite length_app; simpl; lia.
Qed.



End PackerPlacement.

(** ** Centre of gravity and balance *)
Section CenterOfGravity.
Import Packing PackingSpec.






End CenterOfGravity.

(** ** Sections of the load plan *)
Section LoadPlan.
Import GlobalV3 Spec.

Lemma assignSections_spec (truck : TruckData) (k : nat) :
  forall (units : list LoadUnit) (i : nat) (b m f : list LoadUnit),
    assignSections k i units (sectionsWith truck b m f)
    = sectionsWith truck
        (b ++ take (k - i) units)
        (m ++ take (k * 2 - Nat.max i k) (drop (k - i) units))
        (f ++ drop (k * 2 - i) units).
Proof.
  induction units as [|u rest IH]; intros i b m f.
  - cbn [assignSections]. by rewrite !drop_nil, !take_nil, !app_nil_r.
  - cbn [assignSections]. unfold sectionIndex.
    destruct (Nat.ltb_spec i k) as [Hik|Hik].
    + change (pushUnit back u (sectionsWith truck b m f))
        with (sectionsWith truck (b ++ [u]) m f).
      rewrite IH.
      replace (k - i)%nat with (S (k - S i)) by lia.
      replace (k * 2 - i)%nat with (S (k * 2 - S i)) by lia.
      replace (Nat.max (S i) k) with k by lia.
      replace (Nat.max i k) with k by lia.
      simpl. by rewrite <- app_assoc.
    + destruct (Nat.ltb_spec i (k * 2)) as [Hi2|Hi2].
      * change (pushUnit middle u (sectionsWith truck b m f))
          with (sectionsWith truck b (m ++ [u]) f).
        rewrite IH.
        replace (k - i)%nat with 0%nat by lia.
        replace (k - S i)%nat with 0%nat by lia.
        replace (Nat.max (S i) k) with (S i) by lia.
        replace (Nat.max i k) with i by lia.
        replace (k * 2 - i)%nat with (S (k * 2 - S i)) by lia.
        simpl. by rewrite <- app_assoc.
      * change (pushUnit front u (sectionsWith truck b m f))
          with (sectionsWith truck b m (f ++ [u])).
        rewrite IH.
        replace (k - i)%nat with 0%nat by lia.
        replace (k - S i)%nat with 0%nat by lia.
        replace (k * 2 - Nat.max i k)%nat with 0%nat by lia.
        replace (k * 2 - Nat.max (S i) k)%nat with 0%nat by lia.
        replace (k * 2 - i)%nat with 0%nat by lia.
        replace (k * 2 - S i)%nat with 0%nat by lia.
        simpl. by rewrite <- app_assoc.
Qed.

Lemma sectionsOf_spec (trip : TruckTrip) (route : list RouteStop) (truck : TruckData) :
  sectionsOf trip route truck
  = sectionsWith truck
      (take (Js.ceilThird (length (sortedUnits trip route))) (sortedUnits trip route))
      (take (Js.ceilThird (length (sortedUnits trip route)))
         (drop (Js.ceilThird (length (sortedUnits trip route))) (sortedUnits trip route)))
      (drop (Js.ceilThird (length (sortedUnits trip route)) * 2) (sortedUnits trip route)).
Proof.
  unfold sectionsOf.
  change (emptySections truck) with (sectionsWith truck [] [] []).
  rewrite assignSections_spec. simpl.
  rewrite !Nat.sub_0_r.
  by replace (Js.ceilThird (length (sortedUnits trip route)) * 2
              - Js.ceilThird (length (sortedUnits trip route)))%nat
    with (Js.ceilThird (length (sortedUnits trip route))) by lia.
Qed.

Lemma sorted_by_sequence (units : list LoadUnit) :
  StronglySorted (fun a b => (unit_sequence b <= unit_sequence a)%nat)
    (Js.sort bySequenceDesc units).
Proof.
  apply (StronglySorted_impl (fun a b => bySequenceDesc a b = true)).
  - unfold bySequenceDesc. intros a b H. apply Z.leb_le in H. lia.
  - apply sort_sorted; unfold bySequenceDesc.
    + intros x y H. apply Z.leb_gt in H. apply Z.leb_le. lia.
    + intros x y z Hxy Hyz. apply Z.leb_le in Hxy, Hyz. apply Z.leb_le. lia.
Qed.

Lemma ceilThird_spec (n : nat) :
  (n <= 3 * Js.ceilThird n)%nat /\ (3 * Js.ceilThird n < n + 3)%nat.
Proof.
  unfold Js.ceilThird. pose proof (Nat.div_mod_eq (n + 2) 3) as H.
  pose proof (Nat.mod_upper_bound (n + 2) 3) as Hm. lia.
Qed.

Lemma placeUnit_entries (P : LoadPlanItem -> Prop) (truck : TruckData)
    (section : TruckSection) (st : Cursor * list LoadPlanItem) (u : LoadUnit) :
  Forall P (snd st) ->
  (forall e, lp_placement e = section_name section ->
             lp_orderItemId e = item_id (unit_item u) ->
             lp_orderId e = unit_orderId u -> P e) ->
  Forall P (snd (placeUnit truck section st u)).
Proof.
  destruct st as [c loadPlan]. intros Hold Hnew. unfold placeUnit.
  destruct (Js.gt (currentZ _ + _) (truck_height truck)); simpl; [done|].
  apply Forall_app. split; [done|]. constructor; [|constructor]. by apply Hnew.
Qed.

Lemma packSection_entries (P : LoadPlanItem -> Prop) (truck : TruckData)
    (section : TruckSection) (loadPlan : list LoadPlanItem) :
  Forall P loadPlan ->
  (forall u e, u ∈ section_items section ->
               lp_placement e = section_name section ->
               lp_orderItemId e = item_id (unit_item u) ->
               lp_orderId e = unit_orderId u -> P e) ->
  Forall P (packSection truck loadPlan section).
Proof.
  intros Hold Hnew. unfold packSection.
  assert (H : forall (units : list LoadUnit) (st : Cursor * list LoadPlanItem),
             (forall u, u ∈ units -> u ∈ section_items section) ->
             Forall P (snd st) ->
             Forall P (snd (fold_left (placeUnit truck section) units st))).
  { induction units as [|u units IH]; intros st Hsub Hst; simpl; [done|].
    apply IH; [intros v Hv; apply Hsub; by right|].
    apply placeUnit_entries; [done|]. intros e. apply Hnew, Hsub. left. }
  apply H; [|done]. intros u Hu. by rewrite sort_Permutation in Hu.
Qed.

Lemma generateLoadPlan_entries (trip : TruckTrip) (route : list RouteStop)
    (truck : TruckData) :
  Forall (fromSection (sectionsOf trip route truck)) (generateLoadPlan trip route truck).
Proof.
  unfold generateLoadPlan.
  assert (H : forall (rest : list TruckSection) (loadPlan : list LoadPlanItem),
             (forall s, s ∈ rest -> s ∈ sectionsOf trip route truck) ->
             Forall (fromSection (sectionsOf trip route truck)) loadPlan ->
             Forall (fromSection (sectionsOf trip route truck))
               (fold_left (packSection truck) rest loadPlan)).
  { induction rest as [|s rest IH]; intros loadPlan Hsub Hold; simpl; [done|].
    apply IH; [intros s' Hs'; apply Hsub; by right|].
    apply packSection_entries; [done|]. intros u e Hu Hp Hi Ho.
    exists s, u. split; [apply Hsub; left|done]. }
  apply H; [done|constructor].
Qed.

(** C8, as the code has it. [generateLoadPlan] sorts the expanded units by
    descending stop sequence and cuts the sorted list at [ceil(n/3)] and
    [2 * ceil(n/3)]: the first [ceil(n/3)] units go to back, the next (at
    most) [ceil(n/3)] to middle and the rest, possibly none, to front; the
    three sections are Y-bands of one third of the depth each; when [n] is a
    multiple of three the groups have equal size; and every entry of the
    load plan is labelled with the section its unit was put in. *)
Theorem C8_sections_by_ceiling_thirds :
  forall trip route truck,
    let units := sortedUnits trip route in
    let k := Js.ceilThird (length units) in
    units ≡ₚ collectUnits trip route
    /\ StronglySorted (fun a b => (unit_sequence b <= unit_sequence a)%nat) units
    /\ (length units <= 3 * k /\ 3 * k < length units + 3)%nat
    /\ sectionsOf trip route truck
       = sectionsWith truck (take k units) (take k (drop k units)) (drop (k * 2) units)
    /\ Forall (fun s => section_endY s - section_startY s == truck_depth truck / 3)
         (sectionsOf trip route truck)
    /\ (forall m, length units = (3 * m)%nat ->
          length (take k units) = m /\ length (take k (drop k units)) = m
          /\ length (drop (k * 2) units) = m)
    /\ Forall (fromSection (sectionsOf trip route truck))
         (generateLoadPlan trip route truck).
Proof.
  intros trip route truck units k.
  pose proof (ceilThird_spec (length units)) as Hk. fold k in Hk.
  split; [apply sort_Permutation|]. split; [apply sorted_by_sequence|].
  split; [done|]. split; [apply sectionsOf_spec|]. split; [|split].
  - rewrite sectionsOf_spec. unfold sectionsWith.
    repeat constructor; simpl; field.
  - intros m Hm. rewrite !length_take, !length_drop. lia.
  - apply generateLoadPlan_entries.
Qed.

Lemma C8_sections_by_ceiling_thirds_witness :
  length (take 1 (sortedUnits Fixtures.tripleTrip Fixtures.lampRoute)) = 1%nat
  /\ length (take 1 (drop 1 (sortedUnits Fixtures.tripleTrip Fixtures.lampRoute))) = 1%nat
  /\ length (drop 2 (sortedUnits Fixtures.tripleTrip Fixtures.lampRoute)) = 1%nat.
Proof.
  destruct (C8_sections_by_ceiling_thirds Fixtures.tripleTrip Fixtures.lampRoute
              Fixtures.cubeTruck) as (_ & _ & _ & _ & _ & Hequal & _).
  apply (Hequal 1%nat). reflexivity.
Defined.

(** C8 as stated fails. A trip whose only order has one unit puts that
    unit, the first stop's, in the back section and leaves middle and front
    empty; with two stops of two units each, the first stop's units go to
    the middle section and front stays empty. *)
Lemma C8_counterexample :
  (sequenceOf Fixtures.lampRoute Fixtures.lampOrder = 1%nat
   /\ map (fun s => (section_name s, length (section_items s)))
        (sectionsOf Fixtures.lampTrip Fixtures.lampRoute Fixtures.cubeTruck)
      = [(back, 1%nat); (middle, 0%nat); (front, 0%nat)]
   /\ map (fun e => (lp_orderId e, lp_placement e))
        (generateLoadPlan Fixtures.lampTrip Fixtures.lampRoute Fixtures.cubeTruck)
      = [(7%Z, back)])
  /\ (map (fun s => (section_name s, map unit_orderId (section_items s)))
        (sectionsOf Fixtures.pairTrip Fixtures.pairRoute Fixtures.cubeTruck)
      = [(back, [8; 8]%Z); (middle, [7; 7]%Z); (front, [])]
      /\ map (fun e => (lp_orderId e, lp_placement e))
           (generateLoadPlan Fixtures.pairTrip Fixtures.pairRoute Fixtures.cubeTruck)
         = [(8%Z, back); (8%Z, back); (7%Z, middle); (7%Z, middle)]).
Proof. repeat split; vm_compute; reflexivity. Qed.

End LoadPlan.

(** ** The packer: every item accounted for, inside the bin, no overlap *)
Section PackerGeometry.
Import Packing PackingSpec CoverageSpec.

(** X1. [packItems] neither loses nor duplicates an item: the packed items and
    the unpacked ones are together a rearrangement of the input. *)
Theorem packItems_partition (items : list Item) (bin : Bin) :
  map p_item (res_packedItems (packItems items bin))
  ++ res_unpackedItems (packItems items bin) ≡ₚ items
  /\ (length (res_packedItems (packItems items bin))
      + length (res_unpackedItems (packItems items bin)) = length items)%nat
  /\ (success (packItems items bin) = true
      <-> map p_item (res_packedItems (packItems items bin)) ≡ₚ items).
Proof.
  destruct (packLoop_invariants bin items) as (_ & _ & Hacc).
  unfold accountsFor in Hacc. simpl. split; [done|]. split.
  - apply Permutation_length in Hacc. by rewrite length_app, length_map in Hacc.
  - destruct (unpackedItems (packLoop bin items)) as [|u us] eqn:E; simpl.
    + rewrite app_nil_r in Hacc. done.
    + split; [done|]. intros Hperm. exfalso.
      apply Permutation_length in Hacc, Hperm.
      rewrite length_app in Hacc. simpl in Hacc. lia.
Qed.

Lemma apart_sym (a b : Space) : apart a b -> apart b a.
Proof. unfold apart. tauto. Qed.

Lemma within_trans (a b c : Space) : within a b -> within b c -> within a c.
Proof. unfold within. intros H1 H2. repeat split; lra. Qed.

Lemma within_apart (outer inner other : Space) :
  within outer inner -> apart outer other -> apart inner other.
Proof. unfold within, apart. intros Hin Hap. lra. Qed.

Lemma allApart_Permutation (l l' : list Space) :
  l ≡ₚ l' -> allApart l -> allApart l'.
Proof.
  induction 1 as [|x l l' Hp IH|x y l|l l' l'' Hp1 IH1 Hp2 IH2]; simpl.
  - done.
  - intros [Hx Hl]. split; [by rewrite <- Hp|by apply IH].
  - intros [Hy [Hx Hl]]. apply Forall_cons in Hy as [Hyx Hy].
    split; [|done]. constructor; [by apply apart_sym|done].
  - intros H. by apply IH2, IH1.
Qed.

Lemma allApart_app_l (l1 l2 : list Space) : allApart (l1 ++ l2) -> allApart l1.
Proof.
  induction l1 as [|x l1 IH]; simpl; [done|]. intros [Hx Hl].
  apply Forall_app in Hx as [Hx _]. split; [done|by apply IH].
Qed.

(** Boxes cut out of one box of a non-overlapping family, themselves not
    overlapping, can take its place. *)
Lemma allApart_replace (sp : Space) (news rest : list Space) :
  allApart (sp :: rest) -> Forall (within sp) news -> allApart news ->
  allApart (news ++ rest).
Proof.
  intros [Hsp Hrest]. induction news as [|n news IH]; intros Hin Hnews; simpl; [done|].
  apply Forall_cons in Hin as [Hn Hin]. destruct Hnews as [Hnn Hnews].
  split; [|by apply IH]. apply Forall_app. split; [done|].
  eapply Forall_impl; [exact Hsp|]. intros other. by apply within_apart.
Qed.

(** The item and the remainders it leaves lie in the chosen free box and
    do not overlap. *)
Lemma place_boxes (rot : Rotation) (item : Item) (space : Space) (p : PackedItem) :
  fitsIn rot item space ->
  0 <= rot_length rot -> 0 <= rot_width rot -> 0 <= it_height item ->
  itemBox p
  = {| sp_x := sp_x space; sp_y := sp_y space; sp_z := sp_z space;
       sp_w := rot_length rot; sp_d := rot_width rot; sp_h := it_height item |} ->
  Forall (within space) (itemBox p :: remainderBoxes rot item space)
  /\ allApart (itemBox p :: remainderBoxes rot item space).
Proof.
  intros (Hw & Hd & Hh) Hl Hwd Hht ->.
  unfold remainderBoxes, keepIfPositive.
  destruct (Qlt_le_dec 0 (sp_w space - rot_length rot));
    destruct (Qlt_le_dec 0 (sp_d space - rot_width rot));
    destruct (Qlt_le_dec 0 (sp_h space - it_height item));
    simpl; split;
    repeat first [ apply List.Forall_nil | apply List.Forall_cons | split ];
    unfold within, apart; simpl; try exact I; try lra.
Qed.

Lemma place_geometry (bin : Bin) (rot : Rotation) (item : Item) (i : nat)
    (space : Space) (st : PackState) :
  geometryOk bin st ->
  spaces st !! i = Some space -> fitsIn rot item space ->
  0 <= rot_length rot -> 0 <= rot_width rot -> 0 <= it_height item ->
  geometryOk bin (place rot item i space st).
Proof.
  intros [Hin Hap] Hi Hfit Hl Hw Hh.
  set (p := {| p_item := item; p_x := sp_x space; p_y := sp_y space; p_z := sp_z space;
               p_rotation := rot_rotation rot; p_rotatedLength := rot_length rot;
               p_rotatedWidth := rot_width rot |}).
  destruct (place_boxes rot item space p Hfit Hl Hw Hh eq_refl) as [Hnin Hnap].
  assert (Hold : map itemBox (packedItems st) ++ spaces st
                 ≡ₚ space :: (map itemBox (packedItems st) ++ delete i (spaces st))).
  { rewrite (delete_Permutation (spaces st) i space Hi) at 1.
    by rewrite Permutation_middle. }
  assert (Hnew : map itemBox (packedItems (place rot item i space st))
                 ++ spaces (place rot item i space st)
                 ≡ₚ (itemBox p :: remainderBoxes rot item space)
                    ++ (map itemBox (packedItems st) ++ delete i (spaces st))).
  { simpl. rewrite splitSpace_spec, map_app. simpl. fold p.
    rewrite <- !app_assoc. simpl.
    rewrite (Permutation_app_comm (delete i (spaces st))).
    rewrite <- Permutation_middle. apply perm_skip.
    rewrite !app_assoc. apply Permutation_app_tail, Permutation_app_comm. }
  rewrite Hold in Hin. apply (allApart_Permutation _ _ Hold) in Hap.
  apply Forall_cons in Hin as [Hsp Hrest].
  unfold geometryOk. split.
  - rewrite Hnew. apply Forall_app. split; [|done].
    eapply Forall_impl; [exact Hnin|]. intros b. by apply within_trans.
  - apply (allApart_Permutation _ _ (Permutation_sym Hnew)).
    by apply (allApart_replace space).
Qed.

Lemma packStep_geometry (bin : Bin) (st : PackState) (item : Item) :
  itemSized item -> geometryOk bin st -> geometryOk bin (packStep bin st item).
Proof.
  intros (Hl & Hw & Hh) Hok. rewrite packStep_cases. destruct (Js.gt _ _); [done|].
  unfold placeOrReject.
  pose proof (findBestSpace_spec (rotation0 item) item (spaces st)) as H0.
  destruct (findBestSpace (rotation0 item) item (spaces st) 0 None) as [[i sp]|].
  { destruct H0 as (Hi & Hfit & _). by apply place_geometry. }
  pose proof (findBestSpace_spec (rotation90 item) item (spaces st)) as H90.
  destruct (findBestSpace (rotation90 item) item (spaces st) 0 None) as [[i sp]|]; [|done].
  destruct H90 as (Hi & Hfit & _). by apply place_geometry.
Qed.

Lemma packLoop_geometry (bin : Bin) (items : list Item) :
  Forall itemSized items -> geometryOk bin (packLoop bin items).
Proof.
  intros Hsized. unfold packLoop.
  assert (H : forall (todo : list Item) (st : PackState),
             Forall itemSized todo -> geometryOk bin st ->
             geometryOk bin (fold_left (packStep bin) todo st)).
  { induction todo as [|item todo IH]; intros st Htodo Hst; simpl; [done|].
    apply Forall_cons in Htodo as [Hitem Htodo].
    apply IH; [done|]. by apply packStep_geometry. }
  apply H; [by rewrite sort_Permutation|].
  unfold geometryOk. simpl. split.
  - constructor; [|constructor]. unfold within, binBox. simpl. repeat split; lra.
  - done.
Qed.

(** X2. For items without negative dimensions, every packed item lies inside
    the bin and no two packed items overlap. *)
Theorem packItems_inside_and_disjoint (items : list Item) (bin : Bin) :
  Forall itemSized items ->
  Forall (within (binBox bin)) (map itemBox (res_packedItems (packItems items bin)))
  /\ allApart (map itemBox (res_packedItems (packItems items bin))).
Proof.
  intros Hsized. destruct (packLoop_geometry bin items Hsized) as [Hin Hap]. simpl.
  apply Forall_app in Hin as [Hin _]. split; [done|]. by eapply allApart_app_l.
Qed.

Lemma packItems_inside_and_disjoint_witness :
  Forall (within (binBox Fixtures.lightBin))
    (map itemBox (res_packedItems (packItems Fixtures.threeTens Fixtures.lightBin)))
  /\ allApart (map itemBox (res_packedItems (packItems Fixtures.threeTens Fixtures.lightBin))).
Proof.
  apply (packItems_inside_and_disjoint Fixtures.threeTens Fixtures.lightBin).
  repeat constructor; apply Qle_bool_iff; reflexivity.
Defined.

Lemma packedVolume_snoc (packed : list PackedItem) (p : PackedItem) :
  packedVolume (packed ++ [p]) == packedVolume packed + it_volume (p_item p).
Proof.
  unfold packedVolume. induction packed as [|q packed IH]; simpl; [lra|].
  rewrite IH. lra.
Qed.

Lemma packStep_volume_sum (bin : Bin) (st : PackState) (item : Item) :
  totalVolume st == packedVolume (packedItems st) ->
  totalVolume (packStep bin st item) == packedVolume (packedItems (packStep bin st item)).
Proof.
  intros Hsum. rewrite packStep_cases. destruct (Js.gt _ _); [done|].
  unfold placeOrReject.
  destruct (findBestSpace _ item (spaces st) 0 None) as [[i sp]|].
  { simpl. rewrite packedVolume_snoc. simpl. by rewrite Hsum. }
  destruct (findBestSpace _ item (spaces st) 0 None) as [[i sp]|]; [|done].
  simpl. rewrite packedVolume_snoc. simpl. by rewrite Hsum.
Qed.

(** X3. The reported [usedVolume] is the volume of the packed items. *)
Theorem packItems_used_volume (items : list Item) (bin : Bin) :
  res_usedVolume (packItems items bin)
  == packedVolume (res_packedItems (packItems items bin)).
Proof.
  simpl. unfold packLoop.
  assert (H : forall (todo : list Item) (st : PackState),
             totalVolume st == packedVolume (packedItems st) ->
             totalVolume (fold_left (packStep bin) todo st)
             == packedVolume (packedItems (fold_left (packStep bin) todo st))).
  { induction todo as [|item todo IH]; intros st Hst; simpl; [done|].
    apply IH. by apply packStep_volume_sum. }
  apply H. simpl. reflexivity.
Qed.

(** In double precision too, the origin is further than 0.3 of a positive
    width from the middle of that width. *)
Lemma origin_off_middle (w : Q) :
  0 < w ->
  ~ Qabs (Js.double (0 - Js.double (w / 2))) <= Js.double (w * Js.double_0_3).
Proof.
  intros Hw Hle.
  change (w / 2) with (w * (1 # 2)) in Hle.
  assert (Hhalf : 0 < w * (1 # 2)) by lra.
  rewrite (double_pos _ Hhalf) in Hle.
  pose proof (nearest53_rel _ Hhalf) as [Hh _].
  set (h := Js.nearest53 (w * (1 # 2))) in *. clearbody h.
  assert (Hneg : 0 - h < 0) by lra.
  rewrite (double_neg _ Hneg) in Hle.
  assert (Hpos : 0 < - (0 - h)) by lra.
  pose proof (nearest53_rel _ Hpos) as [Hn _].
  set (n := Js.nearest53 (- (0 - h))) in *. clearbody n.
  rewrite Qabs_opp, Qabs_pos in Hle by lra.
  unfold Js.double_0_3 in Hle.
  assert (Htol : 0 < w * (5404319552844595 # 18014398509481984)) by lra.
  rewrite (double_pos _ Htol) in Hle.
  pose proof (nearest53_rel _ Htol) as [_ Ht].
  set (t := Js.nearest53 (w * (5404319552844595 # 18014398509481984))) in *. clearbody t.
  lra.
Qed.

(** X4. A load of zero total weight, the empty load among them, has its centre
    of gravity at the origin and is reported as not balanced in a bin of
    positive width or depth. *)
Theorem packItems_weightless_unbalanced (items : list Item) (bin : Bin) :
  res_totalWeight (packItems items bin) == 0 ->
  0 < bin_width bin \/ 0 < bin_depth bin ->
  centerOfGravity (packItems items bin) = (0, 0, 0)
  /\ isBalanced (packItems items bin) = false.
Proof.
  intros Hzero Hpos. simpl in *.
  assert (Hcog : centerOfGravityOf (packedItems (packLoop bin items))
                   (totalWeight (packLoop bin items)) = (0, 0, 0)).
  { unfold centerOfGravityOf.
    replace (Js.gt (totalWeight (packLoop bin items)) 0) with false; [done|].
    symmetry. apply gt_false. lra. }
  rewrite Hcog. split; [done|]. unfold isBalancedOf.
  apply andb_false_iff.
  destruct Hpos as [Hw|Hd]; [left|right];
    match goal with |- Qle_bool ?a ?b = false =>
      destruct (Qle_bool a b) eqn:E; [|done]; apply Qle_bool_iff in E
    end; exfalso.
  - by apply (origin_off_middle (bin_width bin)).
  - by apply (origin_off_middle (bin_depth bin)).
Qed.

Lemma packItems_weightless_unbalanced_witness :
  centerOfGravity (packItems [] Fixtures.bigBin) = (0, 0, 0)
  /\ isBalanced (packItems [] Fixtures.bigBin) = false.
Proof.
  apply (packItems_weightless_unbalanced [] Fixtures.bigBin).
  - reflexivity.
  - left. reflexivity.
Defined.

End PackerGeometry.

(** ** Zones and travel times *)
Section ZoneTables.
Import GlobalV3.

Lemma lookupOr30_bounds (table : gmap string Z) (entries : list (string * Z))
    (lo hi : Z) (key : string) :
  table = list_to_map entries ->
  Forall (fun e => (lo <= snd e <= hi)%Z /\ snd e <> 0%Z) entries ->
  (lo <= 30 <= hi)%Z ->
  (lo <= lookupOr30 table key <= hi)%Z.
Proof.
  intros -> Hall H30. unfold lookupOr30.
  destruct (list_to_map entries !! key) as [t|] eqn:E; [|done].
  apply elem_of_list_to_map_2 in E.
  destruct (proj1 (Forall_forall _ _) Hall _ E) as [Hb Hnz]. simpl in *.
  destruct (Z.eqb_spec t 0); [done|lia].
Qed.

Lemma depot_time_bounds (zone : string) :
  (15 <= lookupOr30 ZONE_TRAVEL_TIMES zone <= 45)%Z.
Proof.
  apply (lookupOr30_bounds _ _ 15 45 zone eq_refl); [|lia].
  repeat constructor; simpl; lia.
Qed.

Lemma zoneKey_sym (zone1 zone2 : string) :
  zone1 <> zone2 -> zoneKey zone1 zone2 = zoneKey zone2 zone1.
Proof.
  intros Hne. unfold zoneKey.
  destruct (String.leb zone1 zone2) eqn:E12, (String.leb zone2 zone1) eqn:E21; try done.
  - exfalso. apply Hne. by apply String.leb_antisym.
  - destruct (String.leb_total zone1 zone2); congruence.
Qed.

Lemma inter_zone_table_bounds (key : string) :
  (15 <= lookupOr30 INTER_ZONE_TIMES key <= 40)%Z.
Proof.
  apply (lookupOr30_bounds _ _ 15 40 key eq_refl); [|lia].
  repeat constructor; simpl; lia.
Qed.

Lemma getInterZoneTime_bounds (zone1 zone2 : string) :
  (5 <= getInterZoneTime zone1 zone2 <= 40)%Z.
Proof.
  unfold getInterZoneTime. destruct (String.eqb zone1 zone2); [lia|].
  pose proof (inter_zone_table_bounds (zoneKey zone1 zone2)). lia.
Qed.

(** X5. [getInterZoneTime] is symmetric, lies between 5 and 40 minutes, and is
    5 minutes exactly for a zone and itself. *)
Theorem getInterZoneTime_symmetric_bounded (zone1 zone2 : string) :
  getInterZoneTime zone1 zone2 = getInterZoneTime zone2 zone1
  /\ (5 <= getInterZoneTime zone1 zone2 <= 40)%Z
  /\ (getInterZoneTime zone1 zone2 = 5%Z <-> zone1 = zone2).
Proof.
  split; [|split; [apply getInterZoneTime_bounds|]];
    unfold getInterZoneTime; rewrite ?(String.eqb_sym zone2 zone1);
    destruct (String.eqb_spec zone1 zone2) as [->|Hne]; try done.
  - by rewrite (zoneKey_sym zone1 zone2 Hne).
  - pose proof (inter_zone_table_bounds (zoneKey zone1 zone2)). split; [lia|done].
Qed.

Lemma ZONE_MAPPING_zones (sector zone : string) :
  ZONE_MAPPING !! sector = Some zone ->
  zone ∈ ["Central"; "East"; "North"; "West"; "South"].
Proof.
  intros E. apply elem_of_list_to_map_2 in E.
  match type of E with _ ∈ ?l =>
    assert (Hall : forallb
                     (fun e : string * string =>
                        bool_decide (snd e ∈ ["Central"; "East"; "North"; "West"; "South"]))
                     l = true) by (vm_compute; reflexivity)
  end.
  rewrite forallb_forall in Hall. apply list_elem_of_In, Hall in E.
  by apply bool_decide_eq_true_1 in E.
Qed.

(** X6. [getZoneFromZipcode] always answers one of the five zones; a sector that
    the district table does not list falls to Central. *)
Theorem getZoneFromZipcode_known (zipcode : string) :
  getZoneFromZipcode zipcode ∈ ["Central"; "East"; "North"; "West"; "South"]
  /\ (ZONE_MAPPING !! String.substring 0 2 (Js.padStart6 zipcode) = None ->
      getZoneFromZipcode zipcode = "Central").
Proof.
  unfold getZoneFromZipcode. split; [|by intros ->].
  destruct (ZONE_MAPPING !! String.substring 0 2 (Js.padStart6 zipcode)) as [z|] eqn:E;
    simpl; [|left].
  by apply (ZONE_MAPPING_zones _ _ E).
Qed.

Lemma dedup_elem (xs : list string) :
  forall (seen : list string) (z : string),
    z ∈ Js.dedup xs seen <-> z ∈ xs /\ z ∉ seen.
Proof.
  induction xs as [|x xs IH]; intros seen z; simpl.
  - split; [by intros H%elem_of_nil|by intros [H%elem_of_nil _]].
  - case_bool_decide as Hx.
    + rewrite IH, elem_of_cons. split; [tauto|].
      intros [[->|Hin] Hnot]; [done|tauto].
    + rewrite !elem_of_cons, IH, elem_of_cons.
      destruct (decide (z = x)) as [->|Hne]; [tauto|]. tauto.
Qed.

Lemma dedup_NoDup (xs : list string) :
  forall seen : list string, NoDup (Js.dedup xs seen).
Proof.
  induction xs as [|x xs IH]; intros seen; simpl; [constructor|].
  case_bool_decide as Hx; [apply IH|].
  constructor; [|apply IH]. rewrite dedup_elem. intros [_ Hnot].
  apply Hnot. left.
Qed.

Lemma sorted_by_depot_time (zones : list string) :
  StronglySorted
    (fun a b => (lookupOr30 ZONE_TRAVEL_TIMES a <= lookupOr30 ZONE_TRAVEL_TIMES b)%Z)
    (Js.sort nearerDepot zones).
Proof.
  apply (StronglySorted_impl (fun a b => nearerDepot a b = true)).
  - unfold nearerDepot. intros a b H. apply Z.leb_le in H. lia.
  - apply sort_sorted; unfold nearerDepot.
    + intros x y H. apply Z.leb_gt in H. apply Z.leb_le. lia.
    + intros x y z Hxy Hyz. apply Z.leb_le in Hxy, Hyz. apply Z.leb_le. lia.
Qed.

Lemma optimizeZoneOrder_elem (zones : list string) (z : string) :
  z ∈ optimizeZoneOrder zones <-> z ∈ zones.
Proof.
  unfold optimizeZoneOrder.
  assert (Hel : z ∈ Js.dedup zones [] <-> z ∈ zones).
  { rewrite dedup_elem. split; [tauto|]. intros H. split; [done|].
    by intros H'%elem_of_nil. }
  destruct (length (Js.dedup zones []) <=? 1)%nat; [done|].
  by rewrite sort_Permutation.
Qed.

Lemma optimizeZoneOrder_NoDup (zones : list string) : NoDup (optimizeZoneOrder zones).
Proof.
  unfold optimizeZoneOrder.
  destruct (length (Js.dedup zones []) <=? 1)%nat; [apply dedup_NoDup|].
  rewrite sort_Permutation. apply dedup_NoDup.
Qed.

Lemma optimizeZoneOrder_sorted (zones : list string) :
  StronglySorted
    (fun a b => (lookupOr30 ZONE_TRAVEL_TIMES a <= lookupOr30 ZONE_TRAVEL_TIMES b)%Z)
    (optimizeZoneOrder zones).
Proof.
  unfold optimizeZoneOrder.
  destruct (Nat.leb_spec (length (Js.dedup zones [])) 1) as [Hshort|Hlong];
    [|apply sorted_by_depot_time].
  destruct (Js.dedup zones []) as [|a [|b l]]; [constructor| |simpl in Hshort; lia].
  repeat constructor.
Qed.

(** X7. [optimizeZoneOrder] keeps each zone of its input exactly once and lists
    the zones by ascending travel time from the depot. *)
Theorem optimizeZoneOrder_spec (zones : list string) :
  NoDup (optimizeZoneOrder zones)
  /\ (forall z, z ∈ optimizeZoneOrder zones <-> z ∈ zones)
  /\ StronglySorted
       (fun a b => (lookupOr30 ZONE_TRAVEL_TIMES a <= lookupOr30 ZONE_TRAVEL_TIMES b)%Z)
       (optimizeZoneOrder zones).
Proof.
  split; [apply optimizeZoneOrder_NoDup|].
  split; [intros z; apply optimizeZoneOrder_elem|apply optimizeZoneOrder_sorted].
Qed.

Lemma optimizeZoneOrder_nonempty (zones : list string) :
  zones <> [] -> optimizeZoneOrder zones <> [].
Proof.
  intros Hne Hnil. destruct zones as [|z zones]; [done|].
  assert (Hin : z ∈ optimizeZoneOrder (z :: zones))
    by (apply optimizeZoneOrder_elem; left).
  rewrite Hnil in Hin. by apply elem_of_nil in Hin.
Qed.

Lemma interZoneTotal_nonneg (zones : list string) : (0 <= interZoneTotal zones)%Z.
Proof.
  induction zones as [|z1 [|z2 rest] IH]; simpl; try lia.
  pose proof (getInterZoneTime_bounds z1 z2) as Hb.
  simpl in IH. lia.
Qed.

Lemma service_total_bounds (orders : list OrderData) :
  (10 * Z.of_nat (length orders) <= foldr Z.add 0 (map serviceTime orders)
   <= 15 * Z.of_nat (length orders))%Z.
Proof.
  induction orders as [|o os IH]; [simpl; lia|].
  cbn [map foldr length]. rewrite Nat2Z.inj_succ.
  unfold serviceTime at 1 3. destruct (order_needsTwoPeople o); lia.
Qed.

(** A trip with orders and zones takes at least 15 minutes to the first
    zone and 10 per stop, and the return leg adds between 15 and 45
    minutes. *)
Lemma getTripRouteTime_bounds (trip : TruckTrip) :
  trip_loadedOrders trip <> [] -> trip_assignedZones trip <> [] ->
  (15 + 10 * Z.of_nat (length (trip_loadedOrders trip)) <= getTripRouteTime trip false)%Z
  /\ (getTripRouteTime trip false + 15 <= getTripRouteTime trip true
      <= getTripRouteTime trip false + 45)%Z.
Proof.
  intros Horders Hzones. apply optimizeZoneOrder_nonempty in Hzones.
  unfold getTripRouteTime.
  destruct (trip_loadedOrders trip) as [|o os] eqn:Eo; [done|].
  replace (length (o :: os) =? 0)%nat with false by done.
  destruct (optimizeZoneOrder (trip_assignedZones trip)) as [|first rest] eqn:Ez; [done|].
  cbv zeta. rewrite service_fold.
  pose proof (depot_time_bounds first) as Hfirst.
  pose proof (depot_time_bounds (List.last (first :: rest) first)) as Hlast.
  pose proof (interZoneTotal_nonneg (first :: rest)) as Hinter.
  pose proof (service_total_bounds (o :: os)) as Hservice.
  lia.
Qed.

End ZoneTables.

(** ** The dimension test of [canFitInTrip] *)
Section DimensionProxy.
Import GlobalV3.

Lemma descending_true (a b : Q) : descending a b = true <-> b <= a.
Proof. unfold descending. rewrite Qle_bool_iff. split; lra. Qed.

Lemma descending_false (a b : Q) : descending a b = false <-> a < b.
Proof.
  unfold descending. split.
  - intros H. destruct (Qlt_le_dec a b) as [Hlt|Hle]; [done|].
    assert (Hb : Qle_bool (b - a) 0 = true) by (apply Qle_bool_iff; lra). congruence.
  - intros H. destruct (Qle_bool (b - a) 0) eqn:E; [|done].
    apply Qle_bool_iff in E. lra.
Qed.

(** The sides of a three-sided list sorted by [(a, b) => b - a]: one of the
    six arrangements, largest first. *)
Lemma sort_three (a b c : Q) :
  exists x y z,
    Js.sort descending [a; b; c] = [x; y; z] /\ y <= x /\ z <= y
    /\ ((x, y, z) = (a, b, c) \/ (x, y, z) = (a, c, b) \/ (x, y, z) = (b, a, c)
        \/ (x, y, z) = (b, c, a) \/ (x, y, z) = (c, a, b) \/ (x, y, z) = (c, b, a)).
Proof.
  simpl.
  destruct (descending b c) eqn:Ebc; simpl;
    [apply descending_true in Ebc|apply descending_false in Ebc].
  - destruct (descending a b) eqn:Eab; simpl;
      [apply descending_true in Eab|apply descending_false in Eab].
    + exists a, b, c. repeat split; try lra. tauto.
    + destruct (descending a c) eqn:Eac; simpl;
        [apply descending_true in Eac|apply descending_false in Eac].
      * exists b, a, c. repeat split; try lra. tauto.
      * exists b, c, a. repeat split; try lra. tauto.
  - destruct (descending a c) eqn:Eac; simpl;
      [apply descending_true in Eac|apply descending_false in Eac].
    + exists a, c, b. repeat split; try lra. tauto.
    + destruct (descending a b) eqn:Eab; simpl;
        [apply descending_true in Eab|apply descending_false in Eab].
      * exists c, a, b. repeat split; try lra. tauto.
      * exists c, b, a. repeat split; try lra. tauto.
Qed.

Lemma descendingExt_true (a b : Js.Ext) : descendingExt a b = true -> Js.leExt b a.
Proof.
  destruct a as [|x], b as [|y]; simpl; try done. apply descending_true.
Qed.

Lemma descendingExt_false (a b : Js.Ext) : descendingExt a b = false -> Js.leExt a b.
Proof.
  destruct a as [|x], b as [|y]; simpl; try done.
  intros H%descending_false. lra.
Qed.

Lemma gtExt_false (a : Js.Ext) (q : Q) : Js.gtExt a q = false <-> Js.leExt a (Js.Fin q).
Proof. destruct a as [|x]; simpl; [done|apply gt_false]. Qed.

(** The same for sides that may be [-Infinity]. *)
Lemma sort_three_ext (a b c : Js.Ext) :
  exists x y z,
    Js.sort descendingExt [a; b; c] = [x; y; z] /\ Js.leExt y x /\ Js.leExt z y
    /\ ((x, y, z) = (a, b, c) \/ (x, y, z) = (a, c, b) \/ (x, y, z) = (b, a, c)
        \/ (x, y, z) = (b, c, a) \/ (x, y, z) = (c, a, b) \/ (x, y, z) = (c, b, a)).
Proof.
  cbn [Js.sort foldr Js.insert].
  destruct (descendingExt b c) eqn:Ebc; cbn [Js.insert];
    [apply descendingExt_true in Ebc|apply descendingExt_false in Ebc].
  - destruct (descendingExt a b) eqn:Eab; cbn [Js.insert];
      [apply descendingExt_true in Eab|apply descendingExt_false in Eab].
    + exists a, b, c. repeat split; try done. tauto.
    + destruct (descendingExt a c) eqn:Eac; cbn [Js.insert];
        [apply descendingExt_true in Eac|apply descendingExt_false in Eac].
      * exists b, a, c. repeat split; try done. tauto.
      * exists b, c, a. repeat split; try done. tauto.
  - destruct (descendingExt a c) eqn:Eac; cbn [Js.insert];
      [apply descendingExt_true in Eac|apply descendingExt_false in Eac].
    + exists a, c, b. repeat split; try done. tauto.
    + destruct (descendingExt a b) eqn:Eab; cbn [Js.insert];
        [apply descendingExt_true in Eab|apply descendingExt_false in Eab].
      * exists c, a, b. repeat split; try done. tauto.
      * exists c, b, a. repeat split; try done. tauto.
Qed.

(** X8. An order that [canFitInTrip] accepts leaves the trip within its volume
    and weight, and none of its three dimensions exceeds the longest side of
    the truck. *)
Theorem canFitInTrip_necessary (trip : TruckTrip) (order : OrderData) :
  canFitInTrip trip order = true ->
  trip_currentVolume trip + order_totalVolume order <= trip_maxVolume trip
  /\ trip_currentWeight trip + order_totalWeight order <= trip_maxWeight trip
  /\ Forall
       (fun side =>
          Js.leExt side (Js.Fin (fst (fst (trip_truckDims trip))))
          \/ Js.leExt side (Js.Fin (snd (fst (trip_truckDims trip))))
          \/ Js.leExt side (Js.Fin (snd (trip_truckDims trip))))
       [order_maxLength order; order_maxWidth order; order_maxHeight order].
Proof.
  intros Hfit. destruct (canFitInTrip_bounds trip order Hfit) as [Hv Hw].
  split; [done|]. split; [done|].
  unfold canFitInTrip in Hfit.
  destruct (Js.gt (trip_currentVolume trip + _) _); [done|].
  destruct (Js.gt (trip_currentWeight trip + _) _); [done|].
  destruct (trip_truckDims trip) as [[w d] h]. cbv beta iota zeta in Hfit.
  cbn [fst snd].
  destruct (sort_three w d h) as (tx & ty & tz & Est & Ht1 & Ht2 & Htp).
  destruct (sort_three_ext (order_maxLength order) (order_maxWidth order)
              (order_maxHeight order)) as (ox & oy & oz & Eso & Ho1 & Ho2 & Hop).
  rewrite Est, Eso in Hfit.
  cbn [zip zip_with forallb] in Hfit.
  rewrite !andb_true_iff, !negb_true_iff, !gtExt_false in Hfit.
  destruct Hfit as (Hx & _).
  assert (Hlong : tx <= w \/ tx <= d \/ tx <= h).
  { destruct Htp as [H|[H|[H|[H|[H|H]]]]]; injection H as -> -> ->;
      first [left; lra|right; left; lra|right; right; lra]. }
  assert (Hsides : Forall (fun side => Js.leExt side (Js.Fin tx))
                     [order_maxLength order; order_maxWidth order;
                      order_maxHeight order]).
  { destruct Hop as [H|[H|[H|[H|[H|H]]]]]; injection H as -> -> ->;
      destruct (order_maxLength order), (order_maxWidth order), (order_maxHeight order);
      simpl in *;
      repeat (apply List.Forall_cons; [simpl; first [exact I|contradiction|lra]|]);
      apply List.Forall_nil. }
  eapply Forall_impl; [exact Hsides|]. intros side Hside.
  destruct side as [|x]; [by left|]. simpl in *.
  destruct Hlong as [H|[H|H]]; [left|right; left|right; right]; lra.
Qed.

Lemma canFitInTrip_necessary_witness :
  0 + 1000 <= 1000000 /\ 0 + 10 <= 1000
  /\ Forall
       (fun side =>
          Js.leExt side (Js.Fin 100) \/ Js.leExt side (Js.Fin 100)
          \/ Js.leExt side (Js.Fin 100))
       [Js.Fin 10; Js.Fin 10; Js.Fin 10].
Proof.
  apply (canFitInTrip_necessary (newTrip 1 Fixtures.cubeTruck) Fixtures.smallOrder).
  reflexivity.
Defined.

(** X9. An order whose totals fit the trip and whose length, width and height
    are within the truck's width, depth and height is accepted. *)
Theorem canFitInTrip_sufficient (trip : TruckTrip) (order : OrderData) :
  trip_currentVolume trip + order_totalVolume order <= trip_maxVolume trip ->
  trip_currentWeight trip + order_totalWeight order <= trip_maxWeight trip ->
  Js.leExt (order_maxLength order) (Js.Fin (fst (fst (trip_truckDims trip)))) ->
  Js.leExt (order_maxWidth order) (Js.Fin (snd (fst (trip_truckDims trip)))) ->
  Js.leExt (order_maxHeight order) (Js.Fin (snd (trip_truckDims trip))) ->
  canFitInTrip trip order = true.
Proof.
  intros Hv Hw Hl Hwd Hh. unfold canFitInTrip.
  replace (Js.gt (trip_currentVolume trip + order_totalVolume order) (trip_maxVolume trip))
    with false by (symmetry; by apply gt_false).
  replace (Js.gt (trip_currentWeight trip + order_totalWeight order) (trip_maxWeight trip))
    with false by (symmetry; by apply gt_false).
  destruct (trip_truckDims trip) as [[w d] h]. cbn [fst snd] in Hl, Hwd, Hh.
  cbv beta iota zeta.
  destruct (sort_three w d h) as (tx & ty & tz & Est & Ht1 & Ht2 & Htp).
  destruct (sort_three_ext (order_maxLength order) (order_maxWidth order)
              (order_maxHeight order)) as (ox & oy & oz & Eso & Ho1 & Ho2 & Hop).
  rewrite Est, Eso.
  cbn [zip zip_with forallb]. rewrite !andb_true_iff, !negb_true_iff, !gtExt_false.
  destruct Htp as [H|[H|[H|[H|[H|H]]]]]; injection H as -> -> ->;
    destruct Hop as [H|[H|[H|[H|[H|H]]]]]; injection H as -> -> ->;
    destruct (order_maxLength order), (order_maxWidth order), (order_maxHeight order);
    simpl in *; repeat split; first [exact I|contradiction|lra].
Qed.

Lemma canFitInTrip_sufficient_witness :
  canFitInTrip (newTrip 1 Fixtures.cubeTruck) Fixtures.smallOrder = true.
Proof.
  apply canFitInTrip_sufficient; cbn; apply Qle_bool_iff; reflexivity.
Defined.

End DimensionProxy.

(** ** What every result of [runOptimizationV3] keeps *)
Section RunInvariants.
Import GlobalV3 Spec CoverageSpec.

Lemma dedup_snoc (l : list string) :
  forall (seen : list string) (x : string),
    Js.dedup (l ++ [x]) seen
    = Js.dedup l seen ++ (if bool_decide (x ∈ seen \/ x ∈ l) then [] else [x]).
Proof.
  induction l as [|y l IH]; intros seen x; simpl.
  - rewrite (bool_decide_ext (x ∈ seen \/ x ∈ []) (x ∈ seen)).
    + by destruct (bool_decide (x ∈ seen)).
    + split; [intros [H|H%elem_of_nil]; done|tauto].
  - case_bool_decide as Hy.
    + rewrite IH. f_equal.
      rewrite (bool_decide_ext (x ∈ seen \/ x ∈ l) (x ∈ seen \/ x ∈ y :: l)); [done|].
      rewrite elem_of_cons. split; [tauto|]. intros [H|[->|H]]; tauto.
    + rewrite IH. simpl. f_equal. f_equal.
      rewrite (bool_decide_ext (x ∈ y :: seen \/ x ∈ l) (x ∈ seen \/ x ∈ y :: l)); [done|].
      rewrite !elem_of_cons. tauto.
Qed.

Lemma load_zones (trip : TruckTrip) (order : OrderData) :
  trip_assignedZones trip = zonesOf trip ->
  trip_assignedZones (loadOrderIntoTrip trip order)
  = zonesOf (loadOrderIntoTrip trip order).
Proof.
  unfold zonesOf. intros Hz. simpl. rewrite map_app. simpl. rewrite dedup_snoc.
  rewrite Hz.
  rewrite (bool_decide_ext
             (order_zone order ∈ Js.dedup (map order_zone (trip_loadedOrders trip)) [])
             (order_zone order ∈ [] \/ order_zone order ∈ map order_zone (trip_loadedOrders trip))).
  - by destruct (bool_decide _); [rewrite app_nil_r|].
  - rewrite dedup_elem. split; [tauto|]. intros [H%elem_of_nil|H]; [done|].
    split; [done|]. by intros H'%elem_of_nil.
Qed.

Lemma load_tripOfTruck (truck : TruckData) (trip : TruckTrip) (order : OrderData) :
  tripOfTruck truck trip -> tripOfTruck truck (loadOrderIntoTrip trip order).
Proof. unfold tripOfTruck. simpl. tauto. Qed.

Lemma storeStep_numbered (s s' : Store) (l : list OrderData) :
  storeStep s l s' -> storeNumbered s -> storeNumbered s'.
Proof.
  unfold storeNumbered.
  destruct 1 as [store i tw trip order Hi Hc Hfit|store i tw Hi]; intros Hinv;
    pose proof (proj1 (Forall_lookup _ _) Hinv i tw Hi) as (Hids & Htruck & Hzones);
    apply Forall_insert; try done; simpl.
  - unfold currentTrip in Hc. split; [|split].
    + rewrite length_insert.
      change (map trip_tripId (<[(length (tw_trips tw) - 1)%nat := loadOrderIntoTrip trip order]>
                                 (tw_trips tw)))
        with (trip_tripId <$> <[(length (tw_trips tw) - 1)%nat := loadOrderIntoTrip trip order]>
                                (tw_trips tw)).
      rewrite list_fmap_insert. simpl.
      rewrite list_insert_id; [exact Hids|].
      by rewrite list_lookup_fmap, Hc.
    + apply Forall_insert; [done|]. apply load_tripOfTruck.
      by eapply (proj1 (Forall_lookup _ _) Htruck).
    + apply Forall_insert; [done|]. apply load_zones.
      by eapply (proj1 (Forall_lookup _ _) Hzones).
  - split; [|split].
    + rewrite map_app, length_app, Hids. simpl.
      rewrite !Nat.add_1_r, seq_S. done.
    + apply Forall_app. split; [done|]. by repeat constructor.
    + apply Forall_app. split; [done|]. by repeat constructor.
Qed.

Lemma storeStep_trucks (s s' : Store) (l : list OrderData) :
  storeStep s l s' -> map tw_truck s' = map tw_truck s.
Proof.
  destruct 1 as [store i tw trip order Hi Hc Hfit|store i tw Hi];
    change (map tw_truck ?x) with (tw_truck <$> x);
    rewrite list_fmap_insert; simpl;
    apply list_insert_id; by rewrite list_lookup_fmap, Hi.
Qed.

Lemma storeSteps_trucks (s s' : Store) (l : list OrderData) :
  storeSteps s l s' -> map tw_truck s' = map tw_truck s.
Proof.
  induction 1 as [|a b c la lb Hab Hbc IH]; [done|].
  rewrite IH. by eapply storeStep_trucks.
Qed.

Lemma initial_store_numbered (trucksData : list TruckData) :
  storeNumbered (Js.sort byCapacityDesc (map initTruck trucksData)).
Proof.
  unfold storeNumbered. rewrite sort_Permutation.
  apply Forall_forall. intros tw Hin.
  apply list_elem_of_In, in_map_iff in Hin as (truck & <- & _). simpl.
  split; [done|]. split; by repeat constructor.
Qed.

Lemma initial_store_trucks (trucksData : list TruckData) :
  map tw_truck (Js.sort byCapacityDesc (map initTruck trucksData)) ≡ₚ trucksData
  /\ StronglySorted (fun a b => truck_volume b <= truck_volume a)
       (map tw_truck (Js.sort byCapacityDesc (map initTruck trucksData))).
Proof.
  split.
  - rewrite sort_Permutation, map_map. simpl. by rewrite map_id.
  - assert (Hs : StronglySorted (fun a b => byCapacityDesc a b = true)
                   (Js.sort byCapacityDesc (map initTruck trucksData))).
    { apply sort_sorted; unfold byCapacityDesc.
      - intros x y H. apply Qle_bool_iff.
        destruct (Qlt_le_dec 0 (truck_volume (tw_truck y) - truck_volume (tw_truck x)))
          as [Hlt|Hle]; [lra|].
        assert (Hb : Qle_bool (truck_volume (tw_truck y) - truck_volume (tw_truck x)) 0
                     = true) by (by apply Qle_bool_iff).
        congruence.
      - intros x y z Hxy Hyz. apply Qle_bool_iff in Hxy, Hyz. apply Qle_bool_iff. lra. }
    induction Hs as [|tw store Hs IH Htw]; simpl; constructor; [done|].
    apply Forall_forall. intros t Ht.
    apply list_elem_of_In, in_map_iff in Ht as (tw' & <- & Hin).
    apply list_elem_of_In in Hin.
    pose proof (proj1 (Forall_forall _ _) Htw tw' Hin) as Hle.
    unfold byCapacityDesc in Hle. apply Qle_bool_iff in Hle. lra.
Qed.

Lemma run_store (ordersData : list OrderData) (trucksData : list TruckData) :
  exists r store,
    runOptimizationV3 ordersData trucksData = Some r
    /\ trucksWithTrips r = map withTotals store
    /\ storeNumbered store /\ storeWf store
    /\ map tw_truck store = map tw_truck (Js.sort byCapacityDesc (map initTruck trucksData)).
Proof.
  destruct (runOptimizationV3_trace ordersData trucksData)
    as (r & loaded & store & Hrun & Hsteps & Hres & _).
  exists r, store. split; [done|]. split; [done|]. split; [|split].
  - eapply (storeSteps_ind_inv storeNumbered); [|exact Hsteps|].
    + intros a la b. apply storeStep_numbered.
    + apply initial_store_numbered.
  - eapply storeSteps_wf; [exact Hsteps|apply initial_store_wf].
  - by eapply storeSteps_trucks.
Qed.

(** X10. The result of [runOptimizationV3] lists every input truck once, largest
    volume first; the trips of a truck are numbered 1, 2, ... in order and
    each carries that truck's id, volume, weight limit and dimensions. *)
Theorem run_trucks_and_trip_numbers (ordersData : list OrderData)
    (trucksData : list TruckData) :
  exists r,
    runOptimizationV3 ordersData trucksData = Some r
    /\ map tw_truck (trucksWithTrips r) ≡ₚ trucksData
    /\ StronglySorted (fun a b => truck_volume b <= truck_volume a)
         (map tw_truck (trucksWithTrips r))
    /\ Forall
         (fun tw =>
            map trip_tripId (tw_trips tw) = seq 1 (length (tw_trips tw))
            /\ Forall (tripOfTruck (tw_truck tw)) (tw_trips tw))
         (trucksWithTrips r).
Proof.
  destruct (run_store ordersData trucksData) as (r & store & Hrun & Hres & Hnum & _ & Htr).
  destruct (initial_store_trucks trucksData) as [Hperm Hsorted].
  assert (Hmap : map tw_truck (map withTotals store) = map tw_truck store).
  { rewrite map_map. done. }
  exists r. split; [done|]. rewrite Hres, Hmap, Htr. split; [done|]. split; [done|].
  apply Forall_forall. intros tw Hin.
  apply list_elem_of_In, in_map_iff in Hin as (tw0 & <- & Hin). apply list_elem_of_In in Hin.
  destruct (proj1 (Forall_forall _ _) Hnum tw0 Hin) as (Hids & Htruck & _). done.
Qed.

(** X11. In every result of [runOptimizationV3] the [assignedZones] of a trip
    are the zones of its loaded orders, each once, in order of first
    loading. *)
Theorem run_trip_zones (ordersData : list OrderData) (trucksData : list TruckData) :
  exists r,
    runOptimizationV3 ordersData trucksData = Some r
    /\ Forall
         (fun tw =>
            Forall
              (fun trip =>
                 trip_assignedZones trip
                 = Js.dedup (map order_zone (trip_loadedOrders trip)) [])
              (tw_trips tw))
         (trucksWithTrips r).
Proof.
  destruct (run_store ordersData trucksData) as (r & store & Hrun & Hres & Hnum & _).
  exists r. split; [done|]. rewrite Hres.
  apply Forall_forall. intros tw Hin.
  apply list_elem_of_In, in_map_iff in Hin as (tw0 & <- & Hin). apply list_elem_of_In in Hin.
  destruct (proj1 (Forall_forall _ _) Hnum tw0 Hin) as (_ & _ & Hzones). done.
Qed.

(** X12. In every result of [runOptimizationV3] a trip that carries [n] orders,
    [n >= 1], takes at least [30 + 10 n] minutes with its return leg, and a
    trip takes 0 minutes only if it carries no order. *)
Theorem run_trip_time_bounds (ordersData : list OrderData) (trucksData : list TruckData) :
  exists r,
    runOptimizationV3 ordersData trucksData = Some r
    /\ Forall
         (fun tw =>
            Forall
              (fun trip =>
                 (trip_loadedOrders trip <> [] ->
                  (30 + 10 * Z.of_nat (length (trip_loadedOrders trip))
                   <= getTripRouteTime trip true)%Z)
                 /\ (getTripRouteTime trip true = 0%Z <-> trip_loadedOrders trip = []))
              (tw_trips tw))
         (trucksWithTrips r).
Proof.
  destruct (run_store ordersData trucksData) as (r & store & Hrun & Hres & Hnum & _).
  exists r. split; [done|]. rewrite Hres.
  apply Forall_forall. intros tw Hin.
  apply list_elem_of_In, in_map_iff in Hin as (tw0 & <- & Hin). apply list_elem_of_In in Hin.
  destruct (proj1 (Forall_forall _ _) Hnum tw0 Hin) as (_ & _ & Hzones). simpl.
  eapply Forall_impl; [exact Hzones|]. intros trip Hz. simpl in Hz.
  assert (Hbound : trip_loadedOrders trip <> [] ->
                   (30 + 10 * Z.of_nat (length (trip_loadedOrders trip))
                    <= getTripRouteTime trip true)%Z).
  { intros Hne.
    assert (Hzne : trip_assignedZones trip <> []).
    { rewrite Hz. unfold zonesOf. destruct (trip_loadedOrders trip) as [|o os]; [done|].
      simpl. done. }
    destruct (getTripRouteTime_bounds trip Hne Hzne) as [H1 H2]. lia. }
  split; [done|]. split.
  - intros H0. destruct (trip_loadedOrders trip) as [|o os] eqn:E; [done|].
    exfalso. assert (Hne : o :: os <> []) by done. apply Hbound in Hne. lia.
  - intros Hnil. by apply getTripRouteTime_empty.
Qed.

End RunInvariants.

(** ** The multi-trip pass: what an unassigned order means *)
Section MultiTrip.
Import GlobalV3 Spec CoverageSpec.

Lemma forEachM_inv {S X : Type} (P : S -> Prop) (body : S -> X -> option S)
    (xs : list X) :
  (forall s x s', P s -> body s x = Some s' -> P s') ->
  forall s s', P s -> forEachM body xs s = Some s' -> P s'.
Proof.
  intros Hbody. induction xs as [|x xs IH]; intros s s' Hs Hrun; simpl in Hrun.
  - by injection Hrun as <-.
  - destruct (body s x) as [s1|] eqn:E; [|done]. simpl in Hrun. eauto.
Qed.

Lemma canFitInTrip_newTrip (k k' : nat) (truck : TruckData) (order : OrderData) :
  canFitInTrip (newTrip k truck) order = canFitInTrip (newTrip k' truck) order.
Proof. reflexivity. Qed.

Lemma storeStep_trips_grow (s s' : Store) (l : list OrderData) :
  storeStep s l s' ->
  forall i tw, s !! i = Some tw ->
    exists tw', s' !! i = Some tw'
                /\ (length (tw_trips tw) <= length (tw_trips tw'))%nat.
Proof.
  destruct 1 as [store j tw0 trip order Hj Hc Hfit|store j tw0 Hj]; intros i tw Hi;
    (destruct (decide (i = j)) as [->|Hne];
     [rewrite list_lookup_insert_eq by (by eapply lookup_lt_Some);
      rewrite Hj in Hi; injection Hi as <-; eexists; split; [reflexivity|]; simpl
     |rewrite list_lookup_insert_ne by done; eauto]).
  - by rewrite length_insert.
  - rewrite length_app. lia.
Qed.

Lemma storeSteps_trips_grow (s s' : Store) (l : list OrderData) :
  storeSteps s l s' ->
  forall i tw, s !! i = Some tw ->
    exists tw', s' !! i = Some tw'
                /\ (length (tw_trips tw) <= length (tw_trips tw'))%nat.
Proof.
  induction 1 as [|a b c la lb Hab Hbc IH]; intros i tw Hi; [eauto|].
  destruct (storeStep_trips_grow _ _ _ Hab i tw Hi) as (tw1 & H1 & Hle1).
  destruct (IH i tw1 H1) as (tw2 & H2 & Hle2). exists tw2. split; [done|lia].
Qed.

Lemma multiTripTrucks_steps (order : OrderData) (refs : list nat)
    (store store' : Store) (packed : bool) :
  storeWf store -> Forall (fun i => (i < length store)%nat) refs ->
  multiTripTrucks store order refs = Some (store', packed) ->
  storeSteps store (if packed then [order] else []) store'.
Proof.
  intros Hwf Hrefs Hrun.
  destruct (multiTripTrucks_spec order refs store Hwf Hrefs) as (s & p & Hs & Hsteps).
  rewrite Hrun in Hs. by injection Hs as <- <-.
Qed.

(** When the loop over the trucks gives an order up, the order fits no empty
    trip of any truck it went through, and each of those trucks has a trip
    more. *)
Lemma multiTripTrucks_given_up (order : OrderData) :
  forall (refs : list nat) (store store' : Store),
    storeWf store -> Forall (fun i => (i < length store)%nat) refs ->
    multiTripTrucks store order refs = Some (store', false) ->
    forall i tw, i ∈ refs -> store !! i = Some tw ->
      (forall k, canFitInTrip (newTrip k (tw_truck tw)) order = false)
      /\ exists tw', store' !! i = Some tw'
                     /\ (length (tw_trips tw) + 1 <= length (tw_trips tw'))%nat.
Proof.
  induction refs as [|i0 rest IH]; intros store store' Hwf Hrefs Hrun i tw Hin Hi.
  { by apply elem_of_nil in Hin. }
  inversion Hrefs as [|? ? Hi0 Hrest]; subst.
  destruct (store_current store i0 Hwf Hi0) as (tw0 & trip & Htw0 & Htrip).
  simpl in Hrun. rewrite Htw0 in Hrun. simpl in Hrun. rewrite Htrip in Hrun.
  simpl in Hrun.
  destruct (canFitInTrip trip order) eqn:Hfit; simpl in Hrun.
  { rewrite Hfit in Hrun.
    destruct (loadIntoCurrentTrip store i0 order); simpl in Hrun; done. }
  set (nt := newTrip (length (tw_trips tw0) + 1) (tw_truck tw0)) in *.
  set (store1 := <[i0 := withTrips tw0 (tw_trips tw0 ++ [nt])]> store) in *.
  assert (Hopen : storeStep store [] store1) by by apply step_open.
  assert (Hwf1 : storeWf store1) by by eapply storeStep_wf.
  assert (Hlen1 : length store1 = length store) by by eapply storeStep_length.
  assert (Hrest1 : Forall (fun i => (i < length store1)%nat) rest) by by rewrite Hlen1.
  destruct (canFitInTrip nt order) eqn:Hfit2.
  { destruct (loadIntoCurrentTrip store1 i0 order); simpl in Hrun; done. }
  destruct (decide (i = i0)) as [->|Hne].
  - rewrite Htw0 in Hi. injection Hi as <-. split.
    + intros k. by rewrite (canFitInTrip_newTrip k (length (tw_trips tw0) + 1)).
    + pose proof (multiTripTrucks_steps order rest store1 store' false Hwf1 Hrest1 Hrun)
        as Hsteps.
      destruct (storeSteps_trips_grow _ _ _ Hsteps i0
                  (withTrips tw0 (tw_trips tw0 ++ [nt]))) as (tw' & Hlook & Hle).
      { unfold store1. by apply list_lookup_insert_eq. }
      exists tw'. split; [done|]. simpl in Hle. rewrite length_app in Hle.
      simpl in Hle. lia.
  - apply elem_of_cons in Hin as [->|Hin]; [done|].
    apply (IH store1 store' Hwf1 Hrest1 Hrun i tw Hin).
    unfold store1. by rewrite list_lookup_insert_ne.
Qed.

Lemma sortedTruckRefs_all (store : Store) (i : nat) :
  (i < length store)%nat -> i ∈ sortedTruckRefs store.
Proof.
  intros Hi. unfold sortedTruckRefs.
  rewrite sort_Permutation, imap_pair_fst. apply elem_of_seq. lia.
Qed.

Lemma multiTripOrder_unassignedOk (trucks : list TruckData) (st st' : PackState)
    (order : OrderData) :
  unassignedOk trucks st -> multiTripOrder st order = Some st' ->
  unassignedOk trucks st'.
Proof.
  destruct st as [store un]. intros (Hwf & Htrucks & Hfits & Hcount) Hrun.
  simpl in Hwf, Htrucks, Hfits, Hcount. unfold multiTripOrder in Hrun.
  destruct (multiTripTrucks store order (sortedTruckRefs store)) as [[store' packed]|] eqn:E;
    [|done].
  simpl in Hrun. injection Hrun as <-.
  pose proof (multiTripTrucks_steps order _ store store' packed Hwf
                (sortedTruckRefs_ok store) E) as Hsteps.
  assert (Hlen : length store' = length store) by by eapply storeSteps_length.
  assert (Htr : map tw_truck store' = trucks).
  { by rewrite (storeSteps_trucks _ _ _ Hsteps). }
  split; [by eapply storeSteps_wf|]. split; [done|]. simpl.
  destruct packed.
  - split; [done|]. apply Forall_lookup. intros i tw' Hi'.
    destruct (lookup_lt_is_Some_2 store i) as [tw Hi];
      [rewrite <- Hlen; by eapply lookup_lt_Some|].
    destruct (storeSteps_trips_grow _ _ _ Hsteps i tw Hi) as (tw2 & H2 & Hle).
    rewrite Hi' in H2. injection H2 as <-.
    pose proof (proj1 (Forall_lookup _ _) Hcount i tw Hi) as Hc. simpl in Hc. lia.
  - split.
    + intros o truck k Ho Htruck. apply elem_of_app in Ho as [Ho|Ho]; [by apply Hfits|].
      apply list_elem_of_singleton in Ho. subst o.
      rewrite <- Htrucks in Htruck.
      apply list_elem_of_In, in_map_iff in Htruck as (tw & <- & Htw).
      apply list_elem_of_In, list_elem_of_lookup in Htw as [i Hi].
      destruct (multiTripTrucks_given_up order _ store store' Hwf
                  (sortedTruckRefs_ok store) E i tw) as [Hno _]; [|done|done].
      apply sortedTruckRefs_all. by eapply lookup_lt_Some.
    + apply Forall_lookup. intros i tw' Hi'.
      destruct (lookup_lt_is_Some_2 store i) as [tw Hi];
        [rewrite <- Hlen; by eapply lookup_lt_Some|].
      destruct (multiTripTrucks_given_up order _ store store' Hwf
                  (sortedTruckRefs_ok store) E i tw) as [_ (tw2 & H2 & Hle)]; [|done|].
      { apply sortedTruckRefs_all. by eapply lookup_lt_Some. }
      rewrite Hi' in H2. injection H2 as <-.
      pose proof (proj1 (Forall_lookup _ _) Hcount i tw Hi) as Hc. simpl in Hc.
      rewrite length_app. simpl. lia.
Qed.

(** The phases of a run, as the equations that define its result. *)
Lemma run_phases (ordersData : list OrderData) (trucksData : list TruckData) (r : Result) :
  runOptimizationV3 ordersData trucksData = Some r ->
  exists zoneTruckMap store3 un3 store4,
    forEachM (packZone (sortZoneOrders (groupByZone ordersData)) zoneTruckMap)
      (sortedZonesOf (zoneDemandsOf (sortZoneOrders (groupByZone ordersData))))
      (Js.sort byCapacityDesc (map initTruck trucksData), [])
    = Some (store3, un3)
    /\ forEachM multiTripOrder (Js.sort byVolumeDesc un3) (store3, [])
       = Some (store4, unassignedOrders r)
    /\ trucksWithTrips r = map withTotals store4
    /\ totalElapsedTimeMin (summary r)
       = Js.maxWith0 (map tw_totalRouteTime (trucksWithTrips r))
    /\ totalTrips (summary r)
       = fold_left (fun sum t => (sum + length (tw_trips t))%nat) (trucksWithTrips r) 0%nat
    /\ refsInStore (length (Js.sort byCapacityDesc (map initTruck trucksData))) zoneTruckMap.
Proof.
  unfold runOptimizationV3. cbv zeta. intros Hrun.
  set (zoneOrders := sortZoneOrders (groupByZone ordersData)) in *.
  set (zoneDemands := zoneDemandsOf zoneOrders) in *.
  set (sortedZones := sortedZonesOf zoneDemands) in *.
  set (store0 := Js.sort byCapacityDesc (map initTruck trucksData)) in *.
  destruct (assignZones_spec store0 zoneDemands sortedZones ∅ ∅)
    as (m0 & used & Hzones & Hrefs0).
  { intros z Hz. apply assocGet_Some. unfold sortedZones in Hz.
    by rewrite sortedZonesOf_keys in Hz. }
  { intros z refs Hlook. by rewrite lookup_empty in Hlook. }
  rewrite Hzones in Hrun. simpl in Hrun.
  set (zoneTruckMap := assignRemaining (bestZoneOf sortedZones) (imap pair store0) m0 used)
    in *.
  destruct (forEachM (packZone zoneOrders zoneTruckMap) sortedZones (store0, []))
    as [[store3 un3]|] eqn:E3; [|done].
  simpl in Hrun.
  destruct (forEachM multiTripOrder (Js.sort byVolumeDesc un3) (store3, []))
    as [[store4 un4]|] eqn:E4; [|done].
  simpl in Hrun. injection Hrun as <-. simpl.
  exists zoneTruckMap, store3, un3, store4. repeat split; try done.
  apply assignRemaining_refs; [apply imap_pair_refs|done].
Qed.

Lemma run_reaches_multiTrip (ordersData : list OrderData) (trucksData : list TruckData)
    (r : Result) :
  runOptimizationV3 ordersData trucksData = Some r ->
  exists store4,
    trucksWithTrips r = map withTotals store4
    /\ unassignedOk (map tw_truck (Js.sort byCapacityDesc (map initTruck trucksData)))
         (store4, unassignedOrders r).
Proof.
  intros Hrun.
  destruct (run_phases ordersData trucksData r Hrun)
    as (zoneTruckMap & store3 & un3 & store4 & E3 & E4 & Hres & _ & _ & Hrefs).
  exists store4. split; [done|].
  set (store0 := Js.sort byCapacityDesc (map initTruck trucksData)) in *.
  destruct (forEachM_outcome (packZone (sortZoneOrders (groupByZone ordersData)) zoneTruckMap)
              (fun zone => default [] (assocGet (sortZoneOrders (groupByZone ordersData)) zone))
              (length store0)
              (sortedZonesOf (zoneDemandsOf (sortZoneOrders (groupByZone ordersData)))))
    with (st := (store0, @nil OrderData)) as (st3 & Hrun3 & Hout3).
  { intros st zone _ Hok. by apply (packZone_spec (length store0)). }
  { split; [done|apply initial_store_wf]. }
  rewrite E3 in Hrun3. injection Hrun3 as <-.
  destruct Hout3 as (l3 & r3 & Hs3 & _ & _). simpl in Hs3.
  eapply (forEachM_inv (unassignedOk (map tw_truck store0))); [|..|exact E4].
  - intros s x s'. apply multiTripOrder_unassignedOk.
  - assert (Hwf3 : storeWf store3).
    { eapply storeSteps_wf; [exact Hs3|apply initial_store_wf]. }
    split; [done|]. split; [by eapply storeSteps_trucks|]. split.
    + intros o truck k Ho. by apply elem_of_nil in Ho.
    + simpl. eapply Forall_impl; [exact Hwf3|]. intros tw Hne. simpl in Hne.
      destruct (tw_trips tw); [done|simpl; lia].
Qed.

(** X13. An order that [runOptimizationV3] reports unassigned fits no empty trip
    of any truck of the fleet: whatever fits an empty truck is assigned. *)
Theorem run_unassigned_fit_no_truck (ordersData : list OrderData)
    (trucksData : list TruckData) :
  exists r,
    runOptimizationV3 ordersData trucksData = Some r
    /\ Forall
         (fun o =>
            Forall (fun truck => forall k, canFitInTrip (newTrip k truck) o = false)
              trucksData)
         (unassignedOrders r).
Proof.
  destruct (runOptimizationV3_trace ordersData trucksData) as (r & _ & _ & Hrun & _).
  exists r. split; [done|].
  destruct (run_reaches_multiTrip ordersData trucksData r Hrun)
    as (store4 & _ & (_ & _ & Hfits & _)). simpl in Hfits.
  destruct (initial_store_trucks trucksData) as [Hperm _].
  apply Forall_forall. intros o Ho. apply Forall_forall. intros truck Htruck k.
  apply Hfits; [done|]. by rewrite Hperm.
Qed.

Lemma getTripRouteTime_nonneg (trip : TruckTrip) (includeReturn : bool) :
  (0 <= getTripRouteTime trip includeReturn)%Z.
Proof.
  unfold getTripRouteTime. destruct (length (trip_loadedOrders trip) =? 0)%nat; [lia|].
  destruct (optimizeZoneOrder (trip_assignedZones trip)) as [|first rest]; [lia|].
  cbv zeta. rewrite service_fold.
  pose proof (depot_time_bounds first) as Hfirst.
  pose proof (depot_time_bounds (List.last (first :: rest) first)) as Hlast.
  pose proof (interZoneTotal_nonneg (first :: rest)) as Hinter.
  pose proof (service_total_bounds (trip_loadedOrders trip)) as Hservice.
  destruct includeReturn; lia.
Qed.

Lemma tripTimesTotal_nonneg (trips : list TruckTrip) : (0 <= tripTimesTotal trips)%Z.
Proof.
  unfold tripTimesTotal. induction trips as [|t trips IH]; simpl; [lia|].
  pose proof (getTripRouteTime_nonneg t true). lia.
Qed.

(** X14. Every order that [runOptimizationV3] reports unassigned has opened a
    trip on every truck: a truck of the result has at least one trip more
    than there are unassigned orders, and its total route time is at least
    one depot reload per unassigned order. *)
Theorem run_unassigned_cost_trips (ordersData : list OrderData)
    (trucksData : list TruckData) :
  exists r,
    runOptimizationV3 ordersData trucksData = Some r
    /\ Forall
         (fun tw =>
            (length (unassignedOrders r) + 1 <= length (tw_trips tw))%nat
            /\ (DEPOT_RELOAD_TIME * Z.of_nat (length (unassignedOrders r))
                <= tw_totalRouteTime tw)%Z)
         (trucksWithTrips r).
Proof.
  destruct (runOptimizationV3_trace ordersData trucksData) as (r & _ & _ & Hrun & _).
  exists r. split; [done|].
  destruct (run_reaches_multiTrip ordersData trucksData r Hrun)
    as (store4 & Hres & (_ & _ & _ & Hcount)). simpl in Hcount.
  rewrite Hres. apply Forall_forall. intros tw Hin.
  apply list_elem_of_In, in_map_iff in Hin as (tw0 & <- & Hin). apply list_elem_of_In in Hin.
  pose proof (proj1 (Forall_forall _ _) Hcount tw0 Hin) as Hc. simpl in Hc.
  simpl. split; [done|].
  rewrite getTruckTotalRouteTime_spec by (by destruct (tw_trips tw0); [simpl in Hc; lia|]).
  pose proof (tripTimesTotal_nonneg (tw_trips tw0)). unfold DEPOT_RELOAD_TIME. lia.
Qed.

End MultiTrip.

(** ** Step 3: which truck an order is loaded on *)
Section BestFit.
Import GlobalV3 Spec CoverageSpec.

Lemma residualAt_current (store : Store) (order : OrderData) (i : nat)
    (tw : TruckWithTrips) (trip : TruckTrip) :
  store !! i = Some tw -> currentTrip tw = Some trip ->
  residualAt store order i
  = Some (trip_maxVolume trip - trip_currentVolume trip - order_totalVolume order).
Proof. intros Hi Hc. unfold residualAt. rewrite Hi. simpl. rewrite Hc. done. Qed.

Lemma fitsAt_current (store : Store) (order : OrderData) (i : nat)
    (tw : TruckWithTrips) (trip : TruckTrip) :
  store !! i = Some tw -> currentTrip tw = Some trip ->
  fitsAt store order i <-> canFitInTrip trip order = true.
Proof.
  intros Hi Hc. split.
  - intros (tw' & trip' & Hi' & Hc' & Hfit). rewrite Hi in Hi'. injection Hi' as <-.
    rewrite Hc in Hc'. by injection Hc' as <-.
  - intros Hfit. by exists tw, trip.
Qed.

Lemma findBestTruck_scan (store : Store) (order : OrderData) :
  storeWf store ->
  forall (rest seen : list nat) (best : option nat) (bestRemaining : option Q),
    Forall (fun i => (i < length store)%nat) rest ->
    bestFit store order seen best ->
    match best, bestRemaining with
    | None, None => True
    | Some b, Some rb => residualAt store order b = Some rb
    | _, _ => False
    end ->
    exists b, findBestTruck store order rest best bestRemaining = Some b
              /\ bestFit store order (seen ++ rest) b.
Proof.
  intros Hwf. induction rest as [|i rest IH]; intros seen best br Hrefs Hbest Hacc.
  { simpl. exists best. by rewrite app_nil_r. }
  inversion Hrefs as [|? ? Hi Hrest]; subst.
  destruct (store_current store i Hwf Hi) as (tw & trip & Htw & Htrip).
  pose proof (residualAt_current store order i tw trip Htw Htrip) as Hres.
  pose proof (fitsAt_current store order i tw trip Htw Htrip) as Hfits.
  simpl. rewrite Htw. simpl. rewrite Htrip. simpl.
  rewrite (cons_middle i seen rest), app_assoc.
  set (remaining :=
         trip_maxVolume trip - trip_currentVolume trip - order_totalVolume order) in *.
  destruct (canFitInTrip trip order) eqn:Hfit.
  - destruct best as [b|], br as [rb|]; try done.
    + destruct Hbest as (Hin & Hfb & Hmin).
      destruct (Js.lt remaining rb) eqn:Hlt.
      * apply lt_true in Hlt. apply IH; [done| |exact Hres].
        split; [apply elem_of_app; first [by left|right; apply list_elem_of_here]|]. split; [exact (proj2 Hfits eq_refl)|].
        intros j r Hj Hfj Hrj. exists remaining. split; [done|].
        apply elem_of_app in Hj as [Hj|Hj].
        -- destruct (Hmin j r Hj Hfj Hrj) as (rb' & Hb' & Hle).
           rewrite Hacc in Hb'. injection Hb' as <-. lra.
        -- apply list_elem_of_singleton in Hj. subst j. rewrite Hres in Hrj.
           injection Hrj as <-. lra.
      * apply lt_false in Hlt. apply IH; [done| |exact Hacc].
        split; [apply elem_of_app; first [by left|right; apply list_elem_of_here]|]. split; [done|].
        intros j r Hj Hfj Hrj. apply elem_of_app in Hj as [Hj|Hj]; [eauto|].
        apply list_elem_of_singleton in Hj. subst j. rewrite Hres in Hrj.
        injection Hrj as <-. exists rb. split; [done|lra].
    + apply IH; [done| |exact Hres].
      split; [apply elem_of_app; first [by left|right; apply list_elem_of_here]|]. split; [exact (proj2 Hfits eq_refl)|].
      intros j r Hj Hfj Hrj. exists remaining. split; [done|].
      apply elem_of_app in Hj as [Hj|Hj]; [by destruct (Hbest j Hj)|].
      apply list_elem_of_singleton in Hj. subst j. rewrite Hres in Hrj.
      injection Hrj as <-. lra.
  - assert (Hno : ~ fitsAt store order i).
    { intros Hf. apply (proj1 Hfits) in Hf. discriminate. }
    apply IH; [done| |done]. destruct best as [b|].
    + destruct Hbest as (Hin & Hfb & Hmin). split; [apply elem_of_app; first [by left|right; apply list_elem_of_here]|]. split; [done|].
      intros j r Hj Hfj Hrj. apply elem_of_app in Hj as [Hj|Hj]; [eauto|].
      apply list_elem_of_singleton in Hj. by subst j.
    + intros j Hj Hfj. apply elem_of_app in Hj as [Hj|Hj]; [by apply (Hbest j)|].
      apply list_elem_of_singleton in Hj. by subst j.
Qed.

Lemma tryAnyTruck_first (store : Store) (order : OrderData) :
  storeWf store ->
  forall (m a : nat),
    (a + m <= length store)%nat ->
    exists store' packed,
      tryAnyTruck store order (seq a m) = Some (store', packed)
      /\ if packed
         then exists j, (a <= j < a + m)%nat /\ fitsAt store order j
                        /\ (forall i, (a <= i < j)%nat -> ~ fitsAt store order i)
                        /\ loadIntoCurrentTrip store j order = Some store'
         else store' = store
              /\ forall i, (a <= i < a + m)%nat -> ~ fitsAt store order i.
Proof.
  intros Hwf. induction m as [|m IH]; intros a Hbound; simpl.
  { exists store, false. split; [done|]. split; [done|]. intros i Hi. lia. }
  destruct (store_current store a Hwf) as (tw & trip & Htw & Htrip); [lia|].
  pose proof (fitsAt_current store order a tw trip Htw Htrip) as Hfits.
  rewrite Htw. simpl. rewrite Htrip. simpl.
  destruct (canFitInTrip trip order) eqn:Hfit.
  - destruct (loadIntoCurrentTrip_step store a tw trip order Htw Htrip Hfit)
      as (store' & Hload & _).
    rewrite Hload. simpl. exists store', true. split; [done|].
    exists a. split; [lia|]. split; [exact (proj2 Hfits eq_refl)|]. split; [|done].
    intros i Hi. lia.
  - destruct (IH (S a)) as (store' & packed & Hrun & Hres); [lia|].
    exists store', packed. split; [done|].
    assert (Hno : ~ fitsAt store order a).
    { intros Hf. apply (proj1 Hfits) in Hf. discriminate. }
    destruct packed.
    + destruct Hres as (j & Hj & Hfj & Hbefore & Hload). exists j.
      split; [lia|]. split; [done|]. split; [|done].
      intros i Hi. destruct (decide (i = a)) as [->|Hne]; [done|]. apply Hbefore. lia.
    + destruct Hres as [-> Hnone]. split; [done|].
      intros i Hi. destruct (decide (i = a)) as [->|Hne]; [done|]. apply Hnone. lia.
Qed.

(** X15. Step 3 for one order. If the current trip of a truck assigned to the
    zone takes the order, it is loaded on an assigned truck that is left
    with the least free volume. Otherwise it is loaded on the first truck,
    in order of capacity, whose current trip takes it. If no current trip
    takes it, the store is unchanged and the order is appended to the
    unassigned orders. *)
Theorem packOrder_choice (store : Store) (unassigned : list OrderData)
    (assignedTrucks : list nat) (order : OrderData) :
  storeWf store ->
  Forall (fun i => (i < length store)%nat) assignedTrucks ->
  exists store' unassigned',
    packOrder assignedTrucks (store, unassigned) order = Some (store', unassigned')
    /\ ((exists b, bestFit store order assignedTrucks (Some b)
                   /\ loadIntoCurrentTrip store b order = Some store'
                   /\ unassigned' = unassigned)
        \/ (bestFit store order assignedTrucks None
            /\ exists j, fitsAt store order j
                         /\ (forall i, (i < j)%nat -> ~ fitsAt store order i)
                         /\ loadIntoCurrentTrip store j order = Some store'
                         /\ unassigned' = unassigned)
        \/ ((forall i, ~ fitsAt store order i)
            /\ store' = store /\ unassigned' = unassigned ++ [order])).
Proof.
  intros Hwf Hrefs. unfold packOrder.
  destruct (findBestTruck_scan store order Hwf assignedTrucks [] None None Hrefs)
    as (best & Hscan & Hbest); [by intros i Hi; apply elem_of_nil in Hi|done|].
  simpl in Hbest. rewrite Hscan. simpl. destruct best as [b|].
  - destruct Hbest as (Hin & (tw & trip & Htw & Htrip & Hfit) & Hmin).
    destruct (loadIntoCurrentTrip_step store b tw trip order Htw Htrip Hfit)
      as (store' & Hload & _).
    rewrite Hload. simpl. exists store', unassigned. split; [done|]. left.
    exists b. split; [|done]. split; [done|]. split; [by exists tw, trip|done].
  - destruct (tryAnyTruck_first store order Hwf (length store) 0%nat)
      as (store' & packed & Hrun & Hres); [lia|].
    rewrite Hrun. simpl. destruct packed.
    + destruct Hres as (j & Hj & Hfj & Hbefore & Hload).
      exists store', unassigned. split; [done|]. right. left. split; [done|].
      exists j. split; [done|]. split; [|done]. intros i Hi. apply Hbefore. lia.
    + destruct Hres as [-> Hnone]. exists store, (unassigned ++ [order]).
      split; [done|]. right. right. split; [|done].
      intros i Hf. apply (Hnone i); [|done].
      destruct Hf as (tw & _ & Hi & _). apply lookup_lt_Some in Hi. lia.
Qed.

Lemma packOrder_choice_witness :
  exists store' unassigned',
    packOrder [0%nat] ([initTruck Fixtures.cubeTruck], []) Fixtures.smallOrder
    = Some (store', unassigned')
    /\ ((exists b, bestFit [initTruck Fixtures.cubeTruck] Fixtures.smallOrder [0%nat] (Some b)
                   /\ loadIntoCurrentTrip [initTruck Fixtures.cubeTruck] b Fixtures.smallOrder
                      = Some store'
                   /\ unassigned' = [])
        \/ (bestFit [initTruck Fixtures.cubeTruck] Fixtures.smallOrder [0%nat] None
            /\ exists j, fitsAt [initTruck Fixtures.cubeTruck] Fixtures.smallOrder j
                         /\ (forall i, (i < j)%nat
                                       -> ~ fitsAt [initTruck Fixtures.cubeTruck]
                                            Fixtures.smallOrder i)
                         /\ loadIntoCurrentTrip [initTruck Fixtures.cubeTruck] j
                              Fixtures.smallOrder = Some store'
                         /\ unassigned' = [])
        \/ ((forall i, ~ fitsAt [initTruck Fixtures.cubeTruck] Fixtures.smallOrder i)
            /\ store' = [initTruck Fixtures.cubeTruck]
            /\ unassigned' = [] ++ [Fixtures.smallOrder])).
Proof.
  apply (packOrder_choice [initTruck Fixtures.cubeTruck] [] [0%nat] Fixtures.smallOrder).
  - apply List.Forall_cons; [discriminate|apply List.Forall_nil].
  - apply List.Forall_cons; [simpl; lia|apply List.Forall_nil].
Defined.

End BestFit.

(** ** The summary of a run *)
Section RunSummary.
Import GlobalV3 Spec CoverageSpec.

Lemma maxWith0_spec (xs : list Z) :
  (0 <= Js.maxWith0 xs)%Z
  /\ Forall (fun x => (x <= Js.maxWith0 xs)%Z) xs
  /\ (Js.maxWith0 xs = 0%Z \/ Js.maxWith0 xs ∈ xs).
Proof.
  induction xs as [|x xs (Hpos & Hall & Hin)]; simpl.
  - split; [done|]. split; [done|by left].
  - fold (Js.maxWith0 xs). split; [lia|]. split.
    + apply List.Forall_cons; [lia|]. eapply Forall_impl; [exact Hall|].
      intros y Hy. simpl in Hy. lia.
    + destruct (Z.max_spec x (Js.maxWith0 xs)) as [[_ ->]|[_ ->]].
      * destruct Hin as [Hin|Hin]; [by left|right; by apply list_elem_of_further].
      * right. apply list_elem_of_here.
Qed.

Lemma trips_count (l : list TruckWithTrips) (k : nat) :
  Forall (fun tw => (k <= length (tw_trips tw))%nat) l ->
  forall acc : nat,
    (acc + length l * k
     <= fold_left (fun sum t => (sum + length (tw_trips t))%nat) l acc)%nat.
Proof.
  induction 1 as [|tw l Hk Hall IH]; intros acc; simpl; [lia|].
  specialize (IH (acc + length (tw_trips tw))%nat). lia.
Qed.

(** X16. The elapsed time of the fleet is that of its slowest truck: no truck
    takes longer, and it is 0 or the route time of one of the trucks. The
    number of trips counts, for every truck, one trip and one more per
    unassigned order at least. *)
Theorem run_elapsed_time_and_trips (ordersData : list OrderData)
    (trucksData : list TruckData) :
  exists r,
    runOptimizationV3 ordersData trucksData = Some r
    /\ Forall (fun tw => (tw_totalRouteTime tw <= totalElapsedTimeMin (summary r))%Z)
         (trucksWithTrips r)
    /\ (totalElapsedTimeMin (summary r) = 0%Z
        \/ exists tw, tw ∈ trucksWithTrips r
                      /\ tw_totalRouteTime tw = totalElapsedTimeMin (summary r))
    /\ (length trucksData * (length (unassignedOrders r) + 1)
        <= totalTrips (summary r))%nat.
Proof.
  destruct (runOptimizationV3_trace ordersData trucksData) as (r & _ & _ & Hrun & _).
  exists r. split; [done|].
  destruct (run_phases ordersData trucksData r Hrun)
    as (_ & _ & _ & store4 & _ & _ & Hres & Hmax & Htrips & _).
  destruct (run_reaches_multiTrip ordersData trucksData r Hrun)
    as (store4' & Hres' & (_ & Htr & _ & Hcount)). simpl in Htr, Hcount.
  destruct (maxWith0_spec (map tw_totalRouteTime (trucksWithTrips r)))
    as (_ & Hall & Hin).
  rewrite Hmax. split; [|split].
  - apply Forall_forall. intros tw Htw.
    apply (proj1 (Forall_forall _ _) Hall). apply list_elem_of_In, in_map.
    by apply list_elem_of_In.
  - destruct Hin as [Hz|Hin]; [by left|right].
    apply list_elem_of_In, in_map_iff in Hin as (tw & Htime & Htw).
    exists tw. split; [by apply list_elem_of_In|done].
  - rewrite Htrips, Hres'.
    pose proof (trips_count (map withTotals store4') (length (unassignedOrders r) + 1)) as Hc.
    rewrite length_map in Hc.
    assert (Hlen : length store4' = length trucksData).
    { rewrite <- (length_map tw_truck store4'), Htr, length_map.
      rewrite (Permutation_length (sort_Permutation _ _)). by rewrite length_map. }
    assert (Hall' : Forall (fun tw => (length (unassignedOrders r) + 1
                                       <= length (tw_trips tw))%nat)
                      (map withTotals store4')).
    { apply Forall_forall. intros tw Htw.
      apply list_elem_of_In, in_map_iff in Htw as (tw0 & <- & Htw0). simpl.
      apply (proj1 (Forall_forall _ _) Hcount). by apply list_elem_of_In. }
    specialize (Hc Hall' 0%nat). rewrite <- Hlen. lia.
Qed.

End RunSummary.

(** ** The single-trip planner *)
Section V1Planner.
Import GlobalV1 CoverageSpec.

Lemma fold_left_inv {S X : Type} (P : S -> Prop) (f : S -> X -> S) (xs : list X) :
  (forall s x, P s -> P (f s x)) -> forall s, P s -> P (fold_left f xs s).
Proof.
  intros Hf. induction xs as [|x xs IH]; intros s Hs; simpl; [done|]. apply IH, Hf, Hs.
Qed.

Lemma sameZoneField_eq (a b : option string) : sameZoneField a b = true -> a = b.
Proof.
  destruct a, b; simpl; try done. intros H%String.eqb_eq. by subst.
Qed.

Lemma findAssignment_spec (order : OrderData) :
  forall (asgs : list TruckAssignment) (i0 i : nat),
    findAssignment order asgs i0 = Some i ->
    exists a,
      asgs !! (i - i0)%nat = Some a /\ (i0 <= i)%nat
      /\ (exists o, o ∈ asg_orders a /\ order_zone o = order_zone order)
      /\ asg_totalWeight a + order_totalWeight order <= truck_maxWeight (asg_truck a)
      /\ asg_totalVolume a + order_totalVolume order <= truck_volume (asg_truck a).
Proof.
  induction asgs as [|a rest IH]; intros i0 i Hf; simpl in Hf; [done|].
  assert (Hnext : findAssignment order rest (S i0) = Some i ->
                  exists a0,
                    (a :: rest) !! (i - i0)%nat = Some a0 /\ (i0 <= i)%nat
                    /\ (exists o, o ∈ asg_orders a0 /\ order_zone o = order_zone order)
                    /\ asg_totalWeight a0 + order_totalWeight order
                       <= truck_maxWeight (asg_truck a0)
                    /\ asg_totalVolume a0 + order_totalVolume order
                       <= truck_volume (asg_truck a0)).
  { intros Hrest. destruct (IH _ _ Hrest) as (a' & Hl & Hle & Hrem). exists a'.
    replace (i - i0)%nat with (S (i - S i0)) by lia. split; [done|]. split; [lia|done]. }
  destruct (existsb _ (asg_orders a)) eqn:Ex; simpl in Hf; [|by apply Hnext].
  destruct (Qle_bool _ _ && Qle_bool _ _) eqn:Ecap; [|by apply Hnext].
  injection Hf as <-. exists a. rewrite Nat.sub_diag. split; [done|]. split; [lia|].
  apply andb_true_iff in Ecap as [Hw Hv]. apply Qle_bool_iff in Hw, Hv.
  apply existsb_exists in Ex as (o & Ho & Hz). apply sameZoneField_eq in Hz.
  split; [|done]. exists o. split; [by apply list_elem_of_In|done].
Qed.

(** What one order does to the plan: nothing, or it joins an assignment
    that has room for it, or it opens the first available truck that can
    carry it. *)
Lemma assignOrder_cases (st : PlanState) (order : OrderData) :
  assignOrder st order = st
  \/ (exists i a,
        assignments st !! i = Some a
        /\ (exists o, o ∈ asg_orders a /\ order_zone o = order_zone order)
        /\ asg_totalWeight a + order_totalWeight order <= truck_maxWeight (asg_truck a)
        /\ asg_totalVolume a + order_totalVolume order <= truck_volume (asg_truck a)
        /\ assignOrder st order
           = {| assignments :=
                  <[i := addToAssignment a order
                           (helperCount (order_helpersRequired order))]> (assignments st);
                availableTrucks := availableTrucks st;
                remainingHelpers := remainingHelpers st |})
  \/ (exists truck,
        truck ∈ availableTrucks st
        /\ order_totalWeight order <= truck_maxWeight truck
        /\ order_totalVolume order <= truck_volume truck
        /\ ((helperCount (order_helpersRequired order) <= remainingHelpers st)%Z
            \/ helperCount (order_helpersRequired order) = 0%Z)
        /\ assignOrder st order
           = {| assignments :=
                  assignments st ++
                    [ {| asg_truck := truck;
                         asg_orders := [order];
                         asg_totalWeight := order_totalWeight order;
                         asg_totalVolume := order_totalVolume order;
                         asg_helpersNeeded := helperCount (order_helpersRequired order) |} ];
                availableTrucks := removeTruck (truck_id truck) (availableTrucks st);
                remainingHelpers :=
                  (remainingHelpers st - helperCount (order_helpersRequired order))%Z |}).
Proof.
  unfold assignOrder.
  destruct ((remainingHelpers st <? helperCount (order_helpersRequired order))%Z
            && negb (isNone (order_helpersRequired order))) eqn:Eskip; [by left|].
  destruct (findAssignment order (assignments st) 0) as [i|] eqn:Efind.
  - destruct (findAssignment_spec order _ _ _ Efind) as (a & Hl & _ & Hz & Hw & Hv).
    rewrite Nat.sub_0_r in Hl. rewrite Hl. right. left. exists i, a. done.
  - destruct (findTruck order (availableTrucks st)) as [truck|] eqn:Etruck; [|by left].
    right. right. exists truck. unfold findTruck in Etruck.
    apply find_some in Etruck as [Hin Hcap].
    apply andb_true_iff in Hcap as [Hw Hv]. apply Qle_bool_iff in Hw, Hv.
    split; [by apply list_elem_of_In|]. split; [done|]. split; [done|]. split; [|done].
    apply andb_false_iff in Eskip as [Hlt|Hnone].
    + left. apply Z.ltb_ge in Hlt. lia.
    + right. by destruct (order_helpersRequired order).
Qed.

Lemma total_snoc (f : OrderData -> Q) (l : list OrderData) (x : OrderData) :
  foldr (fun o sum => f o + sum) 0 (l ++ [x]) == foldr (fun o sum => f o + sum) 0 l + f x.
Proof.
  induction l as [|y l IH]; simpl; [ring|]. rewrite IH. ring.
Qed.

Lemma assignOrder_ok (st : PlanState) (order : OrderData) :
  Forall assignmentOk (assignments st) ->
  Forall assignmentOk (assignments (assignOrder st order)).
Proof.
  intros Hall.
  destruct (assignOrder_cases st order)
    as [->|[(i & a & Hl & (o0 & Ho0 & Hz0) & Hw & Hv & ->)
           |(truck & Hin & Hw & Hv & _ & ->)]]; [done|..]; simpl.
  - apply Forall_insert; [done|].
    destruct (proj1 (Forall_lookup _ _) Hall i a Hl) as (Hne & Htw & Htv & _ & _ & Hzone).
    unfold assignmentOk. simpl. split; [by destruct (asg_orders a)|].
    split; [rewrite total_snoc, Htw; reflexivity|].
    split; [rewrite total_snoc, Htv; reflexivity|].
    split; [done|]. split; [done|].
    assert (Hall_z : forall o, o ∈ asg_orders a ++ [order]
                               -> order_zone o = order_zone order).
    { intros o Ho. apply elem_of_app in Ho as [Ho|Ho].
      - by rewrite (Hzone o o0 Ho Ho0).
      - apply list_elem_of_singleton in Ho. by subst. }
    intros o o' Ho Ho'. by rewrite (Hall_z o Ho), (Hall_z o' Ho').
  - apply Forall_app. split; [done|]. apply List.Forall_cons; [|apply List.Forall_nil].
    unfold assignmentOk. simpl. split; [done|]. split; [ring|]. split; [ring|].
    split; [done|]. split; [done|].
    intros o o' Ho Ho'. apply list_elem_of_singleton in Ho, Ho'. by subst.
Qed.

(** X17. Every assignment [assignOrdersToTrucks] returns carries at least one
    order, its total weight and volume are those of its orders and within
    the capacity of its truck, and all its orders have the same zone. *)
Theorem assignOrdersToTrucks_within_capacity (zoneDistances : list string)
    (orders : list OrderData) (trucks : list TruckData) (availableHelpers : Z) :
  Forall assignmentOk (assignOrdersToTrucks zoneDistances orders trucks availableHelpers).
Proof.
  unfold assignOrdersToTrucks.
  apply (fold_left_inv (fun st => Forall assignmentOk (assignments st))); [|done].
  intros st zone Hst. unfold assignZone.
  apply (fold_left_inv (fun st => Forall assignmentOk (assignments st))); [|done].
  intros s o. apply assignOrder_ok.
Qed.

Lemma removeTruck_perm (t : TruckData) :
  forall l : list TruckData,
    NoDup (map truck_id l) -> t ∈ l -> l ≡ₚ t :: removeTruck (truck_id t) l.
Proof.
  induction l as [|t0 rest IH]; intros Hnd Hin; [by apply elem_of_nil in Hin|].
  simpl in Hnd. apply NoDup_cons in Hnd as [Hnot Hnd]. simpl.
  destruct (Z.eqb_spec (truck_id t0) (truck_id t)) as [Heq|Hne].
  - apply elem_of_cons in Hin as [->|Hin]; [done|].
    exfalso. apply Hnot. rewrite Heq. apply list_elem_of_In, in_map.
    by apply list_elem_of_In.
  - apply elem_of_cons in Hin as [->|Hin]; [done|].
    rewrite (IH Hnd Hin) at 1. apply perm_swap.
Qed.

Lemma assignOrder_trucks (trucks : list TruckData) (st : PlanState) (order : OrderData) :
  NoDup (map truck_id trucks) ->
  map asg_truck (assignments st) ++ availableTrucks st ≡ₚ trucks ->
  map asg_truck (assignments (assignOrder st order))
    ++ availableTrucks (assignOrder st order) ≡ₚ trucks.
Proof.
  intros Hnd Hperm.
  destruct (assignOrder_cases st order)
    as [->|[(i & a & Hl & _ & _ & _ & ->)|(truck & Hin & _ & _ & _ & ->)]]; [done|..];
    simpl.
  - change (map asg_truck (<[i:=?x]> ?l)) with (asg_truck <$> <[i:=x]> l).
    rewrite list_fmap_insert. simpl. rewrite list_insert_id; [done|].
    by rewrite list_lookup_fmap, Hl.
  - rewrite map_app. simpl. rewrite <- app_assoc. simpl.
    rewrite <- Hperm. apply Permutation_app_head. symmetry. apply removeTruck_perm; [|done].
    assert (Hnd' : NoDup (map truck_id (map asg_truck (assignments st)
                                        ++ availableTrucks st))).
    { by rewrite Hperm. }
    rewrite map_app in Hnd'. by apply NoDup_app in Hnd' as (_ & _ & Hnd').
Qed.

(** X18. With trucks of distinct ids, [assignOrdersToTrucks] uses each truck for
    at most one assignment, and only trucks of the fleet. *)
Theorem assignOrdersToTrucks_distinct_trucks (zoneDistances : list string)
    (orders : list OrderData) (trucks : list TruckData) (availableHelpers : Z) :
  NoDup (map truck_id trucks) ->
  map asg_truck (assignOrdersToTrucks zoneDistances orders trucks availableHelpers)
    ⊆+ trucks
  /\ NoDup (map (fun a => truck_id (asg_truck a))
              (assignOrdersToTrucks zoneDistances orders trucks availableHelpers)).
Proof.
  intros Hnd. unfold assignOrdersToTrucks.
  set (final := fold_left _ zoneDistances _).
  assert (Hperm : map asg_truck (assignments final) ++ availableTrucks final ≡ₚ trucks).
  { unfold final.
    apply (fold_left_inv
             (fun st => map asg_truck (assignments st) ++ availableTrucks st ≡ₚ trucks)).
    - intros st zone Hst. unfold assignZone.
      apply (fold_left_inv
               (fun st => map asg_truck (assignments st) ++ availableTrucks st ≡ₚ trucks));
        [|done].
      intros s o. by apply assignOrder_trucks.
    - simpl. apply sort_Permutation. }
  split.
  - rewrite <- Hperm. by apply submseteq_inserts_r.
  - rewrite <- (map_map asg_truck truck_id).
    assert (Hnd' : NoDup (map truck_id (map asg_truck (assignments final)
                                        ++ availableTrucks final))).
    { by rewrite Hperm. }
    rewrite map_app in Hnd'. by apply NoDup_app in Hnd' as (Hnd' & _ & _).
Qed.

Lemma assignOrdersToTrucks_distinct_trucks_witness :
  map asg_truck
    (assignOrdersToTrucks zoneDistancesSG Fixtures.helperOrders Fixtures.helperTrucks 2)
    ⊆+ Fixtures.helperTrucks
  /\ NoDup (map (fun a => truck_id (asg_truck a))
              (assignOrdersToTrucks zoneDistancesSG Fixtures.helperOrders
                 Fixtures.helperTrucks 2)).
Proof.
  apply (assignOrdersToTrucks_distinct_trucks zoneDistancesSG Fixtures.helperOrders
           Fixtures.helperTrucks 2).
  apply (bool_decide_unpack _). vm_compute. exact I.
Defined.

Lemma openingHelpers_snoc (asgs : list TruckAssignment) (a : TruckAssignment) :
  openingHelpers (asgs ++ [a])
  = (openingHelpers asgs + openingHelpers [a])%Z.
Proof.
  unfold openingHelpers. induction asgs as [|b asgs IH]; simpl; [lia|].
  rewrite IH. simpl. lia.
Qed.

Lemma openingHelpers_join (order : OrderData) (h : Z) :
  forall (asgs : list TruckAssignment) (i : nat) (a : TruckAssignment),
    asgs !! i = Some a -> asg_orders a <> [] ->
    openingHelpers (<[i := addToAssignment a order h]> asgs) = openingHelpers asgs.
Proof.
  induction asgs as [|b asgs IH]; intros i a Hl Hne; [done|].
  destruct i as [|i]; simpl in *.
  - injection Hl as ->. by destruct (asg_orders a).
  - unfold openingHelpers in *. simpl. by rewrite (IH i a Hl Hne).
Qed.

Lemma assignOrder_helpers (budget : Z) (st : PlanState) (order : OrderData) :
  (0 <= remainingHelpers st)%Z
  /\ (openingHelpers (assignments st) + remainingHelpers st)%Z = budget ->
  (0 <= remainingHelpers (assignOrder st order))%Z
  /\ (openingHelpers (assignments (assignOrder st order))
      + remainingHelpers (assignOrder st order))%Z = budget.
Proof.
  intros [Hpos Hsum].
  destruct (assignOrder_cases st order)
    as [->|[(i & a & Hl & (o0 & Ho0 & _) & _ & _ & ->)|(truck & _ & _ & _ & Hh & ->)]];
    [done|..]; simpl.
  - rewrite (openingHelpers_join order _ _ i a Hl); [done|].
    intros Hnil. rewrite Hnil in Ho0. by apply elem_of_nil in Ho0.
  - rewrite openingHelpers_snoc. unfold openingHelpers at 2. simpl.
    assert (0 <= helperCount (order_helpersRequired order))%Z
      by (destruct (order_helpersRequired order); simpl; lia).
    lia.
Qed.

(** X19. With a budget that is not negative, the helpers asked for by the orders
    that opened the trucks of [assignOrdersToTrucks] stay within the budget. *)
Theorem assignOrdersToTrucks_opening_helpers (zoneDistances : list string)
    (orders : list OrderData) (trucks : list TruckData) (availableHelpers : Z) :
  (0 <= availableHelpers)%Z ->
  (openingHelpers (assignOrdersToTrucks zoneDistances orders trucks availableHelpers)
   <= availableHelpers)%Z.
Proof.
  intros Hpos. unfold assignOrdersToTrucks.
  set (final := fold_left _ zoneDistances _).
  assert (Hinv : (0 <= remainingHelpers final)%Z
                 /\ (openingHelpers (assignments final) + remainingHelpers final)%Z
                    = availableHelpers).
  { unfold final.
    apply (fold_left_inv
             (fun st => (0 <= remainingHelpers st)%Z
                        /\ (openingHelpers (assignments st) + remainingHelpers st)%Z
                           = availableHelpers)).
    - intros st zone Hst. unfold assignZone.
      apply (fold_left_inv
               (fun st => (0 <= remainingHelpers st)%Z
                          /\ (openingHelpers (assignments st) + remainingHelpers st)%Z
                             = availableHelpers)); [|done].
      intros s o. apply assignOrder_helpers.
    - simpl. split; [done|]. unfold openingHelpers. simpl. lia. }
  lia.
Qed.

Lemma assignOrdersToTrucks_opening_helpers_witness :
  (openingHelpers
     (assignOrdersToTrucks zoneDistancesSG Fixtures.helperOrders Fixtures.helperTrucks 2)
   <= 2)%Z.
Proof.
  apply (assignOrdersToTrucks_opening_helpers zoneDistancesSG Fixtures.helperOrders
           Fixtures.helperTrucks 2).
  lia.
Defined.

End V1Planner.

(** ** The single-trip planner: which orders are assigned *)
Section V1Orders.
Import GlobalV1.

Lemma assocGet_pushZone (zone : string) (o : OrderData) (z : string) :
  forall m : list (string * list OrderData),
    assocGet (pushZone zone o m) z
    = if String.eqb zone z then assocGet m z ++ [o] else assocGet m z.
Proof.
  induction m as [|[k os] m IH]; simpl.
  - by destruct (String.eqb zone z).
  - destruct (String.eqb_spec k zone) as [->|Hne]; simpl.
    + by destruct (String.eqb zone z).
    + rewrite IH. destruct (String.eqb_spec k z) as [->|Hkz]; [|done].
      by destruct (String.eqb_spec zone z) as [->|Hzz].
Qed.

Lemma assocGet_groupByZone (orders : list OrderData) (z : string) :
  assocGet (groupByZone orders) z = filter (fun o => zoneOrCentral o = z) orders.
Proof.
  unfold groupByZone.
  assert (Hgen : forall m,
             assocGet (fold_left (fun m o => pushZone (zoneOrCentral o) o m) orders m) z
             = assocGet m z ++ filter (fun o => zoneOrCentral o = z) orders).
  { induction orders as [|o orders IH]; intros m; simpl; [by rewrite app_nil_r|].
    rewrite IH, assocGet_pushZone, filter_cons.
    destruct (String.eqb_spec (zoneOrCentral o) z) as [Heq|Hne].
    - rewrite decide_True by done. by rewrite <- app_assoc.
    - by rewrite decide_False by done. }
  by rewrite Hgen.
Qed.

Lemma filter_by_keys {A : Type} (key : A -> string) (l : list A) :
  forall zones : list string,
    NoDup zones ->
    flat_map (fun z => filter (fun o => key o = z) l) zones
    ≡ₚ filter (fun o => key o ∈ zones) l.
Proof.
  induction zones as [|z zones IH]; intros Hnd; simpl.
  - induction l as [|o l IHl]; [done|]. rewrite filter_cons.
    rewrite decide_False by apply not_elem_of_nil. done.
  - apply NoDup_cons in Hnd as [Hnot Hnd]. rewrite (IH Hnd). clear IH.
    induction l as [|o l IHl]; [done|]. rewrite !filter_cons.
    destruct (decide (key o = z)) as [Heq|Hne].
    + rewrite decide_False by (by rewrite Heq).
      rewrite decide_True by (rewrite Heq; left). simpl. by rewrite IHl.
    + destruct (decide (key o ∈ zones)) as [Hin|Hout].
      * rewrite decide_True by (by right).
        rewrite <- Permutation_middle. by rewrite IHl.
      * rewrite decide_False; [done|]. intros [?|?]%elem_of_cons; done.
Qed.

Lemma join_orders (order : OrderData) (h : Z) :
  forall (asgs : list TruckAssignment) (i : nat) (a : TruckAssignment),
    asgs !! i = Some a ->
    flat_map asg_orders (<[i := addToAssignment a order h]> asgs)
    ≡ₚ order :: flat_map asg_orders asgs.
Proof.
  induction asgs as [|b asgs IH]; intros i a Hl; [done|].
  destruct i as [|i]; simpl in *.
  - injection Hl as ->. by rewrite <- Permutation_cons_append.
  - rewrite (IH i a Hl). symmetry. apply Permutation_middle.
Qed.

Lemma assignOrder_orders (st : PlanState) (order : OrderData) :
  flat_map asg_orders (assignments (assignOrder st order))
  ⊆+ order :: flat_map asg_orders (assignments st).
Proof.
  destruct (assignOrder_cases st order)
    as [->|[(i & a & Hl & _ & _ & _ & ->)|(truck & _ & _ & _ & _ & ->)]]; simpl.
  - by apply submseteq_cons.
  - by rewrite (join_orders order _ _ i a Hl).
  - rewrite flat_map_app. simpl. by rewrite <- Permutation_cons_append.
Qed.

Lemma assignZone_orders (m : list (string * list OrderData)) (zone : string) :
  forall st : PlanState,
    flat_map asg_orders (assignments (assignZone m st zone))
    ⊆+ assocGet m zone ++ flat_map asg_orders (assignments st).
Proof.
  unfold assignZone. intros st.
  rewrite <- (sort_Permutation byWeightDesc (assocGet m zone)) at 2.
  generalize (Js.sort byWeightDesc (assocGet m zone)). intros os. revert st.
  induction os as [|o os IH]; intros st; simpl; [done|].
  etrans; [apply IH|].
  etrans; [apply submseteq_skips_l, assignOrder_orders|].
  by rewrite <- Permutation_middle.
Qed.

Lemma assignZones_orders (m : list (string * list OrderData)) :
  forall (zones : list string) (st : PlanState),
    flat_map asg_orders (assignments (fold_left (assignZone m) zones st))
    ⊆+ flat_map (assocGet m) zones ++ flat_map asg_orders (assignments st).
Proof.
  induction zones as [|z zones IH]; intros st; simpl; [done|].
  etrans; [apply IH|].
  etrans; [apply submseteq_skips_l, assignZone_orders|].
  rewrite <- !app_assoc. apply submseteq_app_middle. done.
Qed.

(** X20. With a zone table that lists no zone twice, the orders on the
    assignments of [assignOrdersToTrucks] are orders of the input, none
    taken more often than the input holds it, and each lies in a zone of
    the table (an order without a zone counting as Central). *)
Theorem assignOrdersToTrucks_orders_from_input (zoneDistances : list string)
    (orders : list OrderData) (trucks : list TruckData) (availableHelpers : Z) :
  NoDup zoneDistances ->
  flat_map asg_orders (assignOrdersToTrucks zoneDistances orders trucks availableHelpers)
    ⊆+ orders
  /\ Forall (fun o => zoneOrCentral o ∈ zoneDistances)
       (flat_map asg_orders
          (assignOrdersToTrucks zoneDistances orders trucks availableHelpers)).
Proof.
  intros Hnd. unfold assignOrdersToTrucks.
  set (final := fold_left _ zoneDistances _).
  assert (Hsub : flat_map asg_orders (assignments final)
                 ⊆+ filter (fun o => zoneOrCentral o ∈ zoneDistances) orders).
  { unfold final. etrans; [apply assignZones_orders|]. simpl. rewrite app_nil_r.
    rewrite <- (filter_by_keys zoneOrCentral orders zoneDistances Hnd).
    rewrite (flat_map_ext (assocGet (groupByZone orders))
               (fun z => filter (fun o => zoneOrCentral o = z) orders)); [done|].
    intros z. apply assocGet_groupByZone. }
  split.
  - etrans; [exact Hsub|]. apply sublist_submseteq, sublist_filter.
  - apply Forall_forall. intros o Ho.
    apply (elem_of_submseteq _ _ _ Ho) in Hsub.
    by apply list_elem_of_filter in Hsub as [Hz _].
Qed.

Lemma assignOrdersToTrucks_orders_from_input_witness :
  flat_map asg_orders
    (assignOrdersToTrucks zoneDistancesSG Fixtures.helperOrders Fixtures.helperTrucks 2)
    ⊆+ Fixtures.helperOrders
  /\ Forall (fun o => zoneOrCentral o ∈ zoneDistancesSG)
       (flat_map asg_orders
          (assignOrdersToTrucks zoneDistancesSG Fixtures.helperOrders
             Fixtures.helperTrucks 2)).
Proof.
  apply (assignOrdersToTrucks_orders_from_input zoneDistancesSG Fixtures.helperOrders
           Fixtures.helperTrucks 2).
  apply (bool_decide_unpack _). vm_compute. exact I.
Defined.

End V1Orders.

(** ** The shelf packer of the load plan *)
Section ShelfPacker.
Import GlobalV3 Spec CoverageSpec.

Lemma placeUnit_shelf (truck : TruckData) (section : TruckSection) (n : nat)
    (st : Cursor * list LoadPlanItem) (u : LoadUnit) :
  shelfOk truck n st -> shelfOk truck (S n) (placeUnit truck section st u).
Proof.
  destruct st as [c loadPlan]. intros (Hz & Hl & Hall & Hlen). simpl in *.
  unfold placeUnit. cbv zeta.
  set (c1 := if Js.gt (currentX c + _) (truck_width truck) then _ else c).
  assert (H1 : 0 <= currentZ c1 /\ 0 <= layerHeight c1).
  { unfold c1. by destruct (Js.gt (currentX c + _) _). }
  set (c2 := if Js.gt (currentY c1 + _) (section_endY section) then _ else c1).
  assert (H2 : 0 <= currentZ c2 /\ 0 <= layerHeight c2).
  { unfold c2. destruct (Js.gt (currentY c1 + _) _); [|done]. simpl. split; lra. }
  destruct H2 as [Hz2 Hl2].
  destruct (Js.gt (currentZ c2 + _) (truck_height truck)) eqn:Eroof.
  - unfold shelfOk. simpl. repeat split; try done. lia.
  - apply gt_false in Eroof. unfold shelfOk. simpl.
    split; [done|]. split; [eapply Qle_trans; [exact Hl2|apply Q.le_max_l]|].
    split; [|rewrite length_app; simpl; lia].
    apply Forall_app. split; [done|]. apply List.Forall_cons; [|apply List.Forall_nil].
    unfold underRoof. simpl. done.
Qed.

Lemma packSection_shelf (truck : TruckData) (section : TruckSection) (n : nat)
    (loadPlan : list LoadPlanItem) :
  Forall (underRoof truck) loadPlan -> (length loadPlan <= n)%nat ->
  Forall (underRoof truck) (packSection truck loadPlan section)
  /\ (length (packSection truck loadPlan section)
      <= n + length (section_items section))%nat.
Proof.
  intros Hall Hlen. unfold packSection.
  rewrite <- (Permutation_length (sort_Permutation byWeightDesc (section_items section))).
  generalize (Js.sort byWeightDesc (section_items section)). intros units.
  assert (H : forall (units : list LoadUnit) (m : nat) (st : Cursor * list LoadPlanItem),
             shelfOk truck m st ->
             shelfOk truck (m + length units)
               (fold_left (placeUnit truck section) units st)).
  { clear. induction units as [|u units IH]; intros m st Hst; simpl.
    - by rewrite Nat.add_0_r.
    - replace (m + S (length units))%nat with (S m + length units)%nat by lia.
      apply IH. by apply placeUnit_shelf. }
  destruct (H units n
              ({| currentX := 0; currentY := section_startY section; currentZ := 0;
                  layerHeight := 0; rowWidth := 0 |}, loadPlan))
    as (_ & _ & Hres & Hcount); [|done].
  unfold shelfOk. simpl. repeat split; try done.
Qed.

(** X21. Every entry of the load plan of [generateLoadPlan] stands on or above
    the floor and ends under the roof of the truck, none is rotated, and the
    plan has at most one entry per unit of the trip: a unit that finds no
    room under the roof is left out. *)
Theorem generateLoadPlan_under_roof (trip : TruckTrip) (route : list RouteStop)
    (truck : TruckData) :
  Forall (underRoof truck) (generateLoadPlan trip route truck)
  /\ (length (generateLoadPlan trip route truck)
      <= length (collectUnits trip route))%nat.
Proof.
  unfold generateLoadPlan. rewrite sectionsOf_spec.
  set (units := sortedUnits trip route).
  set (k := Js.ceilThird (length units)).
  assert (Hunits : length units = length (collectUnits trip route)).
  { unfold units, sortedUnits. apply Permutation_length, sort_Permutation. }
  unfold sectionsWith. simpl.
  destruct (packSection_shelf truck
              {| section_name := back; section_startY := 0;
                 section_endY := truck_depth truck / 3;
                 section_items := take k units |} 0 [])
    as [Hb Hbn]; [done|done|].
  destruct (packSection_shelf truck
              {| section_name := middle; section_startY := truck_depth truck / 3;
                 section_endY := truck_depth truck / 3 * 2;
                 section_items := take k (drop k units) |} _ _ Hb Hbn)
    as [Hm Hmn].
  destruct (packSection_shelf truck
              {| section_name := front; section_startY := truck_depth truck / 3 * 2;
                 section_endY := truck_depth truck;
                 section_items := drop (k * 2) units |} _ _ Hm Hmn)
    as [Hf Hfn].
  split; [done|]. simpl in Hfn.
  rewrite !length_take, !length_drop in Hfn. lia.
Qed.

End ShelfPacker.

(** ** Building the order data *)
Section OrderRows.
Import GlobalV3 CoverageSpec.

Lemma getZoneFromZipcode_zone (zipcode : string) :
  getZoneFromZipcode zipcode ∈ ["Central"; "East"; "North"; "West"; "South"].
Proof.
  unfold getZoneFromZipcode.
  destruct (ZONE_MAPPING !! String.substring 0 2 (Js.padStart6 zipcode)) as [z|] eqn:E;
    simpl; [by apply (ZONE_MAPPING_zones _ _ E)|left].
Qed.

Lemma fold_max_ge (xs : list Q) :
  forall x : Q, x <= fold_left Qmax xs x /\ Forall (fun y => y <= fold_left Qmax xs x) xs.
Proof.
  induction xs as [|y xs IH]; intros x; simpl; [split; [lra|done]|].
  destruct (IH (Qmax x y)) as [Hacc Hall].
  pose proof (Q.le_max_l x y). pose proof (Q.le_max_r x y).
  split; [lra|]. apply List.Forall_cons; [lra|done].
Qed.

Lemma maxOf_ge (xs : list Q) :
  Forall (fun y => Js.leExt (Js.Fin y) (Js.maxOf xs)) xs.
Proof.
  destruct xs as [|x xs]; [done|]. simpl.
  destruct (fold_max_ge xs x) as [Hx Hall]. by apply List.Forall_cons.
Qed.

Lemma fold_left_map_sum {A B : Type} (f : B -> Q) (g : A -> B) (l : list A) :
  forall acc : Q,
    fold_left (fun sum i => sum + f i) (map g l) acc
    = fold_left (fun sum i => sum + f (g i)) l acc.
Proof.
  induction l as [|a l IH]; intros acc; simpl; [done|]. apply IH.
Qed.

(** X22. [buildOrderData] answers an order whose total weight and volume are
    those of its item lines, whose largest dimensions bound the dimensions
    of every item line, whose zone is the delivery zone of the row when it
    has one and otherwise one of the five zones, and which needs two people
    exactly when it weighs more than 50 kg.  With at least one item line the
    three largest dimensions are finite; without item lines they are
    [-Infinity] and the totals are 0. *)
Theorem buildOrderData_consistent (order : OrderRow) (items : list ItemRow) :
  exists o,
    buildOrderData order items = o
    /\ length (order_items o) = length items
    /\ order_totalWeight o = itemsWeight (order_items o)
    /\ order_totalVolume o = itemsVolume (order_items o)
    /\ Forall
         (fun i => Js.leExt (Js.Fin (item_length i)) (order_maxLength o)
                   /\ Js.leExt (Js.Fin (item_width i)) (order_maxWidth o)
                   /\ Js.leExt (Js.Fin (item_height i)) (order_maxHeight o))
         (order_items o)
    /\ (order_needsTwoPeople o = true <-> 50 < order_totalWeight o)
    /\ (order_zone o ∈ ["Central"; "East"; "North"; "West"; "South"]
        \/ row_deliveryZone order = Some (order_zone o))
    /\ (items <> [] ->
        exists l w h,
          (order_maxLength o, order_maxWidth o, order_maxHeight o)
          = (Js.Fin l, Js.Fin w, Js.Fin h))
    /\ (items = [] ->
        (order_maxLength o, order_maxWidth o, order_maxHeight o)
        = (Js.NegInf, Js.NegInf, Js.NegInf)
        /\ order_totalWeight o = 0 /\ order_totalVolume o = 0).
Proof.
  eexists. split; [reflexivity|]. unfold buildOrderData. cbv zeta. cbn -[Js.maxOf].
  split; [by rewrite length_map|].
  split; [unfold itemsWeight; by rewrite fold_left_map_sum|].
  split; [unfold itemsVolume; by rewrite fold_left_map_sum|].
  split; [|split; [|split; [|split]]].
  - pose proof (maxOf_ge (map (fun i => Js.numOr (irow_length i) 30) items)) as El.
    pose proof (maxOf_ge (map (fun i => Js.numOr (irow_width i) 30) items)) as Ew.
    pose proof (maxOf_ge (map (fun i => Js.numOr (irow_height i) 30) items)) as Eh.
    rewrite Forall_forall in El, Ew, Eh.
    apply Forall_forall. intros i Hi.
    apply list_elem_of_In, in_map_iff in Hi as (row & <- & Hrow). cbn -[Js.maxOf].
    split; [|split]; [apply El|apply Ew|apply Eh];
      apply list_elem_of_In, in_map_iff; by exists row.
  - apply gt_true.
  - destruct (row_deliveryZone order) as [z|] eqn:Ez.
    + destruct (String.eqb z ""); [left|by right]. apply getZoneFromZipcode_zone.
    + left. apply getZoneFromZipcode_zone.
  - intros Hne. destruct items as [|i items]; [done|]. simpl. eauto.
  - by intros ->.
Qed.

Lemma buildOrderData_consistent_witness :
  exists o,
    buildOrderData Fixtures.twoHelperRow [Fixtures.lightItemRow] = o
    /\ length (order_items o) = length [Fixtures.lightItemRow]
    /\ order_totalWeight o = itemsWeight (order_items o)
    /\ order_totalVolume o = itemsVolume (order_items o)
    /\ Forall
         (fun i => Js.leExt (Js.Fin (item_length i)) (order_maxLength o)
                   /\ Js.leExt (Js.Fin (item_width i)) (order_maxWidth o)
                   /\ Js.leExt (Js.Fin (item_height i)) (order_maxHeight o))
         (order_items o)
    /\ (order_needsTwoPeople o = true <-> 50 < order_totalWeight o)
    /\ (order_zone o ∈ ["Central"; "East"; "North"; "West"; "South"]
        \/ row_deliveryZone Fixtures.twoHelperRow = Some (order_zone o))
    /\ ([Fixtures.lightItemRow] <> [] ->
        exists l w h,
          (order_maxLength o, order_maxWidth o, order_maxHeight o)
          = (Js.Fin l, Js.Fin w, Js.Fin h))
    /\ ([Fixtures.lightItemRow] = [] ->
        (order_maxLength o, order_maxWidth o, order_maxHeight o)
        = (Js.NegInf, Js.NegInf, Js.NegInf)
        /\ order_totalWeight o = 0 /\ order_totalVolume o = 0).
Proof.
  apply (buildOrderData_consistent Fixtures.twoHelperRow [Fixtures.lightItemRow]).
Defined.

End OrderRows.

(** ** Routes of the trips *)
Section Routes.
Import GlobalV3 RouteV3 Spec CoverageSpec.

Variable localeCompare : string -> string -> Z.

Lemma pushStops_spec :
  forall (orders : list OrderData) (acc : list Stop) (n : nat),
    pushStops orders (acc, n)
    = (acc ++ imap (fun i o => stopOf (n + i) o) orders, (n + length orders)%nat).
Proof.
  induction orders as [|o os IH]; intros acc n; simpl.
  - by rewrite app_nil_r, Nat.add_0_r.
  - rewrite IH, <- app_assoc. simpl. rewrite Nat.add_0_r. f_equal; [|lia].
    f_equal. f_equal. apply imap_ext. intros i x _. simpl. f_equal. lia.
Qed.

Lemma routeZones_spec (zoneOrders : list (string * list OrderData)) :
  forall (zones : list string) (acc : list Stop) (n : nat),
    fold_left (routeZone localeCompare zoneOrders) zones (acc, n)
    = (acc ++ imap (fun i o => stopOf (n + i) o)
                (flat_map
                   (fun zone =>
                      Js.sort (bySector localeCompare)
                        (default [] (assocGet zoneOrders zone))) zones),
       (n + length (flat_map
                      (fun zone =>
                         Js.sort (bySector localeCompare)
                           (default [] (assocGet zoneOrders zone))) zones))%nat).
Proof.
  induction zones as [|z zones IH]; intros acc n; simpl.
  - by rewrite app_nil_r, Nat.add_0_r.
  - unfold routeZone at 2. rewrite pushStops_spec, IH.
    rewrite imap_app, length_app, <- app_assoc. f_equal; [|lia].
    f_equal. f_equal. apply imap_ext. intros i x _. simpl. f_equal. lia.
Qed.

Lemma getOptimizedRoute_visit (trip : TruckTrip) :
  getOptimizedRoute localeCompare trip
  = imap (fun i o => stopOf (S i) o) (visitOrder localeCompare trip).
Proof.
  unfold getOptimizedRoute, visitOrder.
  destruct (trip_loadedOrders trip) as [|o os] eqn:E; simpl.
  - induction (optimizeZoneOrder (trip_assignedZones trip)) as [|z zs IH]; simpl; done.
  - cbv zeta. by rewrite routeZones_spec.
Qed.

Lemma zoneOrders_pushZone (zone : string) (o : OrderData) (z : string) :
  forall m : list (string * list OrderData),
    default [] (assocGet (pushZone zone o m) z)
    = if String.eqb zone z then default [] (assocGet m z) ++ [o]
      else default [] (assocGet m z).
Proof.
  induction m as [|[k os] m IH]; simpl.
  - by destruct (String.eqb zone z).
  - destruct (String.eqb_spec k zone) as [->|Hne]; simpl.
    + by destruct (String.eqb zone z).
    + destruct (String.eqb_spec k z) as [->|Hkz]; [|by rewrite IH].
      by destruct (String.eqb_spec zone z) as [->|Hzz].
Qed.

Lemma zoneOrders_groupByZone (orders : list OrderData) (z : string) :
  default [] (assocGet (groupByZone orders) z)
  = filter (fun o => order_zone o = z) orders.
Proof.
  unfold groupByZone.
  assert (Hgen : forall m,
             default []
               (assocGet (fold_left (fun m o => pushZone (order_zone o) o m) orders m) z)
             = default [] (assocGet m z) ++ filter (fun o => order_zone o = z) orders).
  { induction orders as [|o orders IH]; intros m; simpl; [by rewrite app_nil_r|].
    rewrite IH, zoneOrders_pushZone, filter_cons.
    destruct (String.eqb_spec (order_zone o) z) as [Heq|Hne].
    - rewrite decide_True by done. by rewrite <- app_assoc.
    - by rewrite decide_False by done. }
  by rewrite Hgen.
Qed.

Lemma filter_all {A : Type} (P : A -> Prop) `{!forall x, Decision (P x)} (l : list A) :
  Forall P l -> filter P l = l.
Proof.
  induction 1 as [|x l Hx Hl IH]; [done|].
  rewrite filter_cons, decide_True by done. by rewrite IH.
Qed.

Lemma visitOrder_blocks (trip : TruckTrip) :
  visitOrder localeCompare trip
  ≡ₚ filter (fun o => order_zone o ∈ optimizeZoneOrder (trip_assignedZones trip))
       (trip_loadedOrders trip).
Proof.
  unfold visitOrder.
  rewrite <- (filter_by_keys order_zone (trip_loadedOrders trip) _
                (optimizeZoneOrder_NoDup (trip_assignedZones trip))).
  induction (optimizeZoneOrder (trip_assignedZones trip)) as [|z zs IH]; simpl; [done|].
  by rewrite IH, sort_Permutation, zoneOrders_groupByZone.
Qed.

Lemma StronglySorted_app_intro {A : Type} (R : A -> A -> Prop) (l1 l2 : list A) :
  StronglySorted R l1 -> StronglySorted R l2 ->
  (forall a b, a ∈ l1 -> b ∈ l2 -> R a b) ->
  StronglySorted R (l1 ++ l2).
Proof.
  induction 1 as [|x l1 Hs IH Hx]; intros H2 Hcross; simpl; [done|].
  constructor.
  - apply IH; [done|]. intros a b Ha Hb. apply Hcross; [by right|done].
  - apply Forall_app. split; [done|]. apply Forall_forall. intros b Hb.
    apply Hcross; [left|done].
Qed.

Lemma visitOrder_zones_sorted (trip : TruckTrip) :
  StronglySorted
    (fun a b =>
       (lookupOr30 ZONE_TRAVEL_TIMES (order_zone a)
        <= lookupOr30 ZONE_TRAVEL_TIMES (order_zone b))%Z)
    (visitOrder localeCompare trip).
Proof.
  unfold visitOrder.
  pose proof (optimizeZoneOrder_sorted (trip_assignedZones trip)) as Hsorted.
  induction Hsorted as [|z zs Hs IH Hz]; simpl; [constructor|].
  assert (Hblock : forall o,
             o ∈ Js.sort (bySector localeCompare)
                   (default [] (assocGet (groupByZone (trip_loadedOrders trip)) z))
             -> order_zone o = z).
  { intros o Ho. rewrite sort_Permutation, zoneOrders_groupByZone in Ho.
    by apply list_elem_of_filter in Ho as [Hzone _]. }
  apply StronglySorted_app_intro; [|done|].
  - revert Hblock. generalize (Js.sort (bySector localeCompare)
      (default [] (assocGet (groupByZone (trip_loadedOrders trip)) z))).
    intros block Hblock. induction block as [|o block IHb]; [constructor|].
    constructor; [apply IHb; intros o' Ho'; apply Hblock; by right|].
    apply Forall_forall. intros o' Ho'.
    rewrite (Hblock o), (Hblock o'); [lia|by right|left].
  - intros a b Ha Hb. rewrite (Hblock a Ha).
    apply list_elem_of_In, in_flat_map in Hb as (z' & Hz' & Hb).
    apply list_elem_of_In in Hz', Hb.
    rewrite sort_Permutation, zoneOrders_groupByZone in Hb.
    apply list_elem_of_filter in Hb as [-> _].
    by apply (proj1 (Forall_forall _ _) Hz).
Qed.

Lemma StronglySorted_map {A B : Type} (R : B -> B -> Prop) (f : A -> B) (l : list A) :
  StronglySorted (fun a b => R (f a) (f b)) l -> StronglySorted R (map f l).
Proof.
  induction 1 as [|x l Hs IH Hx]; simpl; constructor; [done|].
  apply Forall_forall. intros y Hy.
  apply list_elem_of_In, in_map_iff in Hy as (a & <- & Ha).
  apply (proj1 (Forall_forall _ _) Hx). by apply list_elem_of_In.
Qed.

Lemma sequenceOf_visit (visit : list OrderData) (order : OrderData) :
  order ∈ visit ->
  (1 <= sequenceOf (map toRouteStop (imap (fun i o => stopOf (S i) o) visit)) order
   <= length visit)%nat.
Proof.
  intros Hin. unfold sequenceOf.
  destruct (List.find _ _) as [r|] eqn:Efind.
  - apply find_some in Efind as [Hr _].
    apply in_map_iff in Hr as (s & <- & Hs).
    apply list_elem_of_In, elem_of_lookup_imap_1 in Hs as (i & y & -> & Hy).
    simpl. apply lookup_lt_Some in Hy. lia.
  - exfalso. apply list_elem_of_lookup in Hin as [i Hi].
    pose proof (find_none _ _ Efind
                  (toRouteStop (stopOf (S i) order))) as Hnone.
    simpl in Hnone. rewrite Z.eqb_refl in Hnone.
    assert (true = false); [|done]. apply Hnone.
    apply in_map, list_elem_of_In.
    exact (elem_of_lookup_imap_2 (fun i o => stopOf (S i) o) visit order i Hi).
Qed.

(** The route of a trip whose assigned zones hold the zone of every loaded
    order. *)
Lemma getOptimizedRoute_ok (trip : TruckTrip) :
  (forall o, o ∈ trip_loadedOrders trip -> order_zone o ∈ trip_assignedZones trip) ->
  routeOk localeCompare trip.
Proof.
  intros Hzones. unfold routeOk. cbv zeta. rewrite getOptimizedRoute_visit.
  assert (Hperm : visitOrder localeCompare trip ≡ₚ trip_loadedOrders trip).
  { rewrite visitOrder_blocks. rewrite filter_all; [done|].
    apply Forall_forall. intros o Ho. apply optimizeZoneOrder_elem. by apply Hzones. }
  split; [by exists (visitOrder localeCompare trip)|]. split.
  - change (map rs_zone ?l) with (rs_zone <$> l). rewrite fmap_imap.
    rewrite (imap_ext _ (const order_zone)) by done. rewrite imap_const.
    apply StronglySorted_map, visitOrder_zones_sorted.
  - unfold collectUnits. apply Forall_forall. intros u Hu.
    apply list_elem_of_In, in_flat_map in Hu as (o & Ho & Hu).
    unfold unitsOfOrder in Hu. apply in_flat_map in Hu as (item & _ & Hu).
    apply list_elem_of_In, elem_of_replicate in Hu as [-> _]. simpl.
    rewrite <- (Permutation_length Hperm). apply sequenceOf_visit.
    rewrite Hperm. by apply list_elem_of_In.
Qed.

End Routes.

Section RunRoutes.
Import GlobalV3 RouteV3 Spec CoverageSpec.

(** X23. For every trip of every truck of a run, under any collation,
    [getOptimizedRoute] visits each loaded order exactly once with the stops
    numbered from 1, visits the zones by ascending travel time from the
    depot, and gives every unit of the load plan the stop number of its
    order (never the default 999). *)
Theorem run_routes (localeCompare : string -> string -> Z)
    (ordersData : list OrderData) (trucksData : list TruckData) :
  exists r,
    runOptimizationV3 ordersData trucksData = Some r
    /\ Forall (fun tw => Forall (routeOk localeCompare) (tw_trips tw))
         (trucksWithTrips r).
Proof.
  destruct (run_store ordersData trucksData) as (r & store & Hrun & Hres & Hnum & _).
  exists r. split; [done|]. rewrite Hres.
  apply Forall_forall. intros tw Hin.
  apply list_elem_of_In, in_map_iff in Hin as (tw0 & <- & Hin). apply list_elem_of_In in Hin.
  destruct (proj1 (Forall_forall _ _) Hnum tw0 Hin) as (_ & _ & Hzones). simpl.
  eapply Forall_impl; [exact Hzones|]. intros trip Htrip. simpl in Htrip.
  apply getOptimizedRoute_ok. intros o Ho. rewrite Htrip. unfold zonesOf.
  apply dedup_elem. split; [|apply not_elem_of_nil].
  apply list_elem_of_In, in_map. by apply list_elem_of_In.
Qed.

End RunRoutes.

(** ** The delivery sequence of the single-truck run *)
Section SequenceFacts.
Import DeliverySequence CoverageSpec.

Variable localeCompare : string -> string -> Z.
Hypothesis localeCompare_total :
  forall a b, (0 < localeCompare a b)%Z -> (localeCompare b a <= 0)%Z.
Hypothesis localeCompare_trans :
  forall a b c,
    (localeCompare a b <= 0)%Z -> (localeCompare b c <= 0)%Z ->
    (localeCompare a c <= 0)%Z.

Lemma compareOrders_le (a b : SeqOrder) :
  (compareOrders localeCompare a b <=? 0)%Z = true
  <-> byZoneThenZipcode localeCompare a b.
Proof.
  unfold compareOrders, byZoneThenZipcode. cbv zeta. rewrite Z.leb_le.
  destruct (Z.eqb_spec (zoneIndex a) (zoneIndex b)) as [Heq|Hne]; simpl; lia.
Qed.

Lemma sortedOrders_sorted (orders : list SeqOrder) :
  StronglySorted (byZoneThenZipcode localeCompare) (sortedOrders localeCompare orders).
Proof.
  apply (StronglySorted_impl
           (fun a b => (compareOrders localeCompare a b <=? 0)%Z = true)).
  { intros a b. apply compareOrders_le. }
  apply sort_sorted.
  - intros x y Hxy. apply compareOrders_le.
    assert (Hnot : ~ byZoneThenZipcode localeCompare x y).
    { intros H. apply compareOrders_le in H. congruence. }
    unfold byZoneThenZipcode in *.
    destruct (Z.lt_trichotomy (zoneIndex x) (zoneIndex y)) as [Hlt|[Heq|Hgt]].
    + exfalso. apply Hnot. by left.
    + right. split; [done|]. apply localeCompare_total.
      destruct (Z.lt_ge_cases 0 (localeCompare (so_zipcode x) (so_zipcode y)));
        [done|]. exfalso. apply Hnot. right. split; [done|lia].
    + by left.
  - intros x y z Hxy Hyz. apply compareOrders_le in Hxy, Hyz. apply compareOrders_le.
    unfold byZoneThenZipcode in *.
    destruct Hxy as [Hxy|[Hxy Hlxy]], Hyz as [Hyz|[Hyz Hlyz]];
      [left; lia|left; lia|left; lia|].
    right. split; [lia|]. by eapply localeCompare_trans.
Qed.

End SequenceFacts.

Section SequenceSpec.
Import DeliverySequence CoverageSpec.

Lemma codeUnitCompare_total (a b : string) :
  (0 < codeUnitCompare a b)%Z -> (codeUnitCompare b a <= 0)%Z.
Proof.
  unfold codeUnitCompare. rewrite (String.compare_antisym b a).
  destruct (String.compare a b); simpl; lia.
Qed.

Lemma codeUnitCompare_trans (a b c : string) :
  (codeUnitCompare a b <= 0)%Z -> (codeUnitCompare b c <= 0)%Z ->
  (codeUnitCompare a c <= 0)%Z.
Proof.
  unfold codeUnitCompare.
  destruct (String.compare a b) eqn:Eab; [| |lia].
  - apply String.compare_eq_iff in Eab. by subst.
  - destruct (String.compare b c) eqn:Ebc; [| |lia].
    + apply String.compare_eq_iff in Ebc. subst. by rewrite Eab.
    + intros _ _.
      apply OrderedTypeEx.String_as_OT.cmp_lt in Eab, Ebc.
      pose proof (OrderedTypeEx.String_as_OT.lt_trans _ _ _ Eab Ebc) as Hac.
      apply OrderedTypeEx.String_as_OT.cmp_lt in Hac.
      unfold OrderedTypeEx.String_as_OT.cmp in Hac. by rewrite Hac.
Qed.

Lemma indexOf_bounds (z : string) :
  forall (l : list string) (i : Z),
    indexOf z l i = (-1)%Z
    \/ (i <= indexOf z l i < i + Z.of_nat (length l))%Z.
Proof.
  induction l as [|x l IH]; intros i; [by left|].
  cbn [indexOf length]. destruct (String.eqb x z); [right; lia|].
  destruct (IH (i + 1)%Z) as [->|Hb]; [by left|right; lia].
Qed.

(** X24. Under a collation that is a total preorder, [optimizeDeliverySequence]
    numbers all the orders from 1, in the order of their zones in Central,
    East, North, West, South (a zone outside this list before all of them)
    and by zipcode within a zone. *)
Theorem optimizeDeliverySequence_spec (localeCompare : string -> string -> Z)
    (orders : list SeqOrder) :
  (forall a b, (0 < localeCompare a b)%Z -> (localeCompare b a <= 0)%Z) ->
  (forall a b c,
      (localeCompare a b <= 0)%Z -> (localeCompare b c <= 0)%Z ->
      (localeCompare a c <= 0)%Z) ->
  sortedOrders localeCompare orders ≡ₚ orders
  /\ StronglySorted (byZoneThenZipcode localeCompare) (sortedOrders localeCompare orders)
  /\ map se_id (optimizeDeliverySequence localeCompare orders)
     = map so_id (sortedOrders localeCompare orders)
  /\ map se_sequence (optimizeDeliverySequence localeCompare orders)
     = seq 1 (length orders)
  /\ Forall (fun o => (-1 <= zoneIndex o <= 4)%Z) orders.
Proof.
  intros Htotal Htrans.
  split; [apply sort_Permutation|].
  split; [by apply sortedOrders_sorted|].
  unfold optimizeDeliverySequence. split; [|split].
  - change (map se_id ?l) with (se_id <$> l). rewrite fmap_imap.
    rewrite (imap_ext _ (const so_id)) by done. by rewrite imap_const.
  - change (map se_sequence ?l) with (se_sequence <$> l). rewrite fmap_imap.
    rewrite (imap_ext _ (fun j _ => (1 + j)%nat)) by (intros; simpl; lia).
    rewrite (imap_seq _ (fun j => j) 1). rewrite list_fmap_id.
    unfold sortedOrders. by rewrite sort_length.
  - apply Forall_forall. intros o _. unfold zoneIndex.
    match goal with |- context [indexOf ?z zoneOrder 0%Z] =>
      pose proof (indexOf_bounds z zoneOrder 0%Z) as Hb end.
    change (Z.of_nat (length zoneOrder)) with 5%Z in Hb. lia.
Qed.

Lemma optimizeDeliverySequence_spec_witness :
  sortedOrders codeUnitCompare
    [ {| so_id := 1; so_zone := Some "West"; so_zipcode := "639405" |};
      {| so_id := 2; so_zone := None; so_zipcode := "018956" |} ]
  ≡ₚ [ {| so_id := 1; so_zone := Some "West"; so_zipcode := "639405" |};
       {| so_id := 2; so_zone := None; so_zipcode := "018956" |} ]
  /\ StronglySorted (byZoneThenZipcode codeUnitCompare)
       (sortedOrders codeUnitCompare
          [ {| so_id := 1; so_zone := Some "West"; so_zipcode := "639405" |};
            {| so_id := 2; so_zone := None; so_zipcode := "018956" |} ])
  /\ map se_id
       (optimizeDeliverySequence codeUnitCompare
          [ {| so_id := 1; so_zone := Some "West"; so_zipcode := "639405" |};
            {| so_id := 2; so_zone := None; so_zipcode := "018956" |} ])
     = map so_id
         (sortedOrders codeUnitCompare
            [ {| so_id := 1; so_zone := Some "West"; so_zipcode := "639405" |};
              {| so_id := 2; so_zone := None; so_zipcode := "018956" |} ])
  /\ map se_sequence
       (optimizeDeliverySequence codeUnitCompare
          [ {| so_id := 1; so_zone := Some "West"; so_zipcode := "639405" |};
            {| so_id := 2; so_zone := None; so_zipcode := "018956" |} ])
     = seq 1 2
  /\ Forall (fun o => (-1 <= zoneIndex o <= 4)%Z)
       [ {| so_id := 1; so_zone := Some "West"; so_zipcode := "639405" |};
         {| so_id := 2; so_zone := None; so_zipcode := "018956" |} ].
Proof.
  apply (optimizeDeliverySequence_spec codeUnitCompare
           [ {| so_id := 1; so_zone := Some "West"; so_zipcode := "639405" |};
             {| so_id := 2; so_zone := None; so_zipcode := "018956" |} ]).
  - exact codeUnitCompare_total.
  - exact codeUnitCompare_trans.
Defined.

End SequenceSpec.

(** ** The unassigned orders, and runs without trucks or without orders *)
Section RunEdges.
Import GlobalV3 Spec CoverageSpec.

Lemma orders_sorted_by_volume (orders : list OrderData) :
  StronglySorted (fun a b => order_totalVolume b <= order_totalVolume a)
    (Js.sort byVolumeDesc orders).
Proof.
  apply (StronglySorted_impl (fun a b => byVolumeDesc a b = true)).
  - unfold byVolumeDesc. intros a b H. apply Qle_bool_iff in H. lra.
  - apply sort_sorted; unfold byVolumeDesc.
    + intros x y H. apply Qle_bool_iff.
      destruct (Qle_bool (order_totalVolume y - order_totalVolume x) 0) eqn:E; [done|].
      assert (Hn : ~ order_totalVolume y - order_totalVolume x <= 0).
      { intros Hle. apply Qle_bool_iff in Hle. congruence. }
      lra.
    + intros x y z Hxy Hyz. apply Qle_bool_iff in Hxy, Hyz. apply Qle_bool_iff. lra.
Qed.

Lemma StronglySorted_sublist {A : Type} (R : A -> A -> Prop) (l1 l2 : list A) :
  l1 `sublist_of` l2 -> StronglySorted R l2 -> StronglySorted R l1.
Proof.
  induction 1 as [|x l1 l2 Hsub IH|x l1 l2 Hsub IH]; intros Hs; [done|..];
    apply StronglySorted_inv in Hs as [Hs Hx].
  - constructor; [by apply IH|].
    apply Forall_forall. intros y Hy. apply (proj1 (Forall_forall _ _) Hx).
    by eapply elem_of_sublist.
  - by apply IH.
Qed.

Lemma multiTrip_gives_up_in_order :
  forall (orders : list OrderData) (st st' : PackState),
    forEachM multiTripOrder orders st = Some st' ->
    exists k, snd st' = snd st ++ k /\ k `sublist_of` orders.
Proof.
  induction orders as [|o orders IH]; intros st st' Hrun; simpl in Hrun.
  - injection Hrun as <-. exists []. by rewrite app_nil_r.
  - destruct (multiTripOrder st o) as [st1|] eqn:E1; [|done]. simpl in Hrun.
    destruct (IH st1 st' Hrun) as (k & Hk & Hsub).
    destruct st as [store un]. unfold multiTripOrder in E1.
    destruct (multiTripTrucks store o (sortedTruckRefs store)) as [[store1 packed]|];
      [|done].
    simpl in E1. injection E1 as <-. simpl in Hk. destruct packed.
    + exists k. split; [done|]. by apply sublist_cons.
    + exists (o :: k). split; [by rewrite Hk, <- app_assoc|]. by apply sublist_skip.
Qed.

(** X25. The unassigned orders of a run are listed by descending volume. *)
Theorem run_unassigned_by_volume (ordersData : list OrderData)
    (trucksData : list TruckData) :
  exists r,
    runOptimizationV3 ordersData trucksData = Some r
    /\ StronglySorted (fun a b => order_totalVolume b <= order_totalVolume a)
         (unassignedOrders r).
Proof.
  destruct (runOptimizationV3_trace ordersData trucksData) as (r & _ & _ & Hrun & _).
  exists r. split; [done|].
  destruct (run_phases ordersData trucksData r Hrun)
    as (_ & store3 & un3 & store4 & _ & E4 & _).
  destruct (multiTrip_gives_up_in_order _ _ _ E4) as (k & Hk & Hsub).
  simpl in Hk. rewrite Hk.
  eapply StronglySorted_sublist; [exact Hsub|apply orders_sorted_by_volume].
Qed.

(** X26. Without trucks [runOptimizationV3] still answers: there is no truck in
    the result, every order is unassigned, and the counts and the elapsed
    time are 0. *)
Theorem run_without_trucks (ordersData : list OrderData) :
  exists r,
    runOptimizationV3 ordersData [] = Some r
    /\ trucksWithTrips r = []
    /\ unassignedOrders r ≡ₚ ordersData
    /\ assignedOrders (summary r) = 0%nat
    /\ totalTrips (summary r) = 0%nat
    /\ totalElapsedTimeMin (summary r) = 0%Z.
Proof.
  destruct (runOptimizationV3_trace ordersData [])
    as (r & loaded & store4 & Hrun & Hsteps & Hres & Hperm & _ & Hasg & _ & Htrips).
  exists r. split; [done|].
  destruct (run_phases ordersData [] r Hrun) as (_ & _ & _ & _ & _ & _ & _ & Hmax & _).
  assert (Hnil : store4 = []).
  { apply storeSteps_length in Hsteps. simpl in Hsteps. by destruct store4. }
  subst store4. simpl in Hres.
  pose proof (storeSteps_loaded _ _ _ Hsteps) as Hloaded. simpl in Hloaded.
  apply Permutation_nil in Hloaded. subst loaded.
  rewrite Hmax, Hres. simpl in *. done.
Qed.

Lemma single_trips_count (l : list TruckWithTrips) :
  Forall (fun tw => length (tw_trips tw) = 1%nat) l ->
  forall acc : nat,
    fold_left (fun sum t => (sum + length (tw_trips t))%nat) l acc
    = (acc + length l)%nat.
Proof.
  induction 1 as [|tw l Hone Hall IH]; intros acc; simpl; [lia|].
  rewrite IH, Hone. lia.
Qed.

Lemma maxWith0_zeros (xs : list Z) :
  Forall (fun x => x = 0%Z) xs -> Js.maxWith0 xs = 0%Z.
Proof.
  induction 1 as [|x xs -> Hall IH]; simpl; [done|].
  fold (Js.maxWith0 xs). rewrite IH. done.
Qed.

(** X27. Without orders [runOptimizationV3] answers every truck of the fleet
    with its one, empty first trip: no order, no route time, one trip per
    truck, and nothing unassigned. *)
Theorem run_without_orders (trucksData : list TruckData) :
  exists r,
    runOptimizationV3 [] trucksData = Some r
    /\ unassignedOrders r = []
    /\ map tw_truck (trucksWithTrips r) ≡ₚ trucksData
    /\ Forall
         (fun tw =>
            tw_trips tw = [newTrip 1 (tw_truck tw)]
            /\ tw_totalOrders tw = 0%nat /\ tw_totalRouteTime tw = 0%Z)
         (trucksWithTrips r)
    /\ totalTrips (summary r) = length trucksData
    /\ totalElapsedTimeMin (summary r) = 0%Z.
Proof.
  eexists. split; [unfold runOptimizationV3; simpl; reflexivity|]. simpl.
  set (store0 := Js.sort byCapacityDesc (map initTruck trucksData)).
  assert (Hperm : store0 ≡ₚ map initTruck trucksData) by apply sort_Permutation.
  assert (Hall : Forall
                   (fun tw =>
                      tw_trips tw = [newTrip 1 (tw_truck tw)]
                      /\ tw_totalOrders tw = 0%nat /\ tw_totalRouteTime tw = 0%Z)
                   (map withTotals store0)).
  { apply Forall_forall. intros tw Htw.
    apply list_elem_of_In, in_map_iff in Htw as (tw0 & <- & Htw0).
    apply list_elem_of_In in Htw0. rewrite Hperm in Htw0.
    apply list_elem_of_In, in_map_iff in Htw0 as (truck & <- & _). done. }
  split; [done|]. split; [|split; [done|split]].
  - rewrite map_map. simpl. rewrite Hperm, map_map. simpl. by rewrite map_id.
  - rewrite single_trips_count.
    + rewrite length_map. unfold store0. by rewrite sort_length, length_map.
    + eapply Forall_impl; [exact Hall|]. by intros tw (-> & _).
  - apply maxWith0_zeros. apply Forall_forall. intros t Ht.
    apply list_elem_of_In, in_map_iff in Ht as (tw & <- & Htw).
    apply list_elem_of_In in Htw.
    by destruct (proj1 (Forall_forall _ _) Hall tw Htw) as (_ & _ & ->).
Qed.

End RunEdges.

(** ** Assigned orders fit their truck *)
Section AssignedFit.
Import GlobalV3 Spec CoverageSpec.

Lemma canFitInTrip_empty (truck : TruckData) (trip : TruckTrip) (order : OrderData)
    (k : nat) :
  tripOfTruck truck trip ->
  0 <= trip_currentVolume trip -> 0 <= trip_currentWeight trip ->
  canFitInTrip trip order = true ->
  canFitInTrip (newTrip k truck) order = true.
Proof.
  intros (_ & Hv & Hw & Hd) Hcv Hcw Hfit. unfold canFitInTrip in *. simpl.
  rewrite Hv, Hw, Hd in Hfit.
  destruct (Js.gt (trip_currentVolume trip + order_totalVolume order)
              (truck_volume truck)) eqn:E1; [done|].
  destruct (Js.gt (trip_currentWeight trip + order_totalWeight order)
              (truck_maxWeight truck)) eqn:E2; [done|].
  apply gt_false in E1, E2.
  replace (Js.gt (0 + order_totalVolume order) (truck_volume truck)) with false
    by (symmetry; apply gt_false; lra).
  replace (Js.gt (0 + order_totalWeight order) (truck_maxWeight truck)) with false
    by (symmetry; apply gt_false; lra).
  exact Hfit.
Qed.

Lemma storeStep_fits (s s' : Store) (l : list OrderData) :
  storeStep s l s' -> Forall orderSized l -> storeFits s -> storeFits s'.
Proof.
  destruct 1 as [store i tw trip order Hi Hc Hfit|store i tw Hi]; intros Hl Hs;
    pose proof (proj1 (Forall_lookup _ _) Hs i tw Hi) as Htw;
    apply Forall_insert; try done; simpl.
  - unfold currentTrip in Hc.
    pose proof (proj1 (Forall_lookup _ _) Htw _ trip Hc) as (Hof & Hcv & Hcw & Hall).
    apply Forall_insert; [done|].
    apply Forall_cons in Hl as [[Hv Hw] _]. simpl.
    split; [done|]. split; [lra|]. split; [lra|].
    apply Forall_app. split; [done|]. apply List.Forall_cons; [|apply List.Forall_nil].
    by apply (canFitInTrip_empty _ trip).
  - apply Forall_app. split; [done|]. apply List.Forall_cons; [|apply List.Forall_nil].
    simpl. split; [done|]. split; [lra|]. split; [lra|done].
Qed.

Lemma storeSteps_fits (s s' : Store) (l : list OrderData) :
  storeSteps s l s' -> Forall orderSized l -> storeFits s -> storeFits s'.
Proof.
  induction 1 as [|a b c la lb Hab Hbc IH]; intros Hl Hs; [done|].
  apply Forall_app in Hl as [Hla Hlb]. apply IH; [done|]. by eapply storeStep_fits.
Qed.

Lemma initial_store_fits (trucksData : list TruckData) :
  storeFits (Js.sort byCapacityDesc (map initTruck trucksData)).
Proof.
  unfold storeFits. rewrite sort_Permutation. apply Forall_forall. intros tw Htw.
  apply list_elem_of_In, in_map_iff in Htw as (truck & <- & _). simpl.
  apply List.Forall_cons; [|apply List.Forall_nil]. simpl.
  split; [done|]. split; [lra|]. split; [lra|done].
Qed.

(** X28. When no order has a negative total volume or weight, every order that
    [runOptimizationV3] puts on a trip fits an empty trip of the truck that
    carries it. *)
Theorem run_assigned_fit_own_truck (ordersData : list OrderData)
    (trucksData : list TruckData) :
  Forall orderSized ordersData ->
  exists r,
    runOptimizationV3 ordersData trucksData = Some r
    /\ Forall
         (fun tw =>
            Forall
              (fun trip =>
                 Forall
                   (fun o => forall k, canFitInTrip (newTrip k (tw_truck tw)) o = true)
                   (trip_loadedOrders trip)) (tw_trips tw))
         (trucksWithTrips r).
Proof.
  intros Hsized.
  destruct (runOptimizationV3_trace ordersData trucksData)
    as (r & loaded & store & Hrun & Hsteps & Hres & Hperm & _).
  exists r. split; [done|].
  assert (Hloaded : Forall orderSized loaded).
  { rewrite <- Hperm in Hsized. by apply Forall_app in Hsized as [H _]. }
  pose proof (storeSteps_fits _ _ _ Hsteps Hloaded (initial_store_fits trucksData))
    as Hfits.
  rewrite Hres. apply Forall_forall. intros tw Hin.
  apply list_elem_of_In, in_map_iff in Hin as (tw0 & <- & Hin). apply list_elem_of_In in Hin.
  simpl. eapply Forall_impl; [exact (proj1 (Forall_forall _ _) Hfits tw0 Hin)|].
  intros trip (_ & _ & _ & Hall). simpl in Hall.
  eapply Forall_impl; [exact Hall|]. intros o Ho k. simpl in Ho. exact Ho.
Qed.

Lemma run_assigned_fit_own_truck_witness :
  exists r,
    runOptimizationV3 [Fixtures.smallOrder] [Fixtures.cubeTruck] = Some r
    /\ Forall
         (fun tw =>
            Forall
              (fun trip =>
                 Forall
                   (fun o => forall k, canFitInTrip (newTrip k (tw_truck tw)) o = true)
                   (trip_loadedOrders trip)) (tw_trips tw))
         (trucksWithTrips r).
Proof.
  apply (run_assigned_fit_own_truck [Fixtures.smallOrder] [Fixtures.cubeTruck]).
  apply List.Forall_cons; [|apply List.Forall_nil].
  split; simpl; lra.
Defined.

End AssignedFit.
